(** * Resilient fetch and metrics aggregation engine of meta-ads-mcp

    A shallow embedding of the TypeScript server (retry executor, date range
    resolver, metric normaliser, comparison arithmetic, batch fan-out and
    report assembler) together with the properties its specification states.

    Conventions of the embedding.
    - A JavaScript number is a double: [NaN], an infinity, or a finite value
      given by the rational it stands for.  Every arithmetic operation and
      every conversion from text rounds its exact result to the nearest
      double, ties to the even mantissa, and overflows to an infinity
      ([to_double]).  The sign of zero is not kept: every guard of the source
      ([> 0], [!== 0], [||]) and [String] treat [-0] like [0], and no
      division of the source has a divisor that can be [-0] and a dividend
      that is not zero.
    - A [Date] is its time value in milliseconds since the epoch, or invalid.
      Local-time accessors read the host's time zone, a parameter [zone]
      that gives the offset from UTC at each instant.
    - A promise is represented by its settlement; an [async] body is a
      computation in the exception monad [Exc]. *)

From Stdlib Require Import ZArith QArith Qround Qabs Qpower String Ascii List Sorted Lia Lqa.
From stdpp Require Import base option list strings gmap.

Local Open Scope string_scope.
Local Open Scope list_scope.
Local Open Scope Z_scope.

(** ** JavaScript primitives *)

Module JS.

(** *** Exceptions and the exception monad *)

Inductive exn : Type :=
| ApiError (message : string) (statusCode : Z)
| AbortError
| RangeError (message : string)
| OtherError (message : string).

Inductive Exc (A : Type) : Type :=
| Ret (a : A)
| Throw (e : exn).
Arguments Ret {A} a.
Arguments Throw {A} e.

Definition bind {A B : Type} (m : Exc A) (k : A -> Exc B) : Exc B :=
  match m with
  | Ret a => k a
  | Throw e => Throw e
  end.

#[global] Instance Exc_ret : MRet Exc := @Ret.
#[global] Instance Exc_bind : MBind Exc := fun A B k m => bind m k.

(** *** Characters and decimal digits *)

Definition is_digit (c : ascii) : bool :=
  ((48 <=? nat_of_ascii c) && (nat_of_ascii c <=? 57))%nat.

Definition digit_val (c : ascii) : Z := Z.of_nat (nat_of_ascii c) - 48.

Definition digit_char (d : Z) : ascii := ascii_of_nat (48 + Z.to_nat d).

(** StrWhiteSpaceChar, restricted to its ASCII members. *)
Definition is_ws (c : ascii) : bool :=
  let n := nat_of_ascii c in
  ((n =? 32) || (n =? 9) || (n =? 10) || (n =? 11) || (n =? 12) || (n =? 13))%nat.

Fixpoint skip_ws (s : string) : string :=
  match s with
  | String c s' => if is_ws c then skip_ws s' else s
  | EmptyString => EmptyString
  end.

(** The longest prefix of decimal digits and what follows it. *)
Fixpoint span_digits (s : string) : list ascii * string :=
  match s with
  | String c s' =>
      if is_digit c then let '(ds, r) := span_digits s' in (c :: ds, r)
      else ([], s)
  | EmptyString => ([], EmptyString)
  end.

Definition digits_val (ds : list ascii) : Z :=
  fold_left (fun acc c => 10 * acc + digit_val c) ds 0.

Fixpoint dec_digits (fuel : nat) (n : Z) (acc : string) : string :=
  match fuel with
  | O => acc
  | S f =>
      let acc' := String (digit_char (n mod 10)) acc in
      if n / 10 =? 0 then acc' else dec_digits f (n / 10) acc'
  end.

(** Decimal rendering of a natural number given as [Z]. *)
Definition nat_to_string (n : Z) : string :=
  dec_digits (S (Z.to_nat (Z.log2 n))) n "".

(** Decimal rendering of an integer, as [String(n)] gives it. *)
Definition Z_to_string (n : Z) : string :=
  if n <? 0 then "-" +:+ nat_to_string (- n) else nat_to_string n.

Fixpoint repeat0 (n : nat) : string :=
  match n with
  | O => ""
  | S n' => String "0" (repeat0 n')
  end.

(** [String(n).padStart(w, '0')] for a natural number. *)
Definition pad0 (w : nat) (n : Z) : string :=
  let s := nat_to_string n in
  repeat0 (w - String.length s) +:+ s.

(** [s.slice(0, n)]. *)
Definition slice0 (n : nat) (s : string) : string := substring 0 n s.

Definition starts_with (p s : string) : bool := String.prefix p s.

(** [s.includes(f)]. *)
Fixpoint includes (f s : string) : bool :=
  String.prefix f s ||
  match s with
  | String _ s' => includes f s'
  | EmptyString => false
  end.

Definition lower_char (c : ascii) : ascii :=
  let n := nat_of_ascii c in
  if ((65 <=? n) && (n <=? 90))%nat then ascii_of_nat (n + 32) else c.

(** [s.toLowerCase()] for text of the ASCII range: the letters [A] to [Z]
    are mapped and every other character is kept.  Outside that range the
    source also maps accented and other letters, which this does not do;
    what is said of letter case below is said of ASCII text. *)
Fixpoint toLowerCase (s : string) : string :=
  match s with
  | String c s' => String (lower_char c) (toLowerCase s')
  | EmptyString => EmptyString
  end.

(** Text of the ASCII range. *)
Definition ascii_text (s : string) : Prop :=
  Forall (fun c => (nat_of_ascii c < 128)%nat) (list_ascii_of_string s).

(** The capital letters, each with its small letter. *)
Definition letter_pairs : list (ascii * ascii) :=
  combine (list_ascii_of_string "ABCDEFGHIJKLMNOPQRSTUVWXYZ")
          (list_ascii_of_string "abcdefghijklmnopqrstuvwxyz").

Definition is_pair (u l : ascii) : bool :=
  existsb (fun p => Ascii.eqb p.1 u && Ascii.eqb p.2 l) letter_pairs.

(** Two characters that are equal or the two cases of one letter, and two
    texts that are so character by character: what "the same up to letter
    case" means, said without [toLowerCase]. *)
Definition same_letter (c d : ascii) : bool :=
  Ascii.eqb c d || is_pair c d || is_pair d c.

Fixpoint same_text (s t : string) : bool :=
  match s, t with
  | EmptyString, EmptyString => true
  | String c s', String d t' => same_letter c d && same_text s' t'
  | _, _ => false
  end.

(** Every character. *)
Definition all_ascii : list ascii := ascii_of_nat <$> seq 0 256.

(** *** Numbers *)

Inductive number : Type :=
| NaN
| PosInf
| NegInf
| Fin (q : Q).

(** Finite values are kept in lowest terms so that equal numbers are equal
    terms. *)
Definition fin (q : Q) : number := Fin (Qred q).

Definition of_Z (z : Z) : number := Fin (inject_Z z).

Definition zero : number := of_Z 0.

Definition neg_inf_if (b : bool) : number := if b then NegInf else PosInf.

(** The exponent of the least positive double, and the exponent of the
    least power of two that is no double. *)
Definition emin : Z := -1074.
Definition emax : Z := 1024.

(** [(n / d) / 2^e] as a fraction. *)
Definition scaled (n d e : Z) : Z * Z :=
  if 0 <=? e then (n, d * 2 ^ e) else (n * 2 ^ (- e), d).

(** [floor (log2 (n / d))] for positive [n] and [d]. *)
Definition ilog2 (n d : Z) : Z :=
  let l := Z.log2 n - Z.log2 d in
  let '(a, b) := scaled n d l in
  if b <=? a then l else l - 1.

(** The integer nearest to [a / b], the even one of two that are equally
    near. *)
Definition round_even (a b : Z) : Z :=
  let q := a / b in
  match 2 * (a mod b) ?= b with
  | Lt => q
  | Gt => q + 1
  | Eq => if Z.even q then q else q + 1
  end.

(** The magnitude [v] with the sign of [q]. *)
Definition sign_of (q : Q) (v : Q) : Q := if Qnum q <? 0 then (- v)%Q else v.

(** A magnitude of [2^1024] or more is an infinity. *)
Definition ranged (q v : Q) : number :=
  if Qle_bool (2 ^ emax) v then neg_inf_if (Qnum q <? 0)
  else fin (sign_of q v).

(** The Number value for a rational: the nearest double, the one with an
    even mantissa of two that are equally near; the sign of a zero is not
    kept. *)
Definition to_double (q : Q) : number :=
  let n := Z.abs (Qnum q) in
  let d := Zpos (Qden q) in
  if n =? 0 then zero
  else
    let e := Z.max (ilog2 n d - 52) emin in
    let '(a, b) := scaled n d e in
    ranged q (inject_Z (round_even a b) * 2 ^ e).

Definition Qpos_b (q : Q) : bool := 0 <? Qnum q.
Definition Qneg_b (q : Q) : bool := Qnum q <? 0.
Definition Qzero_b (q : Q) : bool := Qnum q =? 0.

(** [a - b] *)
Definition sub (a b : number) : number :=
  match a, b with
  | NaN, _ | _, NaN => NaN
  | PosInf, PosInf | NegInf, NegInf => NaN
  | PosInf, _ | _, NegInf => PosInf
  | NegInf, _ | _, PosInf => NegInf
  | Fin x, Fin y => to_double (x - y)
  end.

(** [a * b] *)
Definition mul (a b : number) : number :=
  match a, b with
  | NaN, _ | _, NaN => NaN
  | Fin x, Fin y => to_double (x * y)
  | Fin x, PosInf | PosInf, Fin x =>
      if Qzero_b x then NaN else neg_inf_if (Qneg_b x)
  | Fin x, NegInf | NegInf, Fin x =>
      if Qzero_b x then NaN else neg_inf_if (Qpos_b x)
  | PosInf, PosInf | NegInf, NegInf => PosInf
  | PosInf, NegInf | NegInf, PosInf => NegInf
  end.

(** [a / b]; a zero divisor is taken as [+0]. *)
Definition div (a b : number) : number :=
  match a, b with
  | NaN, _ | _, NaN => NaN
  | Fin x, Fin y =>
      if Qzero_b y then (if Qzero_b x then NaN else neg_inf_if (Qneg_b x))
      else to_double (x / y)
  | Fin _, PosInf | Fin _, NegInf => zero
  | PosInf, Fin y => neg_inf_if (Qneg_b y)
  | NegInf, Fin y => neg_inf_if (negb (Qneg_b y))
  | _, _ => NaN
  end.

(** [a > b] *)
Definition gt (a b : number) : bool :=
  match a, b with
  | NaN, _ | _, NaN => false
  | PosInf, PosInf => false
  | PosInf, _ => true
  | _, PosInf => false
  | NegInf, _ => false
  | Fin _, NegInf => true
  | Fin x, Fin y => Qpos_b (Qred (x - y))
  end.

(** [a >= b] *)
Definition ge (a b : number) : bool :=
  match a, b with
  | NaN, _ | _, NaN => false
  | PosInf, _ => true
  | _, PosInf => false
  | _, NegInf => true
  | NegInf, Fin _ => false
  | Fin x, Fin y => negb (Qneg_b (Qred (x - y)))
  end.

(** A multiple of the least positive double: every double is one. *)
Definition on_grid (q : Q) : Prop :=
  exists k : Z, (q == inject_Z k * 2 ^ emin)%Q.

(** A number whose value, when it is finite, lies on the grid. *)
Definition gridded (a : number) : Prop :=
  match a with
  | Fin q => on_grid q
  | _ => True
  end.

(** The rational is the value of a double: rounding gives it back. *)
Definition double_b (q : Q) : bool :=
  match to_double q with
  | Fin r => Qeq_bool r q
  | _ => false
  end.

(** [a === 0] *)
Definition is_zero (a : number) : bool :=
  match a with
  | Fin x => Qzero_b x
  | _ => false
  end.

(** [a !== 0] *)
Definition nonzero (a : number) : bool := negb (is_zero a).

(** Truthiness of a number, as [||] tests it. *)
Definition truthy (a : number) : bool :=
  match a with
  | NaN => false
  | Fin x => negb (Qzero_b x)
  | _ => true
  end.

(** [a || b] on numbers. *)
Definition or_else (a b : number) : number := if truthy a then a else b.

(** [Math.round]: the nearest integer, ties towards positive infinity. *)
Definition round_Q (q : Q) : Z := Qfloor (q + (1 # 2)).

Definition Math_round (a : number) : number :=
  match a with
  | Fin q => of_Z (round_Q q)
  | _ => a
  end.

Definition is_real (a : number) : Prop :=
  match a with
  | Fin _ => True
  | _ => False
  end.

Definition is_real_b (a : number) : bool :=
  match a with
  | Fin _ => true
  | _ => false
  end.

(** [10^e] as a rational, for any integer exponent. *)
Definition pow10 (e : Z) : Q :=
  if 0 <=? e then inject_Z (10 ^ e) else 1 # Z.to_pos (10 ^ (- e)).

(** The number of decimal digits of a natural number, none for 0. *)
Fixpoint count_digits (fuel : nat) (z : Z) : Z :=
  match fuel with
  | O => 0
  | S f => if z =? 0 then 0 else 1 + count_digits f (z / 10)
  end.

Definition ndigits (z : Z) : Z := count_digits (S (Z.to_nat (Z.log2 z))) z.

(** The decimal exponent [n] of a positive rational:
    [10^(n-1) <= x < 10^n]. *)
Definition dec_exponent (x : Q) : Z :=
  let n := Qnum x in
  let d := Zpos (Qden x) in
  if d <=? n then ndigits (n / d) else 1 - ndigits ((d - 1) / n).

(** [s * 10^(n - k)] is read back as [x]. *)
Definition reads_back (x : Q) (n k s : Z) : bool :=
  match to_double (inject_Z s * pow10 (n - k)) with
  | Fin y => Qeq_bool y x
  | _ => false
  end.

(** The digits of [Number::toString]: the least [k] for which a decimal of
    [k] digits is read back as [x], and of the decimals of that length the
    one nearest to [x], the even one of two equally near. *)
Fixpoint shortest (fuel : nat) (x : Q) (n k : Z) : Z * Z :=
  let t := (x / pow10 (n - k))%Q in
  let lo := Qfloor t in
  let hi := lo + 1 in
  match fuel with
  | O => (lo, k)
  | S f =>
      match reads_back x n k lo, reads_back x n k hi with
      | true, true =>
          match (t - inject_Z lo ?= inject_Z hi - t)%Q with
          | Lt => (lo, k)
          | Gt => (hi, k)
          | Eq => (if Z.even lo then lo else hi, k)
          end
      | true, false => (lo, k)
      | false, true => (hi, k)
      | false, false => shortest f x n (k + 1)
      end
  end.

Fixpoint strip_zeros_rev (s : list ascii) : list ascii :=
  match s with
  | "0"%char :: s' => strip_zeros_rev s'
  | _ => s
  end.

(** The digits of a decimal without its trailing zeros. *)
Definition significant (ds : string) : string :=
  string_of_list_ascii (rev (strip_zeros_rev (rev (list_ascii_of_string ds)))).

(** The text of a positive finite number whose digits are [ds] and whose
    decimal exponent is [n]: plain digits up to 1e21, a leading [0.] down to
    1e-6, the exponent form beyond. *)
Definition layout (ds : string) (n : Z) : string :=
  let k := Z.of_nat (String.length ds) in
  if (k <=? n) && (n <=? 21) then ds +:+ repeat0 (Z.to_nat (n - k))
  else if (0 <? n) && (n <=? 21) then
    substring 0 (Z.to_nat n) ds +:+ "." +:+
    substring (Z.to_nat n) (Z.to_nat (k - n)) ds
  else if (-6 <? n) && (n <=? 0) then
    "0." +:+ repeat0 (Z.to_nat (- n)) +:+ ds
  else
    let e := n - 1 in
    let exp := (if e <? 0 then "e-" else "e+") +:+ nat_to_string (Z.abs e) in
    if k =? 1 then ds +:+ exp
    else substring 0 1 ds +:+ "." +:+ substring 1 (Z.to_nat (k - 1)) ds +:+ exp.

Definition positive_to_string (x : Q) : string :=
  let n := dec_exponent x in
  let '(s, k) := shortest 17 x n 1 in
  let ds := nat_to_string s in
  (* a decimal rounded up to a power of ten has one digit more *)
  layout (significant ds) (n + (Z.of_nat (String.length ds) - k)).

(** [String(a)], the text a template literal and [JSON.stringify] give a
    number. *)
Definition number_to_string (a : number) : string :=
  match a with
  | NaN => "NaN"
  | PosInf => "Infinity"
  | NegInf => "-Infinity"
  | Fin q =>
      if Qzero_b q then "0"
      else if Qneg_b q then "-" +:+ positive_to_string (- q)
      else positive_to_string q
  end.

Definition split_sign (s : string) : bool * string :=
  match s with
  | String "-" s' => (true, s')
  | String "+" s' => (false, s')
  | _ => (false, s)
  end.

(** The exponent part of a StrDecimalLiteral: taken only when digits follow
    the [e]. *)
Definition exponent_part (s : string) : Z :=
  match s with
  | String c s' =>
      if (Ascii.eqb c "e" || Ascii.eqb c "E")%bool then
        let '(neg, s'') := split_sign s' in
        match span_digits s'' with
        | ([], _) => 0
        | (ds, _) => if neg then - digits_val ds else digits_val ds
        end
      else 0
  | EmptyString => 0
  end.

(** [parseFloat(s)]: leading white space is skipped and the longest prefix
    that is a decimal literal is read and rounded to a double; [NaN] when
    there is none. *)
Definition parseFloat (s : string) : number :=
  let '(neg, s1) := split_sign (skip_ws s) in
  if starts_with "Infinity" s1 then neg_inf_if neg
  else
    let '(ip, r1) := span_digits s1 in
    let '(fp, r2) :=
      match r1 with
      | String "." r => span_digits r
      | _ => ([], r1)
      end in
    match ip, fp with
    | [], [] => NaN
    | _, _ =>
        let m := digits_val (ip ++ fp) in
        let e := exponent_part r2 - Z.of_nat (List.length fp) in
        to_double (inject_Z (if neg then - m else m) * pow10 e)
    end.

(** [parseInt(s, 10)]. *)
Definition parseInt (s : string) : number :=
  let '(neg, s1) := split_sign (skip_ws s) in
  match span_digits s1 with
  | ([], _) => NaN
  | (ds, _) => to_double (inject_Z (if neg then - digits_val ds else digits_val ds))
  end.

(** [String(v || '0')] for a field that is absent or holds a string. *)
Definition str_or_zero (v : option string) : string :=
  match v with
  | Some s => if String.eqb s "" then "0" else s
  | None => "0"
  end.

(** *** Dates *)

Definition msPerDay : Z := 86400000.

(** Largest magnitude of a valid time value. *)
Definition maxTime : Z := 8640000000000000.

(** A date object: its time value, or [None] when the date is invalid. *)
Definition Date : Type := option Z.

Definition TimeClip (t : Z) : Date :=
  if Z.abs t <=? maxTime then Some t else None.

(** Year, month (1..12) and day of month of a day number counted from
    1970-01-01, in the proleptic Gregorian calendar. *)
Definition civil_from_days (z : Z) : Z * Z * Z :=
  let z := z + 719468 in
  let era := z / 146097 in
  let doe := z - era * 146097 in
  let yoe := (doe - doe / 1460 + doe / 36524 - doe / 146096) / 365 in
  let doy := doe - (365 * yoe + yoe / 4 - yoe / 100) in
  let mp := (5 * doy + 2) / 153 in
  let d := doy - (153 * mp + 2) / 5 + 1 in
  let m := if mp <? 10 then mp + 3 else mp - 9 in
  (yoe + era * 400 + (if m <=? 2 then 1 else 0), m, d).

(** Day number of a calendar date; [m] in 1..12. *)
Definition days_from_civil (y m d : Z) : Z :=
  let y := if m <=? 2 then y - 1 else y in
  let era := y / 400 in
  let yoe := y - era * 400 in
  let doy := (153 * (if 2 <? m then m - 3 else m + 9) + 2) / 5 + d - 1 in
  let doe := yoe * 365 + yoe / 4 - yoe / 100 + doy in
  era * 146097 + doe - 719468.

(** [MakeDay(year, month, date)] with a zero-based month that may lie
    outside 0..11. *)
Definition MakeDay (year month date : Z) : Z :=
  days_from_civil (year + month / 12) (month mod 12 + 1) 1 + date - 1.

Definition is_leap (y : Z) : bool :=
  ((y mod 4 =? 0) && negb (y mod 100 =? 0)) || (y mod 400 =? 0).

Definition days_in_month (y m : Z) : Z :=
  if m =? 2 then (if is_leap y then 29 else 28)
  else if (m =? 4) || (m =? 6) || (m =? 9) || (m =? 11) then 30
  else 31.

(** The host's time zone: the offset of local time from UTC, in
    milliseconds, at a UTC time value and at a local time value
    ([LocalTZA(t, true)] and [LocalTZA(t, false)]). *)
Record Zone : Type := {
  utc_offset : Z -> Z;
  local_offset : Z -> Z;
}.

(** A zone without daylight-saving transitions. *)
Definition fixed_zone (offset : Z) : Zone :=
  {| utc_offset := fun _ => offset; local_offset := fun _ => offset |}.

Section LocalTime.
Variable zone : Zone.

(** [LocalTime(t)] and [UTC(t)] *)
Definition LocalTime (t : Z) : Z := t + utc_offset zone t.
Definition UTC (t : Z) : Z := t - local_offset zone t.

Definition local_civil (t : Z) : Z * Z * Z :=
  civil_from_days (LocalTime t / msPerDay).

Definition getFullYear (t : Z) : Z := (local_civil t).1.1.
Definition getMonth (t : Z) : Z := (local_civil t).1.2 - 1.
Definition getDate (t : Z) : Z := (local_civil t).2.

(** Day of week, Sunday = 0; 1970-01-01 was a Thursday. *)
Definition getDay (t : Z) : Z := (LocalTime t / msPerDay + 4) mod 7.

(** [d.setDate(dt)] on a valid date with time value [t]: the new value of
    [d]. *)
Definition setDate (t : Z) (dt : Z) : Date :=
  TimeClip (UTC (MakeDay (getFullYear t) (getMonth t) dt * msPerDay
                 + LocalTime t mod msPerDay)).

(** [new Date(year, month, date)]: local midnight of that day. *)
Definition Date_of_fields (year month date : Z) : Date :=
  let y := if (0 <=? year) && (year <=? 99) then 1900 + year else year in
  TimeClip (UTC (MakeDay y month date * msPerDay)).
End LocalTime.

Definition iso_year (y : Z) : string :=
  if (0 <=? y) && (y <=? 9999) then pad0 4 y
  else (if y <? 0 then "-" else "+") +:+ pad0 6 (Z.abs y).

(** The calendar part of the text [toISOString] gives, for a day number. *)
Definition iso_date_part (day : Z) : string :=
  let '(y, m, d) := civil_from_days day in
  iso_year y +:+ "-" +:+ pad0 2 m +:+ "-" +:+ pad0 2 d.

(** The clock part, for the milliseconds elapsed within the day. *)
Definition iso_time_part (ms : Z) : string :=
  "T" +:+ pad0 2 (ms / 3600000) +:+ ":" +:+ pad0 2 (ms / 60000 mod 60) +:+
  ":" +:+ pad0 2 (ms / 1000 mod 60) +:+ "." +:+ pad0 3 (ms mod 1000) +:+ "Z".

(** The text [toISOString] gives for a valid time value (always UTC). *)
Definition iso_string (t : Z) : string :=
  iso_date_part (t / msPerDay) +:+ iso_time_part (t mod msPerDay).

Definition toISOString (d : Date) : Exc string :=
  match d with
  | Some t => Ret (iso_string t)
  | None => Throw (RangeError "Invalid time value")
  end.

Definition digits_ok (cs : list ascii) : bool := forallb is_digit cs.

(** [new Date(s)] for a date-only ISO string [YYYY-MM-DD], which denotes UTC
    midnight of that day.  Any other text is taken to give an invalid date;
    the legacy formats an engine may accept besides are not modelled. *)
Definition Date_parse (s : string) : Date :=
  match list_ascii_of_string s with
  | [y1; y2; y3; y4; h1; m1; m2; h2; d1; d2] =>
      if Ascii.eqb h1 "-" && Ascii.eqb h2 "-" &&
         digits_ok [y1; y2; y3; y4; m1; m2; d1; d2] then
        let y := digits_val [y1; y2; y3; y4] in
        let m := digits_val [m1; m2] in
        let d := digits_val [d1; d2] in
        if (1 <=? m) && (m <=? 12) && (1 <=? d) && (d <=? days_in_month y m)
        then Some (days_from_civil y m d * msPerDay)
        else None
      else None
  | _ => None
  end.

(** The checks behind the calendar arithmetic, for one day of a 400-year
    era: the year of the era, the month and the day are in range, and the
    date maps back to the day it came from. *)
Definition era_day_ok (doe : Z) : bool :=
  let yoe := (doe - doe / 1460 + doe / 36524 - doe / 146096) / 365 in
  let doy := doe - (365 * yoe + yoe / 4 - yoe / 100) in
  let mp := (5 * doy + 2) / 153 in
  let d := doy - (153 * mp + 2) / 5 + 1 in
  let m := if mp <? 10 then mp + 3 else mp - 9 in
  (0 <=? yoe) && (yoe <? 400) && (1 <=? m) && (m <=? 12) &&
  (1 <=? d) && (d <=? days_in_month (yoe + (if m <=? 2 then 1 else 0)) m) &&
  (yoe * 365 + yoe / 4 - yoe / 100 +
   ((153 * (if 2 <? m then m - 3 else m + 9) + 2) / 5 + d - 1) =? doe).

(** Padding [n] to [w] places gives exactly [w] digits that read as [n]. *)
Definition pad_ok (w : nat) (n : Z) : bool :=
  let cs := list_ascii_of_string (pad0 w n) in
  (List.length cs =? w)%nat && digits_ok cs && (digits_val cs =? n).

(** [f] holds on the [n] integers from [z] on. *)
Fixpoint all_from (f : Z -> bool) (n : nat) (z : Z) : bool :=
  match n with
  | O => true
  | S n' => f z && all_from f n' (z + 1)
  end.

(** The month before month [m] (1..12) of year [y]. *)
Definition prev_month (y m : Z) : Z * Z :=
  if m =? 1 then (y - 1, 12) else (y, m - 1).

Definition civil_eqb (a b : Z * Z * Z) : bool :=
  (a.1.1 =? b.1.1) && (a.1.2 =? b.1.2) && (a.2 =? b.2).

(** The check behind the month arithmetic, for month [m] of year [y]: the
    day number of its first day maps back to that date, and the first day of
    the month before lies the length of that month earlier. *)
Definition month_ok (y m : Z) : bool :=
  civil_eqb (civil_from_days (days_from_civil y m 1)) (y, m, 1) &&
  (days_from_civil (prev_month y m).1 (prev_month y m).2 1 =?
   days_from_civil y m 1
   - days_in_month (prev_month y m).1 (prev_month y m).2).

(** The same for the [n]-th month counted from January of year 0. *)
Definition nth_month_ok (n : Z) : bool := month_ok (n / 12) (n mod 12 + 1).

End JS.

(** ** Resilient request executor ([graphRequest]) *)

Module Executor.
Import JS.

Definition REQUEST_TIMEOUT_MS : Z := 30000.
Definition MAX_RETRIES : nat := 2.
Definition RETRY_DELAY_MS : Z := 1000.

(** The [error] member of a Graph API error body. *)
Record ErrorObj : Type := {
  message : string;
  error_user_msg : option string;
  error_subcode : option Z;
}.

(** What the side effects of one call look like from outside. *)
Inductive event : Type :=
| Fetch (attempt : nat)
| Log (level text : string)
| Sleep (ms : Z).

Section GraphRequest.
(** Decoded JSON bodies, the [error] member of a body when it is an object
    that has one, and [JSON.stringify]. *)
Variable json : Type.
Variable error_of : json -> option ErrorObj.
Variable stringify : json -> string.

(** What [await fetchWithTimeout(..)] followed by [await res.json()] comes
    to in one iteration: a response with a decoded body, the abort raised
    when the timer fires, or any other exception (connection failure, a
    body that is not JSON) with its message. *)
Inductive attempt_result : Type :=
| Responded (status : Z) (body : json)
| Aborted
| Failed (msg : string).

Definition ok (status : Z) : bool := (200 <=? status) && (status <=? 299).

Definition truthy_str (o : option string) : option string :=
  match o with
  | Some s => if String.eqb s "" then None else Some s
  | None => None
  end.

Definition truthy_Z (o : option Z) : option Z :=
  match o with
  | Some z => if z =? 0 then None else Some z
  | None => None
  end.

Definition errDetail (status : Z) (body : json) : string :=
  match error_of body with
  | Some errObj =>
      message errObj +:+
      match truthy_str (error_user_msg errObj) with
      | Some m => " | " +:+ m
      | None => ""
      end +:+
      match truthy_Z (error_subcode errObj) with
      | Some c => " (subcode: " +:+ Z_to_string c +:+ ")"
      | None => ""
      end
  | None => "HTTP " +:+ Z_to_string status +:+ ": " +:+ stringify body
  end.

Variable method path : string.

(** The operation: what the [attempt]-th call of [fetch] yields. *)
Variable op : nat -> attempt_result.
Variable retries : nat.

Definition prepend {A : Type} (evs : list event) (r : list event * A)
  : list event * A :=
  (evs ++ r.1, r.2).

(** The [for] loop, with [left] iterations still allowed by its condition
    [attempt <= retries]. *)
Fixpoint attempts (left attempt : nat) : list event * Exc json :=
  match left with
  | O => ([], Throw (ApiError "Max retries exceeded" 0))
  | S left' =>
      match op attempt with
      | Responded status body =>
          if ok status then ([Fetch attempt], Ret body)
          else
            let detail := errDetail status body in
            let failed :=
              [Fetch attempt;
               Log "error" ("Meta API error on " +:+ method +:+ " " +:+ path)] in
            if (400 <=? status) && (status <? 500) then
              (failed, Throw (ApiError detail status))
            else if (attempt <? retries)%nat then
              prepend
                (failed ++
                 [Log "warn" ("Meta API " +:+ Z_to_string status +:+ " on " +:+
                              method +:+ " " +:+ path +:+ ", retrying");
                  Sleep (RETRY_DELAY_MS * (Z.of_nat attempt + 1))])
                (attempts left' (S attempt))
            else (failed, Throw (ApiError detail status))
      | Aborted =>
          ([Fetch attempt],
           Throw (ApiError ("Request timed out after " +:+
                            Z_to_string REQUEST_TIMEOUT_MS +:+ "ms") 408))
      | Failed msg =>
          if (attempt <? retries)%nat then
            prepend
              [Fetch attempt;
               Log "warn" ("Network error on " +:+ method +:+ " " +:+ path +:+
                           ", retrying");
               Sleep (RETRY_DELAY_MS * (Z.of_nat attempt + 1))]
              (attempts left' (S attempt))
          else
            ([Fetch attempt], Throw (ApiError ("Network error: " +:+ msg) 0))
      end
  end.

Definition graphRequest : list event * Exc json := attempts (S retries) 0.
End GraphRequest.

Arguments Responded {json} status body.
Arguments Aborted {json}.
Arguments Failed {json} msg.

(** What the remote end does at one attempt, before the body is read: an
    HTTP response with its status and the text of its body, the abort
    raised when the timer fires, or a failure of the connection. *)
Inductive fetched : Type :=
| Answered (status : Z) (text : string)
| TimedOut
| Unreachable (msg : string).

(** The two awaits of one iteration.  [res.json()] is awaited before the
    status is looked at, inside the [try]: when the text is no JSON its
    [SyntaxError] is caught like a failure of [fetch], whatever the status
    of the response.  [JSON_parse] gives the decoded body or the message of
    that error. *)
Definition attempt_of {json : Type} (JSON_parse : string -> json + string)
  (f : fetched) : attempt_result json :=
  match f with
  | Answered status text =>
      match JSON_parse text with
      | inl body => Responded status body
      | inr msg => Failed msg
      end
  | TimedOut => Aborted
  | Unreachable msg => Failed msg
  end.

(** An outcome after which the loop goes on when attempts remain: a thrown
    exception other than the abort, or a response that is neither a success
    nor a 4xx. *)
Definition retryable {json : Type} (r : attempt_result json) : bool :=
  match r with
  | Responded status _ =>
      negb (ok status) && negb ((400 <=? status) && (status <? 500))
  | Aborted => false
  | Failed _ => true
  end.

Definition is_fetch (e : event) : bool :=
  match e with
  | Fetch _ => true
  | _ => false
  end.

Definition is_sleep (e : event) : bool :=
  match e with
  | Sleep _ => true
  | _ => false
  end.

(** Number of calls of [fetch] in a trace. *)
Definition fetch_count (tr : list event) : nat :=
  List.length (List.filter is_fetch tr).

(** The delays slept, in order. *)
Definition sleeps (tr : list event) : list Z :=
  omap (fun e => match e with Sleep ms => Some ms | _ => None end) tr.

(** The delays of a run that retried attempts [a], [a+1], .., [a+n-1]:
    [RETRY_DELAY_MS * (attempt + 1)] each. *)
Definition backoff (a n : nat) : list Z :=
  (fun i => RETRY_DELAY_MS * (Z.of_nat i + 1)) <$> seq a n.

(** The attempt that decides a call starting at attempt [a] with [left]
    retries still allowed: the first one whose outcome is not retryable,
    or the last one allowed. *)
Fixpoint deciding {json : Type} (op : nat -> attempt_result json)
  (left a : nat) : nat :=
  match left with
  | O => a
  | S left' => if retryable (op a) then deciding op left' (S a) else a
  end.

(** What the loop returns or throws at the attempt that decides the call. *)
Definition outcome {json : Type} (error_of : json -> option ErrorObj)
  (stringify : json -> string) (r : attempt_result json) : Exc json :=
  match r with
  | Responded status body =>
      if ok status then Ret body
      else Throw (ApiError (errDetail json error_of stringify status body)
                           status)
  | Aborted =>
      Throw (ApiError ("Request timed out after " +:+
                       Z_to_string REQUEST_TIMEOUT_MS +:+ "ms") 408)
  | Failed msg => Throw (ApiError ("Network error: " +:+ msg) 0)
  end.

Inductive kind : Type := client | server | network | timeout.

(** Modelled from the spec: the [kind] of a [CallError].  The source's
    [ApiError] carries only a message and a status code; the taxonomy of the
    specification is read off the status code: 408 is the synthetic status
    of a deadline that was exceeded, 4xx a client error, 5xx a server error,
    0 a network error. *)
Definition kind_of_status (statusCode : Z) : kind :=
  if statusCode =? 408 then timeout
  else if (400 <=? statusCode) && (statusCode <? 500) then client
  else if 500 <=? statusCode then server
  else network.

End Executor.

(** ** Date range resolver ([resolveDateRange], [getPreviousPeriod]) *)

Module Resolver.
Import JS.

Record DateRange : Type := { since : string; until : string }.

(** The argument of the resolver: a symbolic name or an explicit range
    object. *)
Inductive TimeRange : Type :=
| Preset (name : string)
| Explicit (range : DateRange).

(** [timeRange.match(/^last_(\d+)d$/)]: the digits captured, if the whole
    string has that shape. *)
Definition match_last_Nd (s : string) : option (list ascii) :=
  match s with
  | String "l" (String "a" (String "s" (String "t" (String "_" rest)))) =>
      match span_digits rest with
      | (d :: ds, String "d" EmptyString) => Some (d :: ds)
      | _ => None
      end
  | _ => None
  end.

(** The symbolic names the resolver knows besides [last_<N>d]. *)
Definition vocabulary : list string :=
  ["today"; "yesterday"; "this_week"; "last_week"; "this_month"; "last_month"].

(** [d.toISOString().slice(0, 10)] *)
Definition fmt (d : Date) : Exc string :=
  s ← toISOString d; mret (slice0 10 s).

Section Clock.
(** The host's zone and the time value [new Date()] reads. *)
Variable zone : Zone.
Variable now : Z.

(** [d.setDate(x.getDate() + k)] where [d] and [x] hold the same date. *)
Definition shift_days (d : Date) (k : Z) : Date :=
  t ← d; setDate zone t (getDate zone t + k).

Definition both (a b : Date) : Exc DateRange :=
  s ← fmt a; u ← fmt b; mret {| since := s; until := u |}.

(** Days back to the Monday of the week of [t]. *)
Definition since_monday (t : Z) : Z :=
  let dow := getDay zone t in
  if dow =? 0 then 6 else dow - 1.

(** In the default branch [parseInt] gives the double nearest to the
    numeral: the integer itself below 2^53; from there on either is so far
    beyond the days a [Date] can hold that [since] is invalid, so the integer
    stands for its double. *)
Definition resolveDateRange (timeRange : TimeRange) : Exc DateRange :=
  match timeRange with
  | Explicit range => mret range
  | Preset name =>
      let today : Date := Some now in
      if String.eqb name "today" then both today today
      else if String.eqb name "yesterday" then
        let d := shift_days today (-1) in both d d
      else if String.eqb name "this_week" then
        let mon := shift_days today (- since_monday now) in
        both mon today
      else if String.eqb name "last_week" then
        let mon := shift_days today (- since_monday now - 7) in
        let sun := shift_days mon 6 in
        both mon sun
      else if String.eqb name "this_month" then
        let first := Date_of_fields zone (getFullYear zone now) (getMonth zone now) 1 in
        both first today
      else if String.eqb name "last_month" then
        let first :=
          Date_of_fields zone (getFullYear zone now) (getMonth zone now - 1) 1 in
        let last := Date_of_fields zone (getFullYear zone now) (getMonth zone now) 0 in
        both first last
      else
        let days :=
          match match_last_Nd name with
          | Some ds => digits_val ds
          | None => 7
          end in
        let until := shift_days today (-1) in
        let since := shift_days until (- days + 1) in
        both since until
  end.

Definition getPreviousPeriod (since until : string) : Exc DateRange :=
  let s := Date_parse since in
  let u := Date_parse until in
  let days : option Z :=
    s' ← s; u' ← u;
    Some (round_Q (inject_Z (u' - s') / inject_Z msPerDay) + 1) in
  let prevUntil := shift_days s (-1) in
  let prevSince := t ← prevUntil; n ← days; setDate zone t (getDate zone t - n + 1) in
  both prevSince prevUntil.
End Clock.

(** The first ten characters of [toISOString] for any instant of the given
    day: [YYYY-MM-DD] for the years 0000 to 9999. *)
Definition date_text (day : Z) : string := slice0 10 (iso_date_part day).

(** The range of the [N] full days that end yesterday, today being the UTC
    day of [now]. *)
Definition last_days (now N : Z) : DateRange :=
  let today := now / msPerDay in
  {| since := date_text (today - 1 - (N - 1));
     until := date_text (today - 1) |}.

End Resolver.

(** ** Metric normaliser, redundant-signal filter and comparison arithmetic *)

Module Metrics.
Import JS.

(** One entry of [actions] or [action_values]. *)
Record Action : Type := {
  action_type : option string;
  value : option string;
}.

(** A raw insights row.  The Graph API sends every numeric field as a
    string; a field may be missing. *)
Record MetricRow : Type := {
  campaign_id : option string;
  campaign_name : option string;
  date_start : option string;
  r_spend : option string;
  r_impressions : option string;
  r_clicks : option string;
  r_reach : option string;
  r_ctr : option string;
  r_cpc : option string;
  r_cpm : option string;
  r_frequency : option string;
  r_unique_clicks : option string;
  actions : option (list Action);
  action_values : option (list Action);
  cost_per_action_type : option (list Action);
  conversions : option (list Action);
}.

(** A response of the insights edge: [{ data: [...] }], the array possibly
    missing. *)
Record Payload : Type := { data : option (list MetricRow) }.

Definition REDUNDANT_ACTION_PREFIXES : list string :=
  ["omni_"; "onsite_web_app_"; "onsite_web_"; "onsite_app_";
   "web_app_in_store_"; "offsite_conversion.fb_pixel_"].

Definition is_redundant (a : Action) : bool :=
  existsb (fun p => starts_with p (default "" (action_type a)))
          REDUNDANT_ACTION_PREFIXES.

Definition strip_list (l : option (list Action)) : option (list Action) :=
  List.filter (fun a => negb (is_redundant a)) <$> l.

Definition strip_row (r : MetricRow) : MetricRow :=
  {| campaign_id := campaign_id r;
     campaign_name := campaign_name r;
     date_start := date_start r;
     r_spend := r_spend r;
     r_impressions := r_impressions r;
     r_clicks := r_clicks r;
     r_reach := r_reach r;
     r_ctr := r_ctr r;
     r_cpc := r_cpc r;
     r_cpm := r_cpm r;
     r_frequency := r_frequency r;
     r_unique_clicks := r_unique_clicks r;
     actions := strip_list (actions r);
     action_values := strip_list (action_values r);
     cost_per_action_type := strip_list (cost_per_action_type r);
     conversions := strip_list (conversions r) |}.

Definition stripRedundantActions (p : Payload) : Payload :=
  {| data := List.map strip_row <$> data p |}.

Definition has_type (actionType : string) (a : Action) : bool :=
  match action_type a with
  | Some t => String.eqb t actionType
  | None => false
  end.

Definition getActionValue (acts : option (list Action)) (actionType : string)
  : number :=
  match acts with
  | None => zero
  | Some l =>
      match List.find (has_type actionType) l with
      | Some found => parseFloat (str_or_zero (value found))
      | None => zero
      end
  end.

Record DerivedMetrics : Type := {
  spend : number;
  impressions : number;
  clicks : number;
  reach : number;
  frequency : number;
  ctr : number;
  cpc : number;
  cpm : number;
  unique_clicks : number;
  purchases : number;
  revenue : number;
  roas : number;
  cpa : number;
  add_to_carts : number;
  cost_per_atc : number;
  initiate_checkouts : number;
  view_contents : number;
  leads : number;
}.

(** [Math.round(x * 100) / 100] *)
Definition round2 (x : number) : number :=
  div (Math_round (mul x (of_Z 100))) (of_Z 100).

Definition calcDerivedMetrics (row : MetricRow) : DerivedMetrics :=
  let spend := parseFloat (str_or_zero (r_spend row)) in
  let impressions := parseInt (str_or_zero (r_impressions row)) in
  let clicks := parseInt (str_or_zero (r_clicks row)) in
  let reach := parseInt (str_or_zero (r_reach row)) in
  let ctr := parseFloat (str_or_zero (r_ctr row)) in
  let cpc := parseFloat (str_or_zero (r_cpc row)) in
  let cpm := parseFloat (str_or_zero (r_cpm row)) in
  let frequency := parseFloat (str_or_zero (r_frequency row)) in
  let uniqueClicks := parseInt (str_or_zero (r_unique_clicks row)) in
  let purchases := getActionValue (actions row) "purchase" in
  let addToCarts := getActionValue (actions row) "add_to_cart" in
  let initiateCheckouts := getActionValue (actions row) "initiate_checkout" in
  let viewContents := getActionValue (actions row) "view_content" in
  let leads := getActionValue (actions row) "lead" in
  let revenue := getActionValue (action_values row) "purchase" in
  let roas := if gt spend zero then round2 (div revenue spend) else zero in
  let cpa := if gt purchases zero then round2 (div spend purchases) else zero in
  let costPerATC :=
    if gt addToCarts zero then round2 (div spend addToCarts) else zero in
  {| spend := round2 spend;
     impressions := impressions;
     clicks := clicks;
     reach := reach;
     frequency := round2 frequency;
     ctr := round2 ctr;
     cpc := round2 cpc;
     cpm := round2 cpm;
     unique_clicks := uniqueClicks;
     purchases := purchases;
     revenue := round2 revenue;
     roas := roas;
     cpa := cpa;
     add_to_carts := addToCarts;
     cost_per_atc := costPerATC;
     initiate_checkouts := initiateCheckouts;
     view_contents := viewContents;
     leads := leads |}.

(** The text a field is parsed from gives a finite number. *)
Definition float_ok (v : option string) : bool :=
  is_real_b (parseFloat (str_or_zero v)).

Definition int_ok (v : option string) : bool :=
  is_real_b (parseInt (str_or_zero v)).

Definition actions_ok (acts : option (list Action)) : bool :=
  forallb (fun a => float_ok (value a)) (default [] acts).

(** Every numeric text of the row parses: the nine scalar fields and the
    value of every action entry. *)
Definition row_parses (row : MetricRow) : bool :=
  float_ok (r_spend row) && int_ok (r_impressions row) &&
  int_ok (r_clicks row) && int_ok (r_reach row) && float_ok (r_ctr row) &&
  float_ok (r_cpc row) && float_ok (r_cpm row) && float_ok (r_frequency row) &&
  int_ok (r_unique_clicks row) && actions_ok (actions row) &&
  actions_ok (action_values row).

(** A magnitude whose hundredfold and thousandfold do not overflow. *)
Definition ROUND_LIMIT : Q := inject_Z (10 ^ 304).

Definition within_limit (a : number) : bool :=
  match a with
  | Fin q => Qle_bool (Qabs q) ROUND_LIMIT
  | _ => false
  end.

(** The quantities [Math.round(x * 100) / 100] is applied to: six parsed
    values and, where the guard lets the division happen, three
    quotients. *)
Definition rounded_quantities (row : MetricRow) : list number :=
  let spend := parseFloat (str_or_zero (r_spend row)) in
  let purchases := getActionValue (actions row) "purchase" in
  let addToCarts := getActionValue (actions row) "add_to_cart" in
  let revenue := getActionValue (action_values row) "purchase" in
  [spend; parseFloat (str_or_zero (r_frequency row));
   parseFloat (str_or_zero (r_ctr row)); parseFloat (str_or_zero (r_cpc row));
   parseFloat (str_or_zero (r_cpm row)); revenue;
   if gt spend zero then div revenue spend else zero;
   if gt purchases zero then div spend purchases else zero;
   if gt addToCarts zero then div spend addToCarts else zero].

(** Every quantity that is rounded is a double of magnitude at most
    [ROUND_LIMIT]. *)
Definition row_within (row : MetricRow) : bool :=
  forallb within_limit (rounded_quantities row).

(** What is parsed from the row, each value beside the output computed from
    it alone: the nine scalar fields, the five action counts and the
    revenue. *)
Definition parsed_fields (row : MetricRow) (m : DerivedMetrics)
  : list (number * number) :=
  [(parseFloat (str_or_zero (r_spend row)), spend m);
   (parseInt (str_or_zero (r_impressions row)), impressions m);
   (parseInt (str_or_zero (r_clicks row)), clicks m);
   (parseInt (str_or_zero (r_reach row)), reach m);
   (parseFloat (str_or_zero (r_ctr row)), ctr m);
   (parseFloat (str_or_zero (r_cpc row)), cpc m);
   (parseFloat (str_or_zero (r_cpm row)), cpm m);
   (parseFloat (str_or_zero (r_frequency row)), frequency m);
   (parseInt (str_or_zero (r_unique_clicks row)), unique_clicks m);
   (getActionValue (actions row) "purchase", purchases m);
   (getActionValue (actions row) "add_to_cart", add_to_carts m);
   (getActionValue (actions row) "initiate_checkout", initiate_checkouts m);
   (getActionValue (actions row) "view_content", view_contents m);
   (getActionValue (actions row) "lead", leads m);
   (getActionValue (action_values row) "purchase", revenue m)].

(** The scalar fields of a row, each beside the output computed from it. *)
Definition scalar_fields (row : MetricRow) (m : DerivedMetrics)
  : list (option string * number) :=
  [(r_spend row, spend m); (r_impressions row, impressions m);
   (r_clicks row, clicks m); (r_reach row, reach m); (r_ctr row, ctr m);
   (r_cpc row, cpc m); (r_cpm row, cpm m); (r_frequency row, frequency m);
   (r_unique_clicks row, unique_clicks m)].

(** The outputs read from [actions], each beside its action type. *)
Definition action_fields (m : DerivedMetrics) : list (string * number) :=
  [("purchase", purchases m); ("add_to_cart", add_to_carts m);
   ("initiate_checkout", initiate_checkouts m);
   ("view_content", view_contents m); ("lead", leads m)].

(** No entry of the list has the given action type. *)
Definition lacks (acts : option (list Action)) (actionType : string) : bool :=
  forallb (fun a => negb (has_type actionType a)) (default [] acts).

(** The numeric fields of a bundle, in the order the source lists them. *)
Definition numeric_fields (m : DerivedMetrics) : list number :=
  [spend m; impressions m; clicks m; reach m; frequency m; ctr m; cpc m;
   cpm m; unique_clicks m; purchases m; revenue m; roas m; cpa m;
   add_to_carts m; cost_per_atc m; initiate_checkouts m; view_contents m;
   leads m].

Record Change : Type := { delta : string; pct : string }.

Definition pctChange (current previous : number) : Change :=
  let d := sub current previous in
  let sign := if ge d zero then "+" else "" in
  let pct :=
    if nonzero previous
    then div (Math_round (mul (div d previous) (of_Z 1000))) (of_Z 10)
    else if gt current zero then of_Z 100 else of_Z 0 in
  {| delta := sign +:+ number_to_string (round2 d);
     pct := sign +:+ number_to_string pct +:+ "%" |}.

(** The comparison arithmetic as the specification words it, in exact
    arithmetic: [delta] is the difference rounded to two decimal places,
    [pct] is [delta / previous * 100] rounded to one decimal place, or 100
    or 0 when [previous] is 0, and both carry a [+] when the difference is
    not negative. *)
Definition round_dp (n : Z) (x : Q) : Q :=
  inject_Z (round_Q (x * inject_Z (10 ^ n))) / inject_Z (10 ^ n).

Definition signed (plus : bool) (x : Q) (unit : string) : string :=
  (if plus then "+" else "") +:+ number_to_string (to_double x) +:+ unit.

Definition comparison_spec (current previous : Q) : Change :=
  let plus := Qle_bool 0 (current - previous) in
  let delta := round_dp 2 (current - previous) in
  {| delta := signed plus delta "";
     pct := signed plus
              (if Qeq_bool previous 0
               then (if Qle_bool current 0 then 0 else inject_Z 100)
               else round_dp 1 (delta / previous * inject_Z 100)) "%" |}.

(** [y] is [x] rounded to [places] decimal places by [Math.round] in double
    arithmetic: the double nearest to [k / 10^places] for a whole number [k]
    that is within one half, and the rounding error [err] of the
    multiplication, of [x * 10^places]. *)
Definition rounded_to (places : Z) (x err : Q) (y : number) : Prop :=
  exists k : Z,
    y = to_double (inject_Z k / inject_Z (10 ^ places))
    /\ (Qabs (inject_Z k - x * inject_Z (10 ^ places)) <= (1 # 2) + err)%Q.

End Metrics.

(** ** Promises *)

Module Promise.
Import JS.

(** An element of the array [Promise.allSettled] resolves to. *)
Inductive settled (A : Type) : Type :=
| Fulfilled (value : A)
| Rejected (reason : exn).
Arguments Fulfilled {A} value.
Arguments Rejected {A} reason.

Definition settle {A : Type} (p : Exc A) : settled A :=
  match p with
  | Ret v => Fulfilled v
  | Throw e => Rejected e
  end.

(** [await Promise.allSettled(ps)]: never throws; slot [i] describes how
    the [i]-th promise settled. *)
Definition allSettled {A : Type} (ps : list (Exc A)) : Exc (list (settled A)) :=
  mret (settle <$> ps).

(** The same array built the way the combinator builds it: every promise
    writes its own slot when it settles, in whatever order that happens. *)
Definition fill_slots {A : Type} (ps : list (Exc A)) (completion : list nat)
  : list (option (settled A)) :=
  foldl (fun slots i =>
           match ps !! i with
           | Some p => <[i := Some (settle p)]> slots
           | None => slots
           end)
        (replicate (List.length ps) None) completion.

(** [reason instanceof Error ? reason.message : String(reason)] *)
Definition reason_message (e : exn) : string :=
  match e with
  | ApiError m _ => m
  | AbortError => "This operation was aborted"
  | RangeError m => m
  | OtherError m => m
  end.

End Promise.

(** ** Batch fan-out ([bulk_get_insights]) *)

Module Batch.
Import JS Metrics Promise.

(** One element of the [results] array of the tool's answer. *)
Inductive FetchOutcome : Type :=
| WithData (id : string) (data : Payload)
| WithError (id : string) (error : string).

Definition outcome_id (o : FetchOutcome) : string :=
  match o with
  | WithData id _ => id
  | WithError id _ => id
  end.

(** [filters.some(f => String(name || '').toLowerCase().includes(f))] *)
Definition name_matches (filters : list string) (name : option string) : bool :=
  existsb (fun f => includes f (toLowerCase (default "" name))) filters.

Section FanOut.
Variable compact : bool.
(** How the promise [graphGet(`/${id}/insights`, params)] settles. *)
Variable fetchOne : string -> Exc Payload.

Definition outcome_of (id : string) (r : settled Payload) : FetchOutcome :=
  match r with
  | Fulfilled v => WithData id (if compact then stripRedundantActions v else v)
  | Rejected reason => WithError id (reason_message reason)
  end.

(** The outcome recorded for one id. *)
Definition item (id : string) : FetchOutcome :=
  outcome_of id (settle (fetchOne id)).

(** [objectIds.map((id, i) => ...)] from index [i] on; reading a slot that
    does not exist would raise a [TypeError]. *)
Fixpoint outcomes (results : list (settled Payload)) (i : nat)
  (ids : list string) : Exc (list FetchOutcome) :=
  match ids with
  | [] => mret []
  | id :: ids' =>
      match results !! i with
      | Some r =>
          rest ← outcomes results (S i) ids';
          mret (outcome_of id r :: rest)
      | None => Throw (OtherError "Cannot read properties of undefined")
      end
  end.

Definition fetchAll (objectIds : list string) : Exc (list FetchOutcome) :=
  results ← allSettled (fetchOne <$> objectIds);
  outcomes results 0 objectIds.

(** The predicate of the post-filter: entries that failed or hold no row
    are kept. *)
Definition keep (filters : list string) (item : FetchOutcome) : bool :=
  match item with
  | WithError _ _ => true
  | WithData _ p =>
      match data p with
      | None | Some [] => true
      | Some rows =>
          existsb (fun row => name_matches filters (campaign_name row)) rows
      end
  end.

Definition nonempty {A : Type} (o : option (list A)) : bool :=
  match o with
  | Some (_ :: _) => true
  | _ => false
  end.

(** The handler once the ids are known: fan out, then post-filter by
    campaign name when the ids were given by the caller.  The answer is
    [{ results, total }]. *)
Definition bulk_get_insights (providedIds : option (list string))
  (autoIds : Exc (list string)) (campaign_name_contains : option (list string))
  : Exc (list FetchOutcome * nat) :=
  objectIds ← match providedIds with
              | Some ids => mret ids
              | None => autoIds
              end;
  output ← fetchAll objectIds;
  let output :=
    if nonempty campaign_name_contains && bool_decide (is_Some providedIds)
    then List.filter
           (keep (toLowerCase <$> default [] campaign_name_contains)) output
    else output in
  mret (output, List.length output).
End FanOut.

End Batch.

(** ** Report assembler ([generate_report]) *)

Module Report.
Import JS Resolver Metrics Promise.

Definition INSIGHT_FIELDS : string :=
  "campaign_name,campaign_id,adset_name,adset_id,ad_name,ad_id,impressions,clicks,spend,reach,ctr,cpc,cpm,actions,cost_per_action_type,conversions,cost_per_conversion,frequency,unique_clicks,action_values".

(** The parameters of one [graphGet] on the insights edge. *)
Record Request : Type := {
  path : string;
  fields : string;
  time_range : DateRange;
  level : string;
  limit : option string;
  time_increment : option string;
}.

(** The [vs_previous] member of a campaign entry: missing, [null], or the
    changes by metric name. *)
Inductive vs : Type :=
| NoKey
| Null
| Changes (changes : list (string * Change)).

Record Campaign : Type := {
  c_campaign_id : option string;
  c_campaign_name : option string;
  c_metrics : DerivedMetrics;
  vs_previous : vs;
}.

Record Period : Type := {
  range : string;
  summary : DerivedMetrics;
}.

Record PeriodComparison : Type := {
  this_period : Period;
  previous_period : Period;
  changes : list (string * Change);
}.

(** The report, without its fixed [_commentary_guidance] text. *)
Record report : Type := {
  period : string;
  generated_at : string;
  account_summary : option DerivedMetrics;
  daily_breakdown : list (option string * DerivedMetrics);
  period_comparison : option PeriodComparison;
  by_campaign : list Campaign;
}.

(** The validated arguments of the tool. *)
Record Args : Type := {
  arg_time_range : option TimeRange;
  arg_compare_previous : option bool;
  arg_campaign_name_contains : option (list string);
}.

(** The same request with the comparison switched off. *)
Definition without_comparison (args : Args) : Args :=
  {| arg_time_range := arg_time_range args;
     arg_compare_previous := Some false;
     arg_campaign_name_contains := arg_campaign_name_contains args |}.

(** [m[name]] for a metric bundle; a name that is no member reads as
    [undefined], which [||] treats like [NaN]. *)
Definition metric (name : string) (m : DerivedMetrics) : number :=
  if String.eqb name "spend" then spend m
  else if String.eqb name "impressions" then impressions m
  else if String.eqb name "clicks" then clicks m
  else if String.eqb name "reach" then reach m
  else if String.eqb name "frequency" then frequency m
  else if String.eqb name "ctr" then ctr m
  else if String.eqb name "cpc" then cpc m
  else if String.eqb name "cpm" then cpm m
  else if String.eqb name "unique_clicks" then unique_clicks m
  else if String.eqb name "purchases" then purchases m
  else if String.eqb name "revenue" then revenue m
  else if String.eqb name "roas" then roas m
  else if String.eqb name "cpa" then cpa m
  else if String.eqb name "add_to_carts" then add_to_carts m
  else if String.eqb name "cost_per_atc" then cost_per_atc m
  else if String.eqb name "initiate_checkouts" then initiate_checkouts m
  else if String.eqb name "view_contents" then view_contents m
  else if String.eqb name "leads" then leads m
  else NaN.

Definition comparisonMetrics : list string :=
  ["spend"; "roas"; "cpa"; "impressions"; "clicks"; "purchases"; "revenue";
   "ctr"; "cpm"; "reach"; "frequency"; "add_to_carts"; "initiate_checkouts";
   "view_contents"].

Definition campaignMetrics : list string :=
  ["spend"; "roas"; "cpa"; "purchases"; "revenue"; "ctr"; "impressions"].

(** [changes[m] = pctChange(cur[m] || 0, prev[m] || 0)] for each name. *)
Definition changes_of (names : list string) (cur prev : DerivedMetrics)
  : list (string * Change) :=
  (fun m => (m, pctChange (or_else (metric m cur) zero)
                          (or_else (metric m prev) zero))) <$> names.

Definition range_text (r : DateRange) : string :=
  since r +:+ " → " +:+ until r.

(** The comparator of the sort is positive: [a] goes after [b]. *)
Definition sorts_after (a b : Campaign) : bool :=
  gt (sub (spend (c_metrics b)) (spend (c_metrics a))) zero.

Fixpoint insert_by_spend (c : Campaign) (l : list Campaign) : list Campaign :=
  match l with
  | [] => [c]
  | c' :: l' =>
      if sorts_after c c' then c' :: insert_by_spend c l' else c :: l
  end.

(** [campaigns.sort((a, b) => b.spend - a.spend)]: a stable sort. *)
Definition sort_by_spend (l : list Campaign) : list Campaign :=
  foldr insert_by_spend [] l.

(** [String(v)] for a member that is a string or missing. *)
Definition String_of (v : option string) : string := default "undefined" v.

Section Handler.
Variable zone : Zone.
(** The clock when the range is resolved and when the report is stamped. *)
Variable now now_report : Z.
(** How [getAccountId()] and each [graphGet] settle. *)
Variable getAccountId : Exc string.
Variable graphGet : Request -> Exc Payload.

Definition insights (accountId : string) (r : DateRange) (lvl : string)
  (lim incr : option string) : Exc Payload :=
  graphGet {| path := "/" +:+ accountId +:+ "/insights";
              fields := INSIGHT_FIELDS;
              time_range := r;
              level := lvl;
              limit := lim;
              time_increment := incr |}.

(** The rows a settled fetch contributes: those of its [data] array, none
    when the array is missing or the fetch was rejected. *)
Definition rows_of (r : settled Payload) : list MetricRow :=
  match r with
  | Fulfilled v => default [] (data v)
  | Rejected _ => []
  end.

(** [extract(results[i])] *)
Definition extract (results : list (settled Payload)) (i : nat)
  : Exc (list MetricRow) :=
  match results !! i with
  | Some r => mret (rows_of r)
  | None => Throw (OtherError "Cannot read properties of undefined")
  end.

Definition campaign_of (r : MetricRow) : Campaign :=
  {| c_campaign_id := campaign_id r;
     c_campaign_name := campaign_name r;
     c_metrics := calcDerivedMetrics r;
     vs_previous := NoKey |}.

Definition with_comparison (prevMap : gmap string DerivedMetrics)
  (c : Campaign) : Campaign :=
  {| c_campaign_id := c_campaign_id c;
     c_campaign_name := c_campaign_name c;
     c_metrics := c_metrics c;
     vs_previous :=
       match prevMap !! String_of (c_campaign_id c) with
       | None => Null
       | Some prev => Changes (changes_of campaignMetrics (c_metrics c) prev)
       end |}.

Definition generate_report (args : Args) : Exc report :=
  let time_range := default (Preset "last_7d") (arg_time_range args) in
  let compare_previous := default true (arg_compare_previous args) in
  let campaign_name_contains := arg_campaign_name_contains args in
  accountId ← getAccountId;
  currentRange ← resolveDateRange zone now time_range;
  let calls :=
    [insights accountId currentRange "account" None None;
     insights accountId currentRange "campaign" (Some "50") None;
     insights accountId currentRange "account" None (Some "1")] in
  calls ← (if compare_previous then
             prevRange ← getPreviousPeriod zone (since currentRange)
                                           (until currentRange);
             mret (calls ++
                   [insights accountId prevRange "account" None None;
                    insights accountId prevRange "campaign" (Some "50") None])
           else mret calls);
  results ← allSettled calls;
  accountData ← extract results 0;
  campaignData ← extract results 1;
  dailyData ← extract results 2;
  prevAccountData ← (if compare_previous then extract results 3 else mret []);
  prevCampaignData ← (if compare_previous then extract results 4 else mret []);
  let accountSummary := calcDerivedMetrics <$> head accountData in
  let daily := (fun row => (date_start row, calcDerivedMetrics row)) <$> dailyData in
  let campaigns := campaign_of <$> campaignData in
  let campaigns :=
    match campaign_name_contains with
    | Some (f :: fs) =>
        List.filter
          (fun c => Batch.name_matches (toLowerCase <$> (f :: fs))
                                       (c_campaign_name c))
          campaigns
    | _ => campaigns
    end in
  let campaigns :=
    List.filter (fun c => gt (spend (c_metrics c)) zero) campaigns in
  let campaigns := sort_by_spend campaigns in
  periodComparison ←
    match compare_previous, head prevAccountData, accountSummary with
    | true, Some prevRow, Some summary =>
        let prevSummary := calcDerivedMetrics prevRow in
        let changes := changes_of comparisonMetrics summary prevSummary in
        prevRange ← getPreviousPeriod zone (since currentRange)
                                      (until currentRange);
        mret (Some {| this_period :=
                        {| range := range_text currentRange;
                           summary := summary |};
                      previous_period :=
                        {| range := range_text prevRange;
                           summary := prevSummary |};
                      changes := changes |})
    | _, _, _ => mret None
    end;
  let campaignWithComparison :=
    match compare_previous, prevCampaignData with
    | true, _ :: _ =>
        let prevMap : gmap string DerivedMetrics :=
          foldl (fun acc r =>
                   <[String_of (campaign_id r) := calcDerivedMetrics r]> acc)
                ∅ prevCampaignData in
        with_comparison prevMap <$> campaigns
    | _, _ => campaigns
    end in
  mret {| period := range_text currentRange;
          generated_at := iso_string now_report;
          account_summary := accountSummary;
          daily_breakdown := daily;
          period_comparison := periodComparison;
          by_campaign := campaignWithComparison |}.
End Handler.

(** The name filter of the handler as a predicate on a campaign entry:
    without filter strings every entry passes. *)
Definition passes_name (names : option (list string)) (c : Campaign) : bool :=
  match names with
  | Some (f :: fs) =>
      Batch.name_matches (toLowerCase <$> (f :: fs)) (c_campaign_name c)
  | _ => true
  end.

(** The map [prevMap] the handler fills from the campaign rows of the
    previous period. *)
Definition prevMap_of (rows : list MetricRow) : gmap string DerivedMetrics :=
  foldl (fun acc r =>
           <[String_of (campaign_id r) := calcDerivedMetrics r]> acc)
        ∅ rows.

(** Id, name and metrics of a campaign entry. *)
Definition core (c : Campaign) : option string * option string * DerivedMetrics :=
  (c_campaign_id c, c_campaign_name c, c_metrics c).

End Report.

(** ** Request building ([graphRequest], [graphGet], [graphPost]) *)

Module Query.
Import JS.

(** The name-value pairs of a [URLSearchParams], in order. *)
Definition SearchParams : Type := list (string * string).

(** [searchParams.set(name, value)]: the first pair of that name takes the
    value and every other pair of the name is removed; without such a pair
    the new one is appended. *)
Fixpoint set (name value : string) (q : SearchParams) : SearchParams :=
  match q with
  | [] => [(name, value)]
  | (n, v) :: q' =>
      if String.eqb n name
      then (n, value) :: List.filter (fun p => negb (String.eqb p.1 name)) q'
      else (n, v) :: set name value q'
  end.

(** [searchParams.get(name)] *)
Definition get (name : string) (q : SearchParams) : option string :=
  snd <$> List.find (fun p => String.eqb p.1 name) q.

(** A member of a request body.  An object or an array is given by the
    text [JSON.stringify] yields for it. *)
Inductive BodyValue : Type :=
| Undefined
| Null
| Text (s : string)
| Num (n : number)
| Bool (b : bool)
| Structured (json : string).

(** [typeof v === 'object' ? JSON.stringify(v) : String(v)], for a value
    that is neither [undefined] nor [null]. *)
Definition form_text (v : BodyValue) : string :=
  match v with
  | Undefined => "undefined"
  | Null => "null"
  | Text s => s
  | Num n => number_to_string n
  | Bool b => if b then "true" else "false"
  | Structured json => json
  end.

(** The query of the request URL: the pairs [initial] the path itself
    carries after a [?] (none for a plain path), the access token, then
    every member of [params] that is neither [undefined] nor empty.
    Percent-encoding is left to [toString]. *)
Definition query (token : string) (initial : SearchParams)
  (params : option (list (string * option string))) : SearchParams :=
  foldl (fun q p =>
           match p.2 with
           | Some v => if String.eqb v "" then q else set p.1 v q
           | None => q
           end)
        (set "access_token" token initial) (default [] params).

(** The form-encoded body of a POST: every member that is neither
    [undefined] nor [null]. *)
Definition form (body : list (string * BodyValue)) : SearchParams :=
  foldl (fun q p =>
           match p.2 with
           | Undefined | Null => q
           | v => set p.1 (form_text v) q
           end)
        [] body.

(** The members a query or a form body sends, when no name repeats. *)
Definition sent_params (params : list (string * option string)) : SearchParams :=
  omap (fun p => match p.2 with
                 | Some v => if String.eqb v "" then None else Some (p.1, v)
                 | None => None
                 end) params.

Definition sent_members (body : list (string * BodyValue)) : SearchParams :=
  omap (fun p => match p.2 with
                 | Undefined | Null => None
                 | v => Some (p.1, form_text v)
                 end) body.

End Query.

(** ** Account discovery ([getAccountId]) *)

Module Account.
Import JS.

(** The answer of [/me/adaccounts]: [{ data: [{ id }, ..] }].  The array
    may be missing; each listed account carries its id. *)
Record Accounts : Type := { data : option (list string) }.

(** The state of the module: the cached id, and how many lookups were
    sent so far. *)
Record State : Type := {
  cachedAccountId : option string;
  lookups : nat;
}.

Definition initial : State := {| cachedAccountId := None; lookups := 0 |}.

Definition NO_ACCOUNTS : exn :=
  ApiError "No ad accounts found for this access token" 403.

Section Lookup.
(** How the [n]-th [graphGet('/me/adaccounts', ..)] settles. *)
Variable remote : nat -> Exc Accounts.

(** One call of [getAccountId()]: its settlement and the state it leaves. *)
Definition getAccountId (st : State) : Exc string * State :=
  match cachedAccountId st with
  | Some (String c id) => (Ret (String c id), st)
  | _ =>
      let sent := {| cachedAccountId := cachedAccountId st;
                     lookups := S (lookups st) |} in
      match remote (lookups st) with
      | Throw e => (Throw e, sent)
      | Ret result =>
          match data result with
          | Some (id :: _) =>
              (Ret id, {| cachedAccountId := Some id;
                          lookups := S (lookups st) |})
          | _ => (Throw NO_ACCOUNTS, sent)
          end
      end
  end.

(** [n] calls, one after the other. *)
Fixpoint calls (n : nat) (st : State) : list (Exc string) * State :=
  match n with
  | O => ([], st)
  | S n' =>
      let r := getAccountId st in
      let rest := calls n' r.2 in
      (r.1 :: rest.1, rest.2)
  end.
End Lookup.

End Account.

(** ** JSON text *)

Module Json.
Import JS.

Definition quote : string := String "034"%char "".

Definition hex_digit (n : nat) : ascii :=
  if (n <? 10)%nat then ascii_of_nat (48 + n) else ascii_of_nat (87 + n).

(** The characters [JSON.stringify] writes for one character of a string:
    the short escapes, [\u00XX] for the other control characters, the
    character itself otherwise. *)
Definition escape_char (c : ascii) : string :=
  let n := nat_of_ascii c in
  if (n =? 8)%nat then "\b"
  else if (n =? 9)%nat then "\t"
  else if (n =? 10)%nat then "\n"
  else if (n =? 12)%nat then "\f"
  else if (n =? 13)%nat then "\r"
  else if (n =? 34)%nat then "\" +:+ quote
  else if (n =? 92)%nat then "\\"
  else if (n <? 32)%nat then
    "\u00" +:+ String (hex_digit (n / 16)) (String (hex_digit (n mod 16)) "")
  else String c "".

Fixpoint escape (s : string) : string :=
  match s with
  | EmptyString => ""
  | String c s' => escape_char c +:+ escape s'
  end.

(** [JSON.stringify(s)] for a string. *)
Definition of_string (s : string) : string := quote +:+ escape s +:+ quote.

(** [JSON.stringify({ since, until })] *)
Definition of_range (r : Resolver.DateRange) : string :=
  "{" +:+ of_string "since" +:+ ":" +:+ of_string (Resolver.since r) +:+ "," +:+
  of_string "until" +:+ ":" +:+ of_string (Resolver.until r) +:+ "}".

End Json.

(** ** Insights tools ([get_insights], [bulk_get_insights]) *)

Module Insights.
Import JS Resolver Metrics.

Definition datePresetEnum : list string :=
  ["today"; "yesterday"; "last_3d"; "last_7d"; "last_14d"; "last_28d";
   "last_30d"; "last_90d"; "this_month"; "last_month"].

(** A [Record<string, string>] as [Object.entries] lists it: the members in
    the order of their first assignment. *)
Definition Params : Type := list (string * string).

(** [params[k] = v] *)
Fixpoint assign (k v : string) (params : Params) : Params :=
  match params with
  | [] => [(k, v)]
  | (k', v') :: rest =>
      if String.eqb k' k then (k', v) :: rest else (k', v') :: assign k v rest
  end.

(** [params[k]] *)
Definition member (k : string) (params : Params) : option string :=
  snd <$> List.find (fun p => String.eqb p.1 k) params.

(** [if (v) params[k] = v] for an optional string. *)
Definition assign_if (k : string) (v : option string) (params : Params) : Params :=
  match v with
  | Some (String c s) => assign k (String c s) params
  | _ => params
  end.

Inductive Breakdown : Type := day | week | month.

(** How [this.zodSchema.parse(args)] ends: it throws a [ZodError], before
    the handler has done anything else, or it gives the arguments. *)
Inductive Parsed (A : Type) : Type :=
| Refused
| Accepted (a : A).
Arguments Refused {A}.
Arguments Accepted {A} a.

(** [z.number().int().min(1).max(90).optional()] *)
Definition increment_ok (n : option Z) : bool :=
  match n with
  | Some n => (1 <=? n) && (n <=? 90)
  | None => true
  end.

(** [z.enum(values).optional()] *)
Definition enum_ok (values : list string) (v : option string) : bool :=
  match v with
  | Some v => existsb (String.eqb v) values
  | None => true
  end.

Section Handlers.
Variable zone : Zone.
Variable now : Z.

(** The time window of a request: [time_range] wins over [date_preset]; a
    range object is passed on as JSON, a name the Graph API knows is passed
    on as [date_preset], any other name is resolved here. *)
Definition set_time (time_range : option TimeRange)
  (date_preset : option string) (params : Params) : Exc Params :=
  match time_range with
  | Some (Explicit r) => mret (assign "time_range" (Json.of_range r) params)
  | Some (Preset (String c s)) =>
      let name := String c s in
      if existsb (String.eqb name) datePresetEnum
      then mret (assign "date_preset" name params)
      else
        r ← resolveDateRange zone now (Preset name);
        mret (assign "time_range" (Json.of_range r) params)
  | _ =>
      match date_preset with
      | Some (String c s) => mret (assign "date_preset" (String c s) params)
      | _ => mret (assign "date_preset" "last_7d" params)
      end
  end.

(** [time_breakdown] wins over the legacy [time_increment]. *)
Definition set_increment (time_breakdown : option Breakdown)
  (time_increment : option Z) (params : Params) : Params :=
  match time_breakdown with
  | Some day => assign "time_increment" "1" params
  | Some week => assign "time_increment" "7" params
  | Some month => assign "time_increment" "monthly" params
  | None =>
      match time_increment with
      | Some n =>
          if n =? 0 then params
          else assign "time_increment" (Z_to_string n) params
      | None => params
      end
  end.

(** The arguments of [get_insights], each absent or of the type its schema
    names; [time_breakdown] is one of its three values and [time_increment]
    an integer.  Arguments of another type are refused by the schema and
    are not modelled. *)
Record Args : Type := {
  object_id : option string;
  time_range : option TimeRange;
  date_preset : option string;
  time_breakdown : option Breakdown;
  time_increment : option Z;
  breakdowns : option string;
  level : option string;
  limit : option number;
  after : option string;
  action_attribution_windows : option string;
  compact : option bool;
}.

(** The parameters of the request [get_insights] sends. *)
Definition insight_params (args : Args) : Exc Params :=
  let params := [("fields", Report.INSIGHT_FIELDS)] in
  params ← set_time (time_range args) (date_preset args) params;
  let params :=
    set_increment (time_breakdown args) (time_increment args) params in
  let params := assign_if "breakdowns" (breakdowns args) params in
  let params := assign_if "level" (level args) params in
  let params :=
    match limit args with
    | Some n =>
        if truthy n then assign "limit" (number_to_string n) params
        else params
    | None => params
    end in
  let params := assign_if "after" (after args) params in
  let params :=
    assign_if "action_attribution_windows" (action_attribution_windows args)
      params in
  mret params.

(** How [getAccountId()] and [graphGet(path, params)] settle. *)
Variable getAccountId : Exc string.
Variable graphGet : string -> Params -> Exc Payload.

(** The numbers [z.number()] accepts: every finite number and never [NaN];
    whether an infinity passes depends on the version of the library, which
    the repository does not fix. *)
Variable z_number : number -> bool.

(** What the schema of [get_insights] asks of such arguments. *)
Definition schema_ok (args : Args) : bool :=
  increment_ok (time_increment args)
  && enum_ok ["account"; "campaign"; "adset"; "ad"] (level args)
  && match limit args with
     | Some n => z_number n
     | None => true
     end.

(** The handler from its second statement on, for the parsed arguments. *)
Definition get_insights_parsed (args : Args) : Exc Payload :=
  target ← match object_id args with
           | Some (String c s) => mret (String c s)
           | _ => getAccountId
           end;
  params ← insight_params args;
  result ← graphGet ("/" +:+ target +:+ "/insights") params;
  mret (if default false (compact args) then stripRedundantActions result
        else result).

Definition get_insights (args : Args) : Parsed (Exc Payload) :=
  if schema_ok args then Accepted (get_insights_parsed args) else Refused.
End Handlers.

(** An optional string that is empty counts as absent. *)
Definition nonblank (v : option string) : option string :=
  match v with
  | Some (String c s) => Some (String c s)
  | _ => None
  end.

(** The arguments of [bulk_get_insights], each absent or of the type its
    schema names. *)
Record BulkArgs : Type := {
  object_ids : option (list string);
  b_time_range : option TimeRange;
  b_date_preset : option string;
  b_level : option string;
  b_time_breakdown : option Breakdown;
  b_time_increment : option Z;
  campaign_name_contains : option (list string);
  b_compact : option bool;
  b_action_attribution_windows : option string;
}.

(** An entry of the campaign listing, and the listing [{ data: [...] }]. *)
Record CampaignRef : Type := { id : string; name : string }.
Record CampaignList : Type := { campaigns : option (list CampaignRef) }.

(** [JSON.stringify([{ field: 'effective_status', operator: 'IN',
    value: ['ACTIVE', 'PAUSED'] }])] *)
Definition ACTIVE_OR_PAUSED : string :=
  "[{" +:+ Json.of_string "field" +:+ ":" +:+ Json.of_string "effective_status"
  +:+ "," +:+ Json.of_string "operator" +:+ ":" +:+ Json.of_string "IN"
  +:+ "," +:+ Json.of_string "value" +:+ ":[" +:+ Json.of_string "ACTIVE"
  +:+ "," +:+ Json.of_string "PAUSED" +:+ "]}]".

Section Bulk.
Variable zone : Zone.
Variable now : Z.
Variable getAccountId : Exc string.
Variable listCampaigns : string -> Params -> Exc CampaignList.
Variable graphGet : string -> Params -> Exc Payload.

(** The parameters every fetch of the batch shares. *)
Definition bulk_params (args : BulkArgs) : Exc Params :=
  let params := [("fields", Report.INSIGHT_FIELDS)] in
  params ← set_time zone now (b_time_range args) (b_date_preset args) params;
  let params :=
    set_increment (b_time_breakdown args) (b_time_increment args) params in
  let params := assign_if "level" (b_level args) params in
  let params :=
    assign_if "action_attribution_windows" (b_action_attribution_windows args)
      params in
  mret params.

(** The ids the tool fetches when the caller gives none: the campaigns of
    the account that are active or paused, filtered by name. *)
Definition auto_ids (names : option (list string)) : Exc (list string) :=
  accountId ← getAccountId;
  listing ← listCampaigns ("/" +:+ accountId +:+ "/campaigns")
              [("fields", "id,name"); ("limit", "50");
               ("filtering", ACTIVE_OR_PAUSED)];
  let filtered := default [] (campaigns listing) in
  let filtered :=
    match names with
    | Some (f :: fs) =>
        List.filter
          (fun c => existsb (fun f => includes f (toLowerCase (name c)))
                            (toLowerCase <$> (f :: fs)))
          filtered
    | _ => filtered
    end in
  mret (id <$> filtered).

(** What the schema of [bulk_get_insights] asks of such arguments:
    [object_ids] is [z.array(z.string().min(1)).min(1).max(50)]. *)
Definition bulk_schema_ok (args : BulkArgs) : bool :=
  match object_ids args with
  | Some ids =>
      (1 <=? List.length ids)%nat && (List.length ids <=? 50)%nat
      && forallb (fun id => negb (String.eqb id "")) ids
  | None => true
  end
  && increment_ok (b_time_increment args)
  && enum_ok ["campaign"; "adset"; "ad"] (b_level args).

(** The handler from its second statement on, for the parsed arguments. *)
Definition bulk_get_insights_parsed (args : BulkArgs)
  : Exc (list Batch.FetchOutcome * nat) :=
  objectIds ← match object_ids args with
              | Some ids => mret ids
              | None => auto_ids (campaign_name_contains args)
              end;
  params ← bulk_params args;
  Batch.bulk_get_insights (default false (b_compact args))
    (fun id => graphGet ("/" +:+ id +:+ "/insights") params)
    (object_ids args) (mret objectIds) (campaign_name_contains args).

Definition bulk_get_insights (args : BulkArgs)
  : Parsed (Exc (list Batch.FetchOutcome * nat)) :=
  if bulk_schema_ok args then Accepted (bulk_get_insights_parsed args)
  else Refused.
End Bulk.

Definition nonblank_range (t : option TimeRange) : option TimeRange :=
  match t with
  | Some (Preset EmptyString) => None
  | _ => t
  end.

Definition truthy_number (n : option number) : option number :=
  match n with
  | Some n => if truthy n then Some n else None
  | None => None
  end.

(** The arguments with every empty string, a [limit] of zero and a
    [compact] of [false] taken as absent. *)
Definition blank_as_absent (args : Args) : Args :=
  {| object_id := nonblank (object_id args);
     time_range := nonblank_range (time_range args);
     date_preset := nonblank (date_preset args);
     time_breakdown := time_breakdown args;
     time_increment := time_increment args;
     breakdowns := nonblank (breakdowns args);
     level := level args;
     limit := truthy_number (limit args);
     after := nonblank (after args);
     action_attribution_windows := nonblank (action_attribution_windows args);
     compact := match compact args with
                | Some true => Some true
                | _ => None
                end |}.

End Insights.

(** ** Campaign creation ([create_campaign]) *)

Module Campaigns.
Import JS Query.

(** The validated arguments of [create_campaign]. *)
Record CreateArgs : Type := {
  name : string;
  objective : string;
  status : option string;
  daily_budget : option string;
  lifetime_budget : option string;
  bid_strategy : option string;
  special_ad_categories : option (list string);
  use_adset_level_budgets : option bool;
  spend_cap : option string;
}.

Definition Body : Type := list (string * BodyValue).

(** [body[k] = v] *)
Fixpoint put (k : string) (v : BodyValue) (body : Body) : Body :=
  match body with
  | [] => [(k, v)]
  | (k', v') :: rest =>
      if String.eqb k' k then (k', v) :: rest else (k', v') :: put k v rest
  end.

(** [body[k]], [undefined] for a missing member. *)
Definition read (k : string) (body : Body) : BodyValue :=
  default Undefined (snd <$> List.find (fun p => String.eqb p.1 k) body).

(** [!v] *)
Definition falsy (v : BodyValue) : bool :=
  match v with
  | Undefined | Null => true
  | Text s => String.eqb s ""
  | Num n => negb (truthy n)
  | Bool b => negb b
  | Structured _ => false
  end.

(** A member that is present when the argument is. *)
Definition opt (k : string) (v : option string) : Body :=
  match v with
  | Some s => [(k, Text s)]
  | None => []
  end.

(** [JSON.stringify] of an array of strings. *)
Definition json_strings (l : list string) : string :=
  "[" +:+ String.concat "," (Json.of_string <$> l) +:+ "]".

(** [{ ...rest }]: the arguments without [use_adset_level_budgets]. *)
Definition rest_of (args : CreateArgs) : Body :=
  [("name", Text (name args)); ("objective", Text (objective args))]
  ++ opt "status" (status args)
  ++ opt "daily_budget" (daily_budget args)
  ++ opt "lifetime_budget" (lifetime_budget args)
  ++ opt "bid_strategy" (bid_strategy args)
  ++ match special_ad_categories args with
     | Some l => [("special_ad_categories", Structured (json_strings l))]
     | None => []
     end
  ++ opt "spend_cap" (spend_cap args).

(** The body [create_campaign] posts. *)
Definition create_body (args : CreateArgs) : Body :=
  let body := rest_of args in
  let body :=
    if falsy (read "status" body) then put "status" (Text "PAUSED") body
    else body in
  let body :=
    if falsy (read "special_ad_categories" body)
    then put "special_ad_categories" (Structured "[]") body
    else body in
  if falsy (read "daily_budget" body) && falsy (read "lifetime_budget" body)
  then
    let body :=
      put "is_adset_budget_sharing_enabled"
        (Bool (negb (bool_decide (use_adset_level_budgets args = Some false))))
        body in
    if falsy (read "bid_strategy" body)
    then put "bid_strategy" (Text "LOWEST_COST_WITHOUT_CAP") body
    else body
  else body.

(** A budget argument that is given and not empty. *)
Definition given (v : option string) : bool :=
  match v with
  | Some (String _ _) => true
  | _ => false
  end.

End Campaigns.

(** ** Catalog discovery ([get_product_catalogs]) *)

Module Catalogs.
Import JS Promise.

(** A listing [{ data: [...] }], the array possibly missing. *)
Record Listing (A : Type) : Type := { data : option (list A) }.
Arguments data {A} _.

(** What the tool answers: the result of one request as it came, the
    catalogs collected from the businesses, or an empty list with a note
    that names the endpoints tried. *)
Inductive Answer (catalog : Type) : Type :=
| Passed (result : Listing catalog)
| Collected (catalogs : list catalog)
| Note (attempted : string).
Arguments Passed {catalog} result.
Arguments Collected {catalog} catalogs.
Arguments Note {catalog} attempted.

Section Tool.
Variable catalog : Type.
(** How the requests settle: the catalogs of the account at a path, the
    businesses of the user (their ids), the catalogs the [i]-th business
    owns, and the catalogs of the user. *)
Variable account_catalogs : string -> Exc (Listing catalog).
Variable businesses : Exc (Listing string).
Variable owned_catalogs : nat -> string -> Exc (Listing catalog).
Variable me_catalogs : Exc (Listing catalog).

(** The inner loop of the second approach from the [i]-th business on:
    the paths requested and the catalogs gathered; a business whose
    request fails contributes nothing. *)
Fixpoint gather (i : nat) (ids : list string) : list string * list catalog :=
  match ids with
  | [] => ([], [])
  | id :: ids' =>
      let found :=
        match owned_catalogs i id with
        | Ret cats => default [] (data cats)
        | Throw _ => []
        end in
      let rest := gather (S i) ids' in
      (("/" +:+ id +:+ "/owned_product_catalogs") :: rest.1, found ++ rest.2)
  end.

(** The handler once the account id is known: the paths requested, in
    order, and the answer. *)
Definition get_product_catalogs (id : string) : list string * Answer catalog :=
  let p1 := "/" +:+ id +:+ "/product_catalogs" in
  match account_catalogs p1 with
  | Ret result => ([p1], Passed result)
  | Throw e1 =>
      let errors := ["account endpoint: " +:+ reason_message e1] in
      let second : list string * list catalog * list string :=
        match businesses with
        | Ret bs =>
            let g := gather 0 (default [] (data bs)) in
            ("/me/businesses" :: g.1, g.2, errors)
        | Throw e2 =>
            (["/me/businesses"], [],
             errors ++ ["businesses endpoint: " +:+ reason_message e2])
        end in
      let '(paths, found, errors) := second in
      match found with
      | _ :: _ => (p1 :: paths, Collected found)
      | [] =>
          let paths := p1 :: paths ++ ["/me/product_catalogs"] in
          match me_catalogs with
          | Ret result => (paths, Passed result)
          | Throw e3 =>
              (paths,
               Note (String.concat " | "
                       (errors ++ ["/me endpoint: " +:+ reason_message e3])))
          end
      end
  end.
End Tool.

End Catalogs.

(** ** Creative duplication ([duplicate_creative]) *)

Module Creative.
Import JS.

(** A JSON value, as [JSON.parse] builds it. *)
#[warnings="-register-all"] Inductive value : Type :=
| Null
| Bool (b : bool)
| Number (n : number)
| Str (s : string)
| Arr (items : list value)
| Obj (members : list (string * value)).

(** The members of an object, in the order of its keys. *)
Definition Members : Type := list (string * value).

(** [o[k]], [None] standing for [undefined]. *)
Definition member (k : string) (o : Members) : option value :=
  snd <$> List.find (fun p => String.eqb p.1 k) o.

(** [o[k] = v] *)
Fixpoint assign (k : string) (v : value) (o : Members) : Members :=
  match o with
  | [] => [(k, v)]
  | (k', v') :: rest =>
      if String.eqb k' k then (k', v) :: rest else (k', v') :: assign k v rest
  end.

(** [delete o[k]] *)
Definition remove (k : string) (o : Members) : Members :=
  List.filter (fun p => negb (String.eqb p.1 k)) o.

(** The elements of an array under their indices, from index [i] on. *)
Fixpoint indexed (i : Z) (l : list value) : Members :=
  match l with
  | [] => []
  | x :: l' => (Z_to_string i, x) :: indexed (i + 1) l'
  end.

(** The characters of a string (ASCII text), each a string. *)
Definition chars (s : string) : list value :=
  (fun c => Str (String c "")) <$> list_ascii_of_string s.

(** The own members a spread [{ ...v }] copies: those of an object, the
    elements of an array and the characters of a string under their
    indices, none for any other value. *)
Definition spread (v : value) : Members :=
  match v with
  | Obj m => m
  | Arr l => indexed 0 l
  | Str s => indexed 0 (chars s)
  | _ => []
  end.

(** Truthiness of a value that may be [undefined]. *)
Definition truthy_value (v : option value) : bool :=
  match v with
  | None | Some Null => false
  | Some (Bool b) => b
  | Some (Number n) => truthy n
  | Some (Str s) => negb (String.eqb s "")
  | Some (Arr _) | Some (Obj _) => true
  end.

(** One step of [stripLabels]: an item that is an object or an array
    becomes [{ ...rest }], its members without [adlabels]. *)
Definition strip_item (item : value) : value :=
  match item with
  | Obj _ | Arr _ => Obj (remove "adlabels" (spread item))
  | _ => item
  end.

Definition stripLabels (items : list value) : list value := strip_item <$> items.

Definition number_eqb (x y : number) : bool :=
  match x, y with
  | NaN, NaN | PosInf, PosInf | NegInf, NegInf => true
  | Fin a, Fin b => Qeq_bool a b
  | _, _ => false
  end.

(** Equality as [Set.prototype.has] sees it: primitive values are compared
    by value; an object or an array is equal only to itself, and every
    object read from the parsed tree is a different one. *)
Definition same_value_zero (a b : option value) : bool :=
  match a, b with
  | None, None => true
  | Some Null, Some Null => true
  | Some (Bool x), Some (Bool y) => Bool.eqb x y
  | Some (Number x), Some (Number y) => number_eqb x y
  | Some (Str x), Some (Str y) => String.eqb x y
  | _, _ => false
  end.

(** [item[key]] for a key that names no built-in property, such as
    [hash]: reading from [null] throws, and only an object has the
    member. *)
Definition read (key : string) (item : value) : Exc (option value) :=
  match item with
  | Null => Throw (OtherError "Cannot read properties of null")
  | Obj m => mret (member key m)
  | _ => mret None
  end.

(** The [filter] of [deduplicateByKey], with the values [seen] so far. *)
Fixpoint dedupe (key : string) (seen : list (option value))
  (items : list value) : Exc (list value) :=
  match items with
  | [] => mret []
  | item :: rest =>
      val ← read key item;
      if existsb (same_value_zero val) seen then dedupe key seen rest
      else (kept ← dedupe key (seen ++ [val]) rest; mret (item :: kept))
  end.

Definition deduplicateByKey (items : list value) (key : string)
  : Exc (list value) :=
  dedupe key [] items.

(** The value an item that is not [null] is compared by. *)
Definition key_of (key : string) (item : value) : option value :=
  match item with
  | Obj m => member key m
  | _ => None
  end.

(** The text and link arguments of the tool. *)
Record Overrides : Type := {
  new_primary_text : option string;
  new_headline : option string;
  new_description : option string;
  new_cta_type : option string;
  new_destination_url : option string;
}.

(** An argument that is given and not empty. *)
Definition given (v : option string) : bool :=
  match v with
  | Some (String _ _) => true
  | _ => false
  end.

Definition any_override (ov : Overrides) : bool :=
  given (new_primary_text ov) || given (new_headline ov) ||
  given (new_description ov) || given (new_cta_type ov) ||
  given (new_destination_url ov).

(** [if (Array.isArray(o[k])) o[k] = f(o[k])] *)
Definition map_array (f : list value -> list value) (k : string)
  (o : Members) : Members :=
  match member k o with
  | Some (Arr items) => assign k (Arr (f items)) o
  | _ => o
  end.

(** [if (v) o[k] = make(v)] *)
Definition override (k : string) (make : string -> value) (v : option string)
  (o : Members) : Members :=
  match v with
  | Some (String c s) => assign k (make (String c s)) o
  | _ => o
  end.

(** A link entry without an empty [display_url]. *)
Definition clean_link_url (lu : value) : value :=
  let cleaned := spread lu in
  match member "display_url" cleaned with
  | Some (Str EmptyString) => Obj (remove "display_url" cleaned)
  | _ => Obj cleaned
  end.

(** [v?.[0]] *)
Definition first_of (v : option value) : option value :=
  match v with
  | Some (Arr (x :: _)) => Some x
  | Some (Obj m) => member "0" m
  | Some (Str (String c _)) => Some (Str (String c ""))
  | _ => None
  end.

(** [v?.website_url] *)
Definition website_url (v : option value) : option value :=
  match v with
  | Some (Obj m) => member "website_url" m
  | _ => None
  end.

Definition STRIPPED_FIELDS : list string :=
  ["bodies"; "titles"; "descriptions"; "link_urls"; "call_to_actions"].

(** The second half of the rewriting of an [asset_feed_spec]: the
    customization rules go, empty [display_url]s go, the overrides are
    applied, and with any override the members tied to a shop go and an
    explicit call to action is written. *)
Definition finish_feed (ov : Overrides) (feedSpec : Members) : Exc Members :=
  let feedSpec := remove "asset_customization_rules" feedSpec in
  let feedSpec := map_array (fmap clean_link_url) "link_urls" feedSpec in
  let feedSpec :=
    override "bodies" (fun t => Arr [Obj [("text", Str t)]])
      (new_primary_text ov) feedSpec in
  let feedSpec :=
    override "titles" (fun t => Arr [Obj [("text", Str t)]])
      (new_headline ov) feedSpec in
  let feedSpec :=
    override "descriptions" (fun t => Arr [Obj [("text", Str t)]])
      (new_description ov) feedSpec in
  let feedSpec :=
    override "call_to_action_types" (fun t => Arr [Str t])
      (new_cta_type ov) feedSpec in
  let feedSpec :=
    override "link_urls" (fun t => Arr [Obj [("website_url", Str t)]])
      (new_destination_url ov) feedSpec in
  if any_override ov then
    let feedSpec := remove "onsite_destinations" feedSpec in
    let feedSpec := remove "shops_bundle" feedSpec in
    let feedSpec := remove "reasons_to_shop" feedSpec in
    let feedSpec :=
      match member "optimization_type" feedSpec with
      | Some (Str t) =>
          if String.eqb t "PLACEMENT" then remove "optimization_type" feedSpec
          else feedSpec
      | _ => feedSpec
      end in
    let linkUrl := website_url (first_of (member "link_urls" feedSpec)) in
    let ctaType : value :=
      match new_cta_type ov with
      | Some (String c s) => Str (String c s)
      | _ =>
          let listed := first_of (member "call_to_action_types" feedSpec) in
          match listed with
          | Some v => if truthy_value listed then v else Str "SHOP_NOW"
          | None => Str "SHOP_NOW"
          end
      end in
    match linkUrl with
    | Some link =>
        if truthy_value linkUrl
        then mret (assign "call_to_actions"
                     (Arr [Obj [("type", ctaType);
                                ("value", Obj [("link", link)])]])
                     feedSpec)
        else mret feedSpec
    | None => mret feedSpec
    end
  else mret feedSpec.

(** The rewriting of an [asset_feed_spec] that is an object, before it is
    posted again: the labels are stripped from the asset lists, the images
    are stripped and deduplicated by hash, and the rest follows. *)
Definition rewrite_feed (ov : Overrides) (feedSpec : Members) : Exc Members :=
  let feedSpec :=
    foldl (fun o field => map_array stripLabels field o) feedSpec
          STRIPPED_FIELDS in
  feedSpec ← match member "images" feedSpec with
             | Some (Arr items) =>
                 images ← deduplicateByKey (stripLabels items) "hash";
                 mret (assign "images" (Arr images) feedSpec)
             | _ => mret feedSpec
             end;
  finish_feed ov feedSpec.

(** The members that hold assets, and every member the rewriting may
    touch. *)
Definition ASSET_FIELDS : list string := STRIPPED_FIELDS ++ ["images"].

Definition REWRITTEN_FIELDS : list string :=
  ASSET_FIELDS ++
  ["asset_customization_rules"; "call_to_action_types"; "onsite_destinations";
   "shops_bundle"; "reasons_to_shop"; "optimization_type"].

(** The name of the copy:
    [new_name || `${original.name || creative_id}${name_suffix || ' - Copy'}`],
    for an original whose name, when present, is a string. *)
Definition copiedName (creative_id : string)
  (original_name new_name name_suffix : option string) : string :=
  match new_name with
  | Some (String c s) => String c s
  | _ =>
      match original_name with
      | Some (String c s) => String c s
      | _ => creative_id
      end +:+
      match name_suffix with
      | Some (String c s) => String c s
      | _ => " - Copy"
      end
  end.

End Creative.

(** ** Tool dispatch ([CallToolRequestSchema] handler) *)

Module Server.
Import JS Promise.

(** The answer of a tool call: the text of its content and its error
    flag. *)
Record ToolResult : Type := { text : string; isError : bool }.

(** [errorResult(message)] *)
Definition errorResult (message : string) : ToolResult :=
  {| text := "Error: " +:+ message; isError := true |}.

(** One issue of a [ZodError]: its path, segment by segment, and its
    message. *)
Record Issue : Type := { path : list string; message : string }.

(** What a handler throws: the validation error of [zodSchema.parse], or
    another exception. *)
Inductive Failure : Type :=
| ZodError (issues : list Issue)
| Thrown (e : exn).

(** A tool: its name and how its handler settles on given arguments. *)
Record ToolDef (Args : Type) : Type := {
  name : string;
  handler : Args -> ToolResult + Failure;
}.
Arguments name {Args} _.
Arguments handler {Args} _ _.

Definition issue_text (i : Issue) : string :=
  String.concat "." (path i) +:+ ": " +:+ message i.

(** [toolMap.get(toolName)]: the map built from the list holds, for a name
    listed twice, the tool listed last. *)
Definition toolMap_get {Args : Type} (tools : list (ToolDef Args))
  (toolName : string) : option (ToolDef Args) :=
  last (List.filter (fun t => String.eqb (name t) toolName) tools).

Definition call_tool {Args : Type} (tools : list (ToolDef Args))
  (toolName : string) (args : Args) : ToolResult :=
  match toolMap_get tools toolName with
  | None =>
      errorResult ("Unknown tool " +:+ Json.quote +:+ toolName +:+ Json.quote
                   +:+ ". Available: " +:+ String.concat ", " (name <$> tools))
  | Some tool =>
      match handler tool args with
      | inl result => result
      | inr (ZodError issues) =>
          errorResult ("Invalid arguments: " +:+
                       String.concat "; " (issue_text <$> issues))
      | inr (Thrown (ApiError m statusCode)) =>
          errorResult ("API error (" +:+ Z_to_string statusCode +:+ "): " +:+ m)
      | inr (Thrown e) => errorResult (reason_message e)
      end
  end.

(** The names of the tools the server lists, in order. *)
Definition tool_names : list string :=
  ["get_account_info"; "get_ad_accounts"; "get_account_pages";
   "search_pages_by_name"; "list_campaigns"; "get_campaign_details";
   "create_campaign"; "update_campaign"; "pause_campaign"; "enable_campaign";
   "list_adsets"; "get_adset_details"; "create_adset"; "update_adset";
   "update_adset_daily_budget"; "list_ads"; "get_ad_details"; "create_ad";
   "update_ad"; "get_ad_creatives"; "upload_ad_image"; "create_ad_creative";
   "create_dpa_creative"; "create_carousel_ad_creative"; "update_ad_creative";
   "get_product_catalogs"; "get_product_sets"; "create_product_set";
   "get_insights"; "insights_daily_by_device"; "bulk_get_insights";
   "generate_report"; "search_interests"; "get_interest_suggestions";
   "search_behaviors"; "search_demographics"; "search_geo_locations";
   "estimate_audience_size"; "duplicate_campaign"; "duplicate_adset";
   "duplicate_ad"; "duplicate_creative"; "create_budget_schedule"].

End Server.

(** ** Sample inputs *)

Module Samples.
Import JS Metrics.

(** Noon of Saturday 2025-03-15, UTC, as a time value. *)
Definition noon_2025_03_15 : Z := 1742040000000.

Definition hour : Z := 3600000.

(** Eastern time (America/New_York) as it ran in 2025: UTC-4 from
    2025-03-09 07:00 UTC until 2025-11-02 06:00 UTC, UTC-5 outside.  A local
    time that is skipped or repeated is read with the offset in force before
    the transition. *)
Definition new_york_2025 : Zone :=
  let dst_from := days_from_civil 2025 3 9 * msPerDay in
  let dst_until := days_from_civil 2025 11 2 * msPerDay in
  {| utc_offset := fun t =>
       if (dst_from + 7 * hour <=? t) && (t <? dst_until + 6 * hour)
       then -4 * hour else -5 * hour;
     local_offset := fun t =>
       if (dst_from + 3 * hour <=? t) && (t <? dst_until + 2 * hour)
       then -4 * hour else -5 * hour |}.

(** A row with every member absent. *)
Definition blank_row : MetricRow :=
  {| campaign_id := None; campaign_name := None; date_start := None;
     r_spend := None; r_impressions := None; r_clicks := None;
     r_reach := None; r_ctr := None; r_cpc := None; r_cpm := None;
     r_frequency := None; r_unique_clicks := None; actions := None;
     action_values := None; cost_per_action_type := None;
     conversions := None |}.

Definition with_spend (s : string) (row : MetricRow) : MetricRow :=
  {| campaign_id := campaign_id row; campaign_name := campaign_name row;
     date_start := date_start row; r_spend := Some s;
     r_impressions := r_impressions row; r_clicks := r_clicks row;
     r_reach := r_reach row; r_ctr := r_ctr row; r_cpc := r_cpc row;
     r_cpm := r_cpm row; r_frequency := r_frequency row;
     r_unique_clicks := r_unique_clicks row; actions := actions row;
     action_values := action_values row;
     cost_per_action_type := cost_per_action_type row;
     conversions := conversions row |}.

Definition with_actions (acts vals : list Action) (row : MetricRow) : MetricRow :=
  {| campaign_id := campaign_id row; campaign_name := campaign_name row;
     date_start := date_start row; r_spend := r_spend row;
     r_impressions := r_impressions row; r_clicks := r_clicks row;
     r_reach := r_reach row; r_ctr := r_ctr row; r_cpc := r_cpc row;
     r_cpm := r_cpm row; r_frequency := r_frequency row;
     r_unique_clicks := r_unique_clicks row; actions := Some acts;
     action_values := Some vals;
     cost_per_action_type := cost_per_action_type row;
     conversions := conversions row |}.

Definition with_campaign (id name : string) (row : MetricRow) : MetricRow :=
  {| campaign_id := Some id; campaign_name := Some name;
     date_start := date_start row; r_spend := r_spend row;
     r_impressions := r_impressions row; r_clicks := r_clicks row;
     r_reach := r_reach row; r_ctr := r_ctr row; r_cpc := r_cpc row;
     r_cpm := r_cpm row; r_frequency := r_frequency row;
     r_unique_clicks := r_unique_clicks row; actions := actions row;
     action_values := action_values row;
     cost_per_action_type := cost_per_action_type row;
     conversions := conversions row |}.

Definition action (t v : string) : Action :=
  {| action_type := Some t; value := Some v |}.

(** Spend that is not a number, and a purchase count that is not one. *)
Definition unparseable_row : MetricRow :=
  with_spend "abc" (with_actions [action "purchase" "n/a"] [] blank_row).

(** A spend that is a double, of which the hundredfold is none. *)
Definition huge_row : MetricRow := with_spend "1e308" blank_row.

(** Three purchases worth 90.50 for a spend of 30.25. *)
Definition paid_row : MetricRow :=
  with_spend "30.25"
    (with_actions [action "purchase" "3"] [action "purchase" "90.50"] blank_row).

(** Purchases recorded although nothing was spent. *)
Definition free_row : MetricRow :=
  with_spend "0.00"
    (with_actions [action "purchase" "3"] [action "purchase" "90.50"] blank_row).

(** Spend without any purchase. *)
Definition unsold_row : MetricRow :=
  with_spend "12.5" (with_actions [action "link_click" "40"] [] blank_row).

(** A campaign row. *)
Definition campaign_row : MetricRow := with_campaign "c1" "TOF" paid_row.

(** The tool called without arguments: last seven days, with comparison. *)
Definition default_args : Report.Args :=
  {| Report.arg_time_range := None;
     Report.arg_compare_previous := None;
     Report.arg_campaign_name_contains := None |}.

Definition down : exn := ApiError "HTTP 500: down" 500.

(** A remote end whose account-level aggregate for the week from 2025-03-08
    fails, every other fetch succeeding. *)
Definition aggregate_down (req : Report.Request) : Exc Payload :=
  if String.eqb (Report.level req) "account" &&
     negb (bool_decide (is_Some (Report.time_increment req))) &&
     String.eqb (Resolver.since (Report.time_range req)) "2025-03-08"
  then Throw down
  else Ret {| data := Some [campaign_row] |}.

(** A remote end where every fetch for the week from 2025-03-01 fails. *)
Definition previous_down (req : Report.Request) : Exc Payload :=
  if String.eqb (Resolver.since (Report.time_range req)) "2025-03-01"
  then Throw down
  else Ret {| data := Some [campaign_row] |}.

(** A decoder for bodies kept as text: an object is taken as it is, any
    other text is refused the way [JSON.parse] refuses a page of HTML. *)
Definition parse_object (text : string) : string + string :=
  match text with
  | String "{" _ => inl text
  | _ => inr "Unexpected token < in JSON at position 0"
  end.

(** A remote end that answers every attempt with a 404 whose body is a
    page of HTML. *)
Definition not_found_page (_ : nat) : Executor.fetched :=
  Executor.Answered 404 "<html>Not Found</html>".

(** A remote end that answers every attempt with a 404, and a tool that
    passes on what one request to it returns or throws. *)
Definition not_found (_ : nat) : Executor.attempt_result string :=
  Executor.Responded 404 "Not Found".

Definition details_tool : Server.ToolDef unit :=
  {| Server.name := "get_campaign_details";
     Server.handler := fun _ =>
       match (Executor.graphRequest string (fun _ => None) id "GET" "/123"
                not_found 2).2 with
       | Ret body => inl {| Server.text := body; Server.isError := false |}
       | Throw e => inr (Server.Thrown e)
       end |}.

End Samples.

(** * Properties *)

Import JS.

(** ** The exception monad *)

Lemma Exc_bind_Ret {A B : Type} (a : A) (k : A -> Exc B) : (Ret a ≫= k) = k a.
Proof. reflexivity. Qed.

Lemma Exc_bind_ret {A B : Type} (a : A) (k : A -> Exc B) : (mret a ≫= k) = k a.
Proof. reflexivity. Qed.

Lemma Exc_bind_Throw {A B : Type} (e : exn) (k : A -> Exc B) :
  (Throw e ≫= k) = Throw e.
Proof. reflexivity. Qed.

(** ** Strings *)

Lemma append_cons (a : ascii) (s t : string) :
  String a s +:+ t = String a (s +:+ t).
Proof. reflexivity. Qed.

Lemma append_nil_r (s : string) : s +:+ "" = s.
Proof.
  induction s as [|a s IH]; [reflexivity|]. by rewrite append_cons, IH.
Qed.

Lemma append_assoc (s t u : string) : (s +:+ t) +:+ u = s +:+ t +:+ u.
Proof.
  induction s as [|a s IH]; [reflexivity|]. by rewrite !append_cons, IH.
Qed.

(** ** Numbers *)

Lemma Qred_num_sign (q : Q) :
  (0 < Qnum (Qred q) <-> 0 < Qnum q) /\ (Qnum (Qred q) = 0 <-> Qnum q = 0).
Proof.
  pose proof (Qred_correct q) as H. unfold Qeq in H.
  destruct (Qred q) as [n d], q as [n' d']. cbn in *. split; split; nia.
Qed.

Lemma Qzero_b_Qred (q : Q) : Qzero_b (Qred q) = Qzero_b q.
Proof.
  unfold Qzero_b. destruct (Qred_num_sign q) as [_ H].
  destruct (Z.eqb_spec (Qnum (Qred q)) 0), (Z.eqb_spec (Qnum q) 0); tauto.
Qed.

Lemma Qpos_b_Qred (q : Q) : Qpos_b (Qred q) = Qpos_b q.
Proof.
  unfold Qpos_b. destruct (Qred_num_sign q) as [H _].
  destruct (Z.ltb_spec 0 (Qnum (Qred q))), (Z.ltb_spec 0 (Qnum q)); lia.
Qed.

Lemma Qzero_b_eq (q : Q) : Qzero_b q = true <-> (q == 0)%Q.
Proof.
  unfold Qzero_b, Qeq. destruct q as [n d]. cbn. rewrite Z.eqb_eq. lia.
Qed.

Lemma fin_eq (x y : Q) : (x == y)%Q -> fin x = fin y.
Proof. intros H. unfold fin. f_equal. by apply Qred_complete. Qed.

Lemma fin_zero (x : Q) : Qzero_b x = true -> fin x = zero.
Proof. intros H. apply Qzero_b_eq in H. by rewrite (fin_eq x 0). Qed.

(** A number that passes the guard [x > 0] is not zero. *)
Lemma gt_zero_fin (x : Q) : gt (Fin x) zero = true -> Qzero_b x = false.
Proof.
  unfold gt, zero, of_Z. rewrite Qpos_b_Qred. unfold Qpos_b, Qzero_b.
  destruct x as [n d]. cbn. lia.
Qed.

Lemma gt_zero_nonzero (x : number) : gt x zero = true -> nonzero x = true.
Proof.
  destruct x as [| | |q]; try done.
  intros H. unfold nonzero, is_zero. by rewrite (gt_zero_fin q H).
Qed.

Lemma is_real_b_spec (a : number) : is_real_b a = true <-> is_real a.
Proof. destruct a; cbn; intuition discriminate. Qed.

Lemma is_real_fin (q : Q) : is_real (fin q).
Proof. exact I. Qed.

(** ** Doubles *)

Section DoubleProps.
Local Open Scope Q_scope.

Lemma Qpow2_pos (e : Z) : 0 < 2 ^ e.
Proof. apply Qpower_0_lt. reflexivity. Qed.

Lemma Qpow2_add (a b : Z) : 2 ^ (a + b) == 2 ^ a * 2 ^ b.
Proof. apply Qpower_plus. discriminate. Qed.

Lemma Qpow2_succ (a : Z) : 2 ^ (a + 1) == 2 * 2 ^ a.
Proof. rewrite Qpow2_add. change (2 ^ 1) with 2. ring. Qed.

Lemma Qpow2_opp (a : Z) : 2 ^ (- a) == / 2 ^ a.
Proof. apply Qpower_opp. Qed.

Lemma Qpow2_Z (a : Z) : (0 <= a)%Z -> inject_Z (2 ^ a) == 2 ^ a.
Proof. intros H. by rewrite Zpower_Qpower. Qed.

Lemma Qpow2_le (a b : Z) : (a <= b)%Z -> 2 ^ a <= 2 ^ b.
Proof. intros H. apply Qpower_le_compat_l; [exact H | discriminate]. Qed.

Lemma Qpow2_lt (a b : Z) : (a < b)%Z -> 2 ^ a < 2 ^ b.
Proof. intros H. apply Qpower_lt_compat_l; [exact H | reflexivity]. Qed.

Lemma Qpow2_le_inv (a b : Z) : 2 ^ a < 2 ^ b -> (a < b)%Z.
Proof.
  intros H. destruct (Z.lt_ge_cases a b) as [|Hge]; [done|].
  apply Qpow2_le in Hge. lra.
Qed.

Lemma scaled_spec (n d e : Z) :
  (0 < n)%Z -> (0 < d)%Z ->
  (0 < (scaled n d e).1)%Z /\ (0 < (scaled n d e).2)%Z
  /\ inject_Z (scaled n d e).1 ==
       inject_Z n / inject_Z d / 2 ^ e * inject_Z (scaled n d e).2.
Proof.
  intros Hn Hd. unfold scaled.
  assert (0 < inject_Z d) as HD by (rewrite Zlt_Qlt in Hd; exact Hd).
  pose proof (Qpow2_pos e) as He.
  destruct (Z.leb_spec 0 e) as [H|H]; cbn [fst snd].
  - split; [done|]. split; [by apply Z.mul_pos_pos, Z.pow_pos_nonneg|].
    rewrite inject_Z_mult, Qpow2_Z by done. field. split; lra.
  - split; [apply Z.mul_pos_pos; [done|apply Z.pow_pos_nonneg; lia]|].
    split; [done|].
    rewrite inject_Z_mult, Qpow2_Z by lia. rewrite Qpow2_opp. field.
    split; lra.
Qed.

Lemma Zspec_Q (n : Z) : (0 < n)%Z -> 0 < inject_Z n.
Proof. intros H. rewrite Zlt_Qlt in H. exact H. Qed.

Lemma log2_bounds_Q (n : Z) :
  (0 < n)%Z -> 2 ^ Z.log2 n <= inject_Z n /\ inject_Z n < 2 * 2 ^ Z.log2 n.
Proof.
  intros H. destruct (Z.log2_spec n H) as [H1 H2].
  pose proof (Z.log2_nonneg n) as H0.
  rewrite <- Qpow2_succ, <- !Qpow2_Z by lia.
  split; [by rewrite <- Zle_Qle | rewrite <- Zlt_Qlt; lia].
Qed.

(** [ilog2 n d] is the binary exponent of [n / d]. *)
Lemma ilog2_spec (n d : Z) :
  (0 < n)%Z -> (0 < d)%Z ->
  let x := inject_Z n / inject_Z d in
  2 ^ ilog2 n d <= x /\ x < 2 * 2 ^ ilog2 n d.
Proof.
  intros Hn Hd x. unfold ilog2.
  set (l := (Z.log2 n - Z.log2 d)%Z).
  destruct (scaled_spec n d l Hn Hd) as (Ha & Hb & E).
  destruct (scaled n d l) as [a b]. cbn [fst snd] in *. fold x in E.
  pose proof (Zspec_Q _ Hn) as HN. pose proof (Zspec_Q _ Hd) as HD.
  pose proof (Zspec_Q _ Ha) as HA. pose proof (Zspec_Q _ Hb) as HB.
  destruct (log2_bounds_Q n Hn) as [N1 N2].
  destruct (log2_bounds_Q d Hd) as [D1 D2].
  pose proof (Qpow2_pos (Z.log2 n)) as Pn. pose proof (Qpow2_pos (Z.log2 d)) as Pd.
  pose proof (Qpow2_pos l) as Pl.
  assert (2 ^ Z.log2 n == 2 ^ l * 2 ^ Z.log2 d) as El.
  { rewrite <- Qpow2_add. unfold l. by replace (Z.log2 n - Z.log2 d + Z.log2 d)%Z
      with (Z.log2 n) by lia. }
  assert (x * inject_Z d == inject_Z n) as Ex by (unfold x; field; lra).
  assert (0 < x) as Hx by (unfold x; apply Qlt_shift_div_l; lra).
  set (P := 2 ^ l) in *. set (Pd' := 2 ^ Z.log2 d) in *.
  set (Pn' := 2 ^ Z.log2 n) in *. set (D := inject_Z d) in *.
  set (N := inject_Z n) in *.
  assert (P * Pd' <= P * D) as HPD by (apply Qmult_le_l; lra).
  assert (P * D < P * (2 * Pd')) as HPD' by (apply Qmult_lt_l; lra).
  assert (x < 2 * P) as Hup.
  { apply Qnot_le_lt. intros Hc.
    assert (2 * P * D <= x * D) as H by (apply Qmult_le_compat_r; lra). lra. }
  assert (P < 2 * x) as Hlo.
  { apply Qnot_le_lt. intros Hc.
    assert (2 * x * D <= P * D) as H by (apply Qmult_le_compat_r; lra). lra. }
  assert (x == x / P * P) as Exp by (field; lra).
  set (y := x / P) in *.
  destruct (Z.leb_spec b a) as [Hba|Hba]; fold P.
  - split; [|done].
    rewrite Zle_Qle in Hba. rewrite E in Hba.
    assert (1 <= y) as H1.
    { apply Qnot_lt_le. intros Hc.
      assert (y * inject_Z b < 1 * inject_Z b) as H by (apply Qmult_lt_r; lra).
      lra. }
    assert (1 * P <= y * P) as H by (apply Qmult_le_compat_r; lra). lra.
  - rewrite Zlt_Qlt in Hba. rewrite E in Hba.
    assert (y < 1) as H1.
    { apply Qnot_le_lt. intros Hc.
      assert (1 * inject_Z b <= y * inject_Z b) as H
        by (apply Qmult_le_compat_r; lra).
      lra. }
    assert (y * P < 1 * P) as H2 by (apply Qmult_lt_r; lra).
    assert (P == 2 * 2 ^ (l - 1)) as EP.
    { unfold P. rewrite <- Qpow2_succ. by replace (l - 1 + 1)%Z with l by lia. }
    rewrite <- EP. split; lra.
Qed.

(** [round_even a b] is within one half of [a / b]. *)
Lemma round_even_Z (a b : Z) :
  (0 < b)%Z ->
  (2 * (round_even a b * b - a) <= b /\ - b <= 2 * (round_even a b * b - a))%Z.
Proof.
  intros Hb. unfold round_even.
  pose proof (Z.div_mod a b) as E. pose proof (Z.mod_pos_bound a b Hb) as Hr.
  destruct (Z.compare_spec (2 * (a mod b)) b) as [H|H|H];
    [destruct (Z.even (a / b))| |]; nia.
Qed.

Lemma round_even_spec (a b : Z) :
  (0 < b)%Z ->
  Qabs (inject_Z (round_even a b) - inject_Z a / inject_Z b) <= 1 # 2.
Proof.
  intros Hb. destruct (round_even_Z a b Hb) as [H1 H2].
  set (m := round_even a b) in *. pose proof (Zspec_Q _ Hb) as HB.
  assert (2 * (inject_Z m * inject_Z b - inject_Z a) <= inject_Z b) as H1'
    by (unfold Qle; cbn; lia).
  assert (- inject_Z b <= 2 * (inject_Z m * inject_Z b - inject_Z a)) as H2'
    by (unfold Qle; cbn; lia).
  clear H1 H2.
  set (M := inject_Z m) in *. set (A := inject_Z a) in *. set (B := inject_Z b) in *.
  assert (A / B * B == A) as EA by (field; lra).
  set (y := A / B) in *.
  assert ((M - y) * B <= (1 # 2) * B) as U by lra.
  assert (- (1 # 2) * B <= (M - y) * B) as L by lra.
  apply Qabs_Qle_condition. split.
  - apply (Qmult_le_r _ _ B); lra.
  - apply (Qmult_le_r _ _ B); lra.
Qed.

Lemma Qabs_num (q : Q) :
  Qabs q == inject_Z (Z.abs (Qnum q)) / inject_Z (Zpos (Qden q)).
Proof.
  destruct q as [n d]. unfold Qabs. cbn [Qnum Qden].
  rewrite (Qmake_Qdiv (Z.abs n) d). reflexivity.
Qed.

(** What [to_double] is made of: a mantissa [m] and an exponent [e], the
    mantissa within one half of the scaled magnitude. *)
Lemma to_double_spec (q : Q) :
  ~ q == 0 ->
  exists m e : Z,
    let s := Qabs q / 2 ^ e in
    (emin <= e)%Z
    /\ (e = emin \/ 2 ^ 52 <= s)
    /\ s < 2 ^ 53
    /\ Qabs (inject_Z m - s) <= 1 # 2
    /\ to_double q = ranged q (inject_Z m * 2 ^ e).
Proof.
  intros Hq. unfold to_double.
  assert (0 < Z.abs (Qnum q))%Z as Hn.
  { destruct q as [n d]. unfold Qeq in Hq. cbn in *. lia. }
  destruct (Z.eqb_spec (Z.abs (Qnum q)) 0) as [E|_]; [lia|].
  set (n := Z.abs (Qnum q)) in *. set (d := Zpos (Qden q)).
  assert (0 < d)%Z as Hd by done.
  destruct (ilog2_spec n d Hn Hd) as [L1 L2].
  set (l := ilog2 n d) in *.
  set (e := Z.max (l - 52) emin).
  destruct (scaled_spec n d e Hn Hd) as (Ha & Hb & E).
  destruct (scaled n d e) as [a b]. cbn [fst snd] in *.
  exists (round_even a b), e. cbv zeta.
  rewrite Qabs_num. fold n d.
  set (x := inject_Z n / inject_Z d) in *.
  pose proof (Zspec_Q _ Hb) as HB. pose proof (Qpow2_pos e) as He.
  assert (inject_Z a / inject_Z b == x / 2 ^ e) as Es.
  { rewrite E. field. split; lra. }
  split; [unfold e; lia|]. split; [|split; [|split]].
  - destruct (Z.max_spec (l - 52) emin) as [[Hlt Hm]|[Hlt Hm]]; [by left|right].
    fold e in Hm. rewrite Hm.
    assert (2 ^ l == 2 ^ 52 * 2 ^ (l - 52)) as El.
    { rewrite <- Qpow2_add. by replace (52 + (l - 52))%Z with l by lia. }
    pose proof (Qpow2_pos (l - 52)) as Hp.
    apply Qle_shift_div_l; [done|]. rewrite <- El. done.
  - apply Qlt_shift_div_r; [done|].
    assert (2 * 2 ^ l <= 2 ^ 53 * 2 ^ e) as H; [|lra].
    rewrite <- Qpow2_succ, <- Qpow2_add. apply Qpow2_le. unfold e. lia.
  - rewrite <- Es. by apply round_even_spec.
  - reflexivity.
Qed.

Lemma Qpow2_le_inv' (a b : Z) : 2 ^ a <= 2 ^ b -> (a <= b)%Z.
Proof.
  intros H. destruct (Z.le_gt_cases a b) as [|Hgt]; [done|].
  apply Qpow2_lt in Hgt. lra.
Qed.

Lemma to_double_zero (q : Q) : q == 0 -> to_double q = zero.
Proof.
  intros H. unfold to_double.
  assert (Qnum q = 0%Z) as -> by (destruct q as [n d]; unfold Qeq in H; cbn in *; lia).
  reflexivity.
Qed.

Lemma ranged_not_NaN (q v : Q) : ranged q v <> NaN.
Proof. unfold ranged. by destruct (Qle_bool _ _), (Qnum q <? 0)%Z. Qed.

Lemma to_double_not_NaN (q : Q) : to_double q <> NaN.
Proof.
  destruct (Qeq_dec q 0) as [E|E]; [by rewrite to_double_zero|].
  destruct (to_double_spec q E) as (m & e & _ & _ & _ & _ & ->).
  apply ranged_not_NaN.
Qed.

(** An integer within one half of a rational that is at most an integer is
    at most that integer. *)
Lemma near_le (m k : Z) (s : Q) :
  Qabs (inject_Z m - s) <= 1 # 2 -> s <= inject_Z k -> (m <= k)%Z.
Proof.
  intros H Hs. apply Qabs_Qle_condition in H as [_ H].
  assert (inject_Z m < inject_Z (k + 1)) as Hlt.
  { assert (inject_Z (k + 1) == inject_Z k + 1) as -> by (unfold Qeq; cbn; lia).
    lra. }
  rewrite <- Zlt_Qlt in Hlt. lia.
Qed.

Lemma near_ge (m k : Z) (s : Q) :
  Qabs (inject_Z m - s) <= 1 # 2 -> inject_Z k <= s -> (k <= m)%Z.
Proof.
  intros H Hs. apply Qabs_Qle_condition in H as [H _].
  assert (inject_Z (k - 1) < inject_Z m) as Hlt.
  { assert (inject_Z (k - 1) == inject_Z k - 1) as -> by (unfold Qeq; cbn; lia).
    lra. }
  rewrite <- Zlt_Qlt in Hlt. lia.
Qed.

Lemma sign_of_abs (q v : Q) : 0 <= v -> Qabs (sign_of q v) == v.
Proof.
  intros H. unfold sign_of. destruct (Qnum q <? 0)%Z.
  - rewrite Qabs_opp. by apply Qabs_pos.
  - by apply Qabs_pos.
Qed.

(** The mantissa is not negative, and the magnitude rounds to a magnitude. *)
Lemma mantissa_nonneg (m : Z) (s : Q) :
  0 <= s -> Qabs (inject_Z m - s) <= 1 # 2 -> (0 <= m)%Z.
Proof. intros Hs H. by apply (near_ge m 0 s). Qed.

(** Rounding does not leave a binade: a magnitude of at most [2^k] rounds to
    a double of at most [2^k]. *)
Lemma to_double_bounded (q : Q) (k : Z) :
  (emin <= k < emax)%Z -> Qabs q <= 2 ^ k ->
  exists r, to_double q = Fin r /\ Qabs r <= 2 ^ k.
Proof.
  intros Hk Hq. pose proof (Qpow2_pos k) as Pk.
  destruct (Qeq_dec q 0) as [E|E].
  { exists 0. rewrite (to_double_zero q E). split; [done|]. change (Qabs 0) with 0. lra. }
  destruct (to_double_spec q E) as (m & e & He & Hn & Hs & Hm & ->).
  cbv zeta in *. pose proof (Qpow2_pos e) as Pe.
  set (s := Qabs q / 2 ^ e) in *.
  assert (Qabs q == s * 2 ^ e) as Eq by (unfold s; field; lra).
  assert (0 <= s) as Hs0.
  { unfold s. apply Qle_shift_div_l; [done|]. rewrite Qmult_0_l. apply Qabs_nonneg. }
  assert (e <= k)%Z as Hek.
  { destruct Hn as [->|Hn]; [lia|].
    assert (2 ^ 52 * 2 ^ e <= s * 2 ^ e) as H by (apply Qmult_le_compat_r; lra).
    rewrite <- Qpow2_add in H. rewrite <- Eq in H.
    assert (2 ^ (52 + e) <= 2 ^ k) as H' by lra.
    apply Qpow2_le_inv' in H'. lia. }
  assert (2 ^ k == 2 ^ (k - e) * 2 ^ e) as Ek.
  { rewrite <- Qpow2_add. by replace (k - e + e)%Z with k by lia. }
  assert (s <= inject_Z (2 ^ (k - e))) as Hsk.
  { rewrite Qpow2_Z by lia. apply (Qmult_le_r _ _ (2 ^ e)); [done|].
    rewrite <- Ek, <- Eq. done. }
  pose proof (near_le _ _ _ Hm Hsk) as Hmk.
  pose proof (mantissa_nonneg _ _ Hs0 Hm) as Hm0.
  rewrite Zle_Qle in Hmk, Hm0. rewrite Qpow2_Z in Hmk by lia.
  change (inject_Z 0) with 0 in Hm0.
  assert (inject_Z m * 2 ^ e <= 2 ^ k) as Hv.
  { rewrite Ek. apply Qmult_le_compat_r; lra. }
  assert (0 <= inject_Z m * 2 ^ e) as Hv0 by (apply Qmult_le_0_compat; lra).
  assert (2 ^ k < 2 ^ emax) as Hmax by (apply Qpow2_lt; lia).
  unfold ranged.
  destruct (Qle_bool (2 ^ emax) (inject_Z m * 2 ^ e)) eqn:Hb.
  { apply Qle_bool_iff in Hb. lra. }
  eexists. split; [reflexivity|]. rewrite Qred_correct, sign_of_abs; done.
Qed.

Lemma to_double_nonzero (q : Q) :
  ~ q == 0 ->
  exists m e : Z,
    let s := Qabs q / 2 ^ e in
    (emin <= e)%Z /\ (0 <= m)%Z
    /\ (e = emin \/ 2 ^ 52 <= s)
    /\ Qabs (inject_Z m - s) <= 1 # 2
    /\ to_double q = ranged q (inject_Z m * 2 ^ e).
Proof.
  intros E. destruct (to_double_spec q E) as (m & e & He & Hn & Hs & Hm & Hr).
  exists m, e. cbv zeta in *. repeat split; try done.
  apply (mantissa_nonneg m (Qabs q / 2 ^ e)); [|done].
  apply Qle_shift_div_l; [apply Qpow2_pos|]. rewrite Qmult_0_l. apply Qabs_nonneg.
Qed.

Lemma Qneg_b_spec (q : Q) : Qneg_b q = true <-> q < 0.
Proof.
  unfold Qneg_b, Qlt. destruct q as [n d]. cbn. rewrite Z.ltb_lt. lia.
Qed.

Lemma Qpos_b_spec (q : Q) : Qpos_b q = true <-> 0 < q.
Proof.
  unfold Qpos_b, Qlt. destruct q as [n d]. cbn. rewrite Z.ltb_lt. lia.
Qed.

Lemma Qneg_b_Qred (q : Q) : Qneg_b (Qred q) = Qneg_b q.
Proof.
  apply eq_true_iff_eq. rewrite !Qneg_b_spec. by rewrite Qred_correct.
Qed.

Lemma gt_zero_Fin_iff (x : Q) : gt (Fin x) zero = true <-> 0 < x.
Proof.
  unfold gt, zero, of_Z. rewrite Qpos_b_Qred, Qpos_b_spec.
  change (inject_Z 0) with 0. split; intros H; lra.
Qed.

Lemma ge_zero_Fin_iff (x : Q) : ge (Fin x) zero = true <-> 0 <= x.
Proof.
  unfold ge, zero, of_Z. rewrite Qneg_b_Qred, negb_true_iff.
  change (inject_Z 0) with 0.
  destruct (Qneg_b (x - 0)) eqn:E.
  - apply Qneg_b_spec in E. split; [done|lra].
  - split; [|done]. intros _. apply Qnot_lt_le. intros H.
    assert (Qneg_b (x - 0) = true) as E' by (apply Qneg_b_spec; lra). congruence.
Qed.

(** The grid is closed under the operations that keep doubles exact. *)
Lemma on_grid_sub (x y : Q) : on_grid x -> on_grid y -> on_grid (x - y).
Proof.
  intros [k Hk] [j Hj]. exists (k - j)%Z. rewrite Hk, Hj.
  assert (inject_Z (k - j) == inject_Z k - inject_Z j) as ->
    by (unfold Qeq; cbn; lia).
  ring.
Qed.

Lemma on_grid_mul_Z (x : Q) (z : Z) : on_grid x -> on_grid (x * inject_Z z).
Proof.
  intros [k Hk]. exists (k * z)%Z. rewrite Hk, inject_Z_mult. ring.
Qed.

Lemma on_grid_Z (z : Z) : on_grid (inject_Z z).
Proof.
  exists (z * 2 ^ 1074)%Z. rewrite inject_Z_mult, Qpow2_Z by lia.
  assert (2 ^ 1074 * 2 ^ emin == 1) as E by (rewrite <- Qpow2_add; reflexivity).
  rewrite <- Qmult_assoc, E. ring.
Qed.

Lemma on_grid_proper (x y : Q) : x == y -> on_grid x -> on_grid y.
Proof. intros E [k Hk]. exists k. by rewrite <- E. Qed.

(** A positive value of the grid is at least the least positive double. *)
Lemma on_grid_abs (q : Q) : on_grid q -> ~ q == 0 -> 2 ^ emin <= Qabs q.
Proof.
  intros [k Hk] Hq. pose proof (Qpow2_pos emin) as P.
  assert (k <> 0)%Z as Hk0.
  { intros ->. apply Hq. rewrite Hk. ring. }
  rewrite Hk, Qabs_Qmult, (Qabs_pos (2 ^ emin)) by lra.
  assert (1 <= Qabs (inject_Z k)) as H.
  { change (Qabs (inject_Z k)) with (inject_Z (Z.abs k)).
    change 1 with (inject_Z 1). rewrite <- Zle_Qle. lia. }
  assert (1 * 2 ^ emin <= Qabs (inject_Z k) * 2 ^ emin) as H'
    by (apply Qmult_le_compat_r; lra).
  lra.
Qed.

(** Every finite result of rounding lies on the grid. *)
Lemma to_double_on_grid (q r : Q) : to_double q = Fin r -> on_grid r.
Proof.
  intros H. destruct (Qeq_dec q 0) as [E|E].
  { rewrite (to_double_zero q E) in H. injection H as <-. apply (on_grid_Z 0). }
  destruct (to_double_nonzero q E) as (m & e & He & Hm0 & _ & _ & Hr).
  rewrite Hr in H. unfold ranged in H.
  destruct (Qle_bool _ _); [by destruct (Qnum q <? 0)%Z|].
  injection H as <-.
  assert (2 ^ e == inject_Z (2 ^ (e - emin)) * 2 ^ emin) as Ee.
  { rewrite Qpow2_Z by lia. rewrite <- Qpow2_add.
    by replace (e - emin + emin)%Z with e by lia. }
  unfold sign_of. destruct (Qnum q <? 0)%Z.
  - exists (- (m * 2 ^ (e - emin)))%Z. rewrite Qred_correct, Ee.
    rewrite inject_Z_opp, inject_Z_mult. ring.
  - exists (m * 2 ^ (e - emin))%Z. rewrite Qred_correct, Ee.
    rewrite inject_Z_mult. ring.
Qed.

Lemma Qpos_neg_b (q : Q) : ~ q == 0 -> Qpos_b q = negb (Qneg_b q).
Proof.
  intros H. unfold Qpos_b, Qneg_b. destruct q as [n d]. unfold Qeq in H.
  cbn in *. destruct (Z.ltb_spec 0 n), (Z.ltb_spec n 0); cbn; lia.
Qed.

Lemma ranged_sign (q v : Q) :
  0 < v ->
  gt (ranged q v) zero = negb (Qneg_b q)
  /\ ge (ranged q v) zero = negb (Qneg_b q).
Proof.
  intros Hv. unfold ranged, sign_of. fold (Qneg_b q).
  destruct (Qle_bool (2 ^ emax) v); [by destruct (Qneg_b q)|].
  unfold fin. destruct (Qneg_b q); cbn [negb]; split.
  - apply not_true_is_false. rewrite gt_zero_Fin_iff, Qred_correct. lra.
  - apply not_true_is_false. rewrite ge_zero_Fin_iff, Qred_correct. lra.
  - apply gt_zero_Fin_iff. rewrite Qred_correct. lra.
  - apply ge_zero_Fin_iff. rewrite Qred_correct. lra.
Qed.

(** Rounding a value of the grid keeps its sign: a difference of doubles
    that is not zero does not round to zero. *)
Lemma to_double_sign (q : Q) :
  on_grid q ->
  gt (to_double q) zero = Qpos_b q /\ ge (to_double q) zero = negb (Qneg_b q).
Proof.
  intros Hg. destruct (Qeq_dec q 0) as [E|E].
  { rewrite (to_double_zero q E).
    assert (Qnum q = 0%Z) as Hn
      by (destruct q as [n d]; unfold Qeq in E; cbn in *; lia).
    unfold Qpos_b, Qneg_b. rewrite Hn. done. }
  rewrite (Qpos_neg_b q E).
  destruct (to_double_nonzero q E) as (m & e & He & Hm0 & Hn & Hm & ->).
  cbv zeta in *. apply ranged_sign.
  pose proof (Qpow2_pos e) as Pe. pose proof (on_grid_abs q Hg E) as Hq.
  assert (1 <= Qabs q / 2 ^ e) as Hs.
  { destruct Hn as [->|Hn]; [apply Qle_shift_div_l; lra|].
    assert (1 <= 2 ^ 52) by done. lra. }
  pose proof (near_ge m 1 _ Hm Hs) as H1. rewrite Zle_Qle in H1.
  change (inject_Z 1) with 1 in H1.
  apply Qmult_lt_0_compat; lra.
Qed.

(** Without the grid the sign is kept up to a zero. *)
Lemma to_double_nonneg (q : Q) : 0 <= q -> ge (to_double q) zero = true.
Proof.
  intros Hq. destruct (Qeq_dec q 0) as [E|E]; [by rewrite to_double_zero|].
  destruct (to_double_nonzero q E) as (m & e & He & Hm0 & Hn & Hm & ->).
  pose proof (Qpow2_pos e) as Pe. unfold ranged, sign_of.
  assert ((Qnum q <? 0)%Z = false) as ->.
  { apply Z.ltb_ge. destruct q as [n d]. unfold Qle in Hq. cbn in *. lia. }
  destruct (Qle_bool _ _); [done|]. unfold fin. apply ge_zero_Fin_iff.
  rewrite Qred_correct. rewrite Zle_Qle in Hm0. change (inject_Z 0) with 0 in Hm0.
  apply Qmult_le_0_compat; lra.
Qed.

Lemma to_double_nonpos (q : Q) : q <= 0 -> gt (to_double q) zero = false.
Proof.
  intros Hq. destruct (Qeq_dec q 0) as [E|E]; [by rewrite to_double_zero|].
  destruct (to_double_nonzero q E) as (m & e & He & Hm0 & Hn & Hm & ->).
  pose proof (Qpow2_pos e) as Pe. unfold ranged, sign_of.
  assert ((Qnum q <? 0)%Z = true) as ->.
  { apply Z.ltb_lt. destruct q as [n d]. unfold Qle, Qeq in *. cbn in *. lia. }
  destruct (Qle_bool _ _); [done|]. unfold fin. apply not_true_is_false.
  rewrite gt_zero_Fin_iff, Qred_correct. rewrite Zle_Qle in Hm0.
  change (inject_Z 0) with 0 in Hm0.
  assert (0 <= inject_Z m * 2 ^ e) by (apply Qmult_le_0_compat; lra). lra.
Qed.

(** The error of rounding: half a unit in the last place, that is a
    relative error of [2^-53], or half the least double below the normal
    range.  On the grid there is nothing to lose below the normal range. *)
Lemma to_double_error (q r : Q) :
  to_double q = Fin r ->
  Qabs (r - q) <= Qabs q * 2 ^ (-53) + 2 ^ (-1075)
  /\ (on_grid q -> Qabs (r - q) <= Qabs q * 2 ^ (-53)).
Proof.
  intros H. pose proof (Qabs_nonneg q) as Hq0.
  assert (0 < 2 ^ (-53)) as P53 by apply Qpow2_pos.
  assert (0 < 2 ^ (-1075)) as P1075 by apply Qpow2_pos.
  destruct (Qeq_dec q 0) as [E|E].
  { rewrite (to_double_zero q E) in H. injection H as <-.
    assert (Qabs (inject_Z 0 - q) == 0) as ->.
    { change (inject_Z 0) with 0. rewrite E. reflexivity. }
    assert (0 <= Qabs q * 2 ^ (-53)) by (apply Qmult_le_0_compat; lra).
    split; [|intros _]; lra. }
  destruct (to_double_nonzero q E) as (m & e & He & Hm0 & Hn & Hm & Hr).
  cbv zeta in *. rewrite Hr in H. unfold ranged in H.
  destruct (Qle_bool _ _); [by destruct (Qnum q <? 0)%Z|].
  injection H as <-. pose proof (Qpow2_pos e) as Pe.
  set (s := Qabs q / 2 ^ e) in *.
  assert (Qabs q == s * 2 ^ e) as Eq by (unfold s; field; lra).
  (* the error in units of [2^e] *)
  assert (Qabs (Qred (sign_of q (inject_Z m * 2 ^ e)) - q) ==
            Qabs (inject_Z m - s) * 2 ^ e) as Eerr.
  { rewrite Qred_correct. unfold sign_of.
    rewrite <- (Qabs_pos (2 ^ e)) at 3 by lra. rewrite <- Qabs_Qmult.
    destruct (Z.ltb_spec (Qnum q) 0) as [Hneg|Hpos].
    - assert (q <= 0) as Hle by (destruct q as [n d]; unfold Qle; cbn in *; lia).
      assert (q == - (s * 2 ^ e)) as Eq' by (rewrite <- Eq, Qabs_neg; [ring|done]).
      rewrite <- Qabs_opp. apply Qabs_wd. rewrite Eq' at 1. ring.
    - assert (0 <= q) as Hle by (destruct q as [n d]; unfold Qle; cbn in *; lia).
      assert (q == s * 2 ^ e) as Eq' by (rewrite <- Eq, Qabs_pos; done).
      apply Qabs_wd. rewrite Eq' at 1. ring. }
  rewrite Eerr.
  assert (Qabs (inject_Z m - s) * 2 ^ e <= (1 # 2) * 2 ^ e) as Hhalf
    by (apply Qmult_le_compat_r; lra).
  assert (e <> emin -> (1 # 2) * 2 ^ e <= Qabs q * 2 ^ (-53)) as Hnormal.
  { intros Hne. destruct Hn as [?|Hn]; [done|].
    assert (2 ^ e == 2 ^ 53 * 2 ^ (-53) * 2 ^ e) as E1.
    { rewrite <- (Qpow2_add 53 (-53)). change (2 ^ (53 + -53)) with 1. ring. }
    assert (2 ^ 52 * 2 ^ e <= s * 2 ^ e) as H by (apply Qmult_le_compat_r; lra).
    rewrite <- Eq in H.
    assert (2 ^ 52 * 2 ^ e * 2 ^ (-53) <= Qabs q * 2 ^ (-53)) as H'
      by (apply Qmult_le_compat_r; lra).
    assert ((1 # 2) * 2 ^ e == 2 ^ 52 * 2 ^ e * 2 ^ (-53)) as E2.
    { rewrite E1 at 1. change (2 ^ 53) with (2 * 2 ^ 52). ring. }
    lra. }
  assert (0 <= Qabs q * 2 ^ (-53)) as Hrel by (apply Qmult_le_0_compat; lra).
  destruct (Z.eq_dec e emin) as [->|Hne].
  - split.
    + assert ((1 # 2) * 2 ^ emin == 2 ^ (-1075)) as E1.
      { change (-1075)%Z with (-1 + emin)%Z. rewrite Qpow2_add. reflexivity. }
      lra.
    + intros Hg. destruct Hg as [k Hk].
      (* the scaled magnitude is an integer, so rounding is exact *)
      assert (s == inject_Z (Z.abs k)) as Es.
      { unfold s. rewrite Hk, Qabs_Qmult, (Qabs_pos (2 ^ emin)) by lra.
        change (Qabs (inject_Z k)) with (inject_Z (Z.abs k)). field. lra. }
      assert (m = Z.abs k) as ->.
      { apply Z.le_antisymm.
        - apply (near_le _ _ s Hm). rewrite Es. lra.
        - apply (near_ge _ _ s Hm). rewrite Es. lra. }
      rewrite Es. assert (Qabs (inject_Z (Z.abs k) - inject_Z (Z.abs k)) == 0) as ->.
      { assert (inject_Z (Z.abs k) - inject_Z (Z.abs k) == 0) as -> by ring.
        reflexivity. }
      lra.
  - specialize (Hnormal Hne). split; [|intros _]; lra.
Qed.

Lemma to_double_gridded (q : Q) : gridded (to_double q).
Proof.
  destruct (to_double q) as [| | |r] eqn:E; try done.
  by apply (to_double_on_grid q r).
Qed.

Lemma double_on_grid (q : Q) : double_b q = true -> on_grid q.
Proof.
  unfold double_b. destruct (to_double q) as [| | |r] eqn:E; try done.
  intros H. apply Qeq_bool_iff in H.
  apply (on_grid_proper r q H), (to_double_on_grid q r E).
Qed.
End DoubleProps.

(** ** Rounding to hundredths in double arithmetic *)

Section Round2Props.
Import Metrics.
Local Open Scope Q_scope.

Lemma round_Q_spec (y : Q) :
  inject_Z (round_Q y) <= y + (1 # 2) /\ y - (1 # 2) < inject_Z (round_Q y).
Proof.
  unfold round_Q. pose proof (Qfloor_le (y + (1 # 2))) as H1.
  pose proof (Qlt_floor (y + (1 # 2))) as H2.
  rewrite inject_Z_plus in H2. change (inject_Z 1) with 1 in H2. split; lra.
Qed.

Lemma round_Q_near (y : Q) : Qabs (inject_Z (round_Q y) - y) <= 1 # 2.
Proof. destruct (round_Q_spec y). apply Qabs_Qle_condition. split; lra. Qed.

(** [Math.round(x * 100) / 100], step by step. *)
Lemma round2_Fin (x : Q) :
  round2 (Fin x) =
    match to_double (x * inject_Z 100) with
    | Fin y => to_double (inject_Z (round_Q y) / inject_Z 100)
    | a => a
    end.
Proof.
  unfold round2. cbn [mul of_Z]. by destruct (to_double (x * inject_Z 100)).
Qed.

Lemma round2_gridded (a : number) : gridded (round2 a).
Proof.
  destruct a as [| | |x]; try done. rewrite round2_Fin.
  destruct (to_double (x * inject_Z 100)) eqn:E; try done.
  apply to_double_gridded.
Qed.

Lemma round2_not_NaN (a : number) : a <> NaN -> round2 a <> NaN.
Proof.
  destruct a as [| | |x]; try done. intros _. rewrite round2_Fin.
  destruct (to_double (x * inject_Z 100)) eqn:E; try done.
  - by apply to_double_not_NaN in E.
  - apply to_double_not_NaN.
Qed.

Lemma round2_zero (x : Q) : Qzero_b x = true -> round2 (Fin x) = zero.
Proof.
  intros H. apply Qzero_b_eq in H. rewrite round2_Fin.
  rewrite (to_double_zero (x * inject_Z 100)) by (rewrite H; ring).
  reflexivity.
Qed.

Lemma limit_pow2 : ROUND_LIMIT <= 2 ^ 1013.
Proof. apply Qle_bool_iff. vm_compute. reflexivity. Qed.

(** A hundredfold or a thousandfold within the limit is a double. *)
Lemma scaled_real (x : Q) (z : Z) :
  (Z.abs z <= 1000)%Z -> Qabs x <= 2 ^ 1013 ->
  exists y, to_double (x * inject_Z z) = Fin y /\ Qabs y <= 2 ^ 1023.
Proof.
  intros Hz Hx. apply to_double_bounded; [done|].
  rewrite Qabs_Qmult. change (Qabs (inject_Z z)) with (inject_Z (Z.abs z)).
  pose proof (Qabs_nonneg x) as H0.
  assert (inject_Z (Z.abs z) <= 2 ^ 10) as Hz'.
  { change (2 ^ 10) with (inject_Z 1024). rewrite <- Zle_Qle. lia. }
  assert (0 <= inject_Z (Z.abs z)) as Hz0.
  { change 0 with (inject_Z 0). rewrite <- Zle_Qle. lia. }
  assert (2 ^ 1023 == 2 ^ 1013 * 2 ^ 10) as -> by (rewrite <- Qpow2_add; reflexivity).
  apply Qmult_le_compat_nonneg; split; lra.
Qed.

(** After [Math.round] the quotient by a power of ten is a double. *)
Lemma unscaled_real (y : Q) (z : Z) :
  (2 <= z)%Z -> Qabs y <= 2 ^ 1023 ->
  is_real (to_double (inject_Z (round_Q y) / inject_Z z)).
Proof.
  intros Hz Hy.
  destruct (to_double_bounded (inject_Z (round_Q y) / inject_Z z) 1023)
    as (r & -> & _); [done| |done].
  assert (2 <= inject_Z z) as Hz2.
  { change 2 with (inject_Z 2). rewrite <- Zle_Qle. lia. }
  unfold Qdiv. rewrite Qabs_Qmult, Qabs_Qinv, (Qabs_pos (inject_Z z)) by lra.
  apply Qle_shift_div_r; [lra|].
  assert (Qabs (inject_Z (round_Q y)) <= Qabs y + (1 # 2)) as Hr.
  { pose proof (round_Q_near y) as Hn.
    pose proof (Qabs_triangle (inject_Z (round_Q y) - y) y) as Ht.
    assert (inject_Z (round_Q y) - y + y == inject_Z (round_Q y)) as E by ring.
    rewrite E in Ht. lra. }
  assert (1 <= 2 ^ 1023) as P1 by (apply Qle_bool_iff; vm_compute; reflexivity).
  assert (2 ^ 1023 * 2 <= 2 ^ 1023 * inject_Z z) by (apply Qmult_le_l; lra).
  lra.
Qed.

(** Within the limit [Math.round(x * 100) / 100] is a double. *)
Lemma round2_real_pow (x : Q) : Qabs x <= 2 ^ 1013 -> is_real (round2 (Fin x)).
Proof.
  intros Hx. rewrite round2_Fin.
  destruct (scaled_real x 100) as (y & -> & Hy); [done|done|].
  by apply unscaled_real.
Qed.

Lemma round2_real (x : Q) : Qabs x <= ROUND_LIMIT -> is_real (round2 (Fin x)).
Proof. intros Hx. apply round2_real_pow. pose proof limit_pow2. lra. Qed.

(** ... and it is [x] rounded to hundredths, up to the error of the one
    multiplication. *)
Lemma round2_rounded (x : Q) :
  on_grid x -> Qabs x <= 2 ^ 1013 ->
  rounded_to 2 x (Qabs x * inject_Z 100 * 2 ^ (-53)) (round2 (Fin x)).
Proof.
  intros Hg Hx. rewrite round2_Fin.
  destruct (scaled_real x 100) as (y & E & Hy); [done|done|]. rewrite E.
  exists (round_Q y). split; [reflexivity|].
  destruct (to_double_error _ _ E) as [_ Herr].
  specialize (Herr (on_grid_mul_Z x 100 Hg)).
  rewrite Qabs_Qmult in Herr. change (Qabs (inject_Z 100)) with (inject_Z 100) in Herr.
  change (inject_Z (10 ^ 2)) with (inject_Z 100).
  pose proof (round_Q_near y) as Hn.
  pose proof (Qabs_triangle (inject_Z (round_Q y) - y) (y - x * inject_Z 100)) as Ht.
  assert (inject_Z (round_Q y) - y + (y - x * inject_Z 100) ==
            inject_Z (round_Q y) - x * inject_Z 100) as Es by ring.
  rewrite Es in Ht. lra.
Qed.
End Round2Props.

Section RatioProps.
Import Metrics.
Local Open Scope Q_scope.

(** A quotient taken under the guard [den > 0] is no [NaN] when its
    numerator is finite. *)
Lemma guarded_div_not_NaN (n : Q) (den : number) :
  gt den zero = true -> div (Fin n) den <> NaN.
Proof.
  intros Hd. destruct den as [| | |d]; try done. cbn [div].
  rewrite (gt_zero_fin d Hd). apply to_double_not_NaN.
Qed.

(** A ratio with a zero numerator, taken under the guard, is zero. *)
Lemma guarded_ratio_zero (num den : number) :
  is_zero num = true -> gt den zero = true ->
  round2 (div num den) = zero.
Proof.
  intros Hn Hd. destruct num as [| | |n]; try done. cbn in Hn.
  apply Qzero_b_eq in Hn.
  destruct den as [| | |d]; try done.
  cbn [div]. rewrite (gt_zero_fin d Hd).
  rewrite (to_double_zero (n / d)) by (rewrite Hn; unfold Qdiv; ring).
  reflexivity.
Qed.
End RatioProps.

(** ** The calendar *)

Lemma all_from_spec (f : Z -> bool) (n : nat) (z : Z) :
  all_from f n z = true -> forall k, z <= k < z + Z.of_nat n -> f k = true.
Proof.
  revert z. induction n as [|n IH]; intros z H k Hk; [lia|].
  cbn [all_from] in H. apply andb_true_iff in H as [Hz Hrest].
  destruct (Z.eq_dec k z) as [->|Hne]; [done|].
  apply (IH (z + 1) Hrest). lia.
Qed.

Lemma era_days_ok : all_from era_day_ok (Z.to_nat 146097) 0 = true.
Proof. vm_compute. reflexivity. Qed.

Lemma era_day_ok_all (doe : Z) : 0 <= doe < 146097 -> era_day_ok doe = true.
Proof. intros H. apply (all_from_spec _ _ _ era_days_ok). lia. Qed.

Lemma is_leap_era (y e : Z) : is_leap (y + e * 400) = is_leap y.
Proof.
  unfold is_leap.
  replace (y + e * 400) with (y + (e * 100) * 4) at 1 by lia.
  replace (y + e * 400) with (y + (e * 4) * 100) at 1 by lia.
  by rewrite !Z.mod_add by lia.
Qed.

Lemma days_in_month_era (y e m : Z) :
  days_in_month (y + e * 400) m = days_in_month y m.
Proof. unfold days_in_month. by rewrite is_leap_era. Qed.

Lemma days_in_month_le (y m : Z) : days_in_month y m <= 31.
Proof.
  unfold days_in_month.
  repeat match goal with |- context [if ?b then _ else _] => destruct b end;
    lia.
Qed.

(** The date of a day number is a date of the calendar (month and day in
    range) and maps back to the day number. *)
Lemma days_from_civil_from_days (z : Z) :
  days_from_civil (civil_from_days z).1.1 (civil_from_days z).1.2
                  (civil_from_days z).2 = z
  /\ 1 <= (civil_from_days z).1.2 <= 12
  /\ 1 <= (civil_from_days z).2
       <= days_in_month (civil_from_days z).1.1 (civil_from_days z).1.2.
Proof.
  unfold civil_from_days. cbv zeta.
  set (era := (z + 719468) / 146097).
  set (doe := z + 719468 - era * 146097).
  assert (0 <= doe < 146097) as Hdoe.
  { subst doe era. pose proof (Z.mod_pos_bound (z + 719468) 146097 ltac:(lia)).
    rewrite Z.mod_eq in H by lia. lia. }
  pose proof (era_day_ok_all doe Hdoe) as Hok. unfold era_day_ok in Hok.
  cbv zeta in Hok.
  set (yoe := (doe - doe / 1460 + doe / 36524 - doe / 146096) / 365) in *.
  set (doy := doe - (365 * yoe + yoe / 4 - yoe / 100)) in *.
  set (mp := (5 * doy + 2) / 153) in *.
  set (d := doy - (153 * mp + 2) / 5 + 1) in *.
  set (m := if mp <? 10 then mp + 3 else mp - 9) in *.
  cbn [fst snd].
  repeat (apply andb_true_iff in Hok as [Hok ?]).
  split; [|split; [lia|]].
  - unfold days_from_civil. cbv zeta.
    set (y := if m <=? 2 then _ - 1 else _).
    assert (y = yoe + era * 400) as -> by (subst y; destruct (m <=? 2); lia).
    assert ((yoe + era * 400) / 400 = era) as ->.
    { rewrite Z.div_add by lia. rewrite Z.div_small by lia. lia. }
    replace (yoe + era * 400 - era * 400) with yoe by lia.
    apply Z.eqb_eq in H. rewrite H. subst doe. lia.
  - replace (yoe + era * 400 + (if m <=? 2 then 1 else 0))
      with (yoe + (if m <=? 2 then 1 else 0) + era * 400) by lia.
    rewrite days_in_month_era. lia.
Qed.

(** The day number is affine in the day of the month. *)
Lemma days_from_civil_day (y m d : Z) :
  days_from_civil y m d = days_from_civil y m 1 + d - 1.
Proof. unfold days_from_civil. cbv zeta. lia. Qed.

(** In a zone without transitions, moving the day of the month by [k] moves
    the time value by [k] days. *)
Lemma setDate_shift (tz t k : Z) :
  setDate (fixed_zone tz) t (getDate (fixed_zone tz) t + k) =
    TimeClip (t + k * msPerDay).
Proof.
  unfold setDate, getDate, getFullYear, getMonth, local_civil, MakeDay,
    LocalTime, UTC. cbn [fixed_zone utc_offset local_offset].
  set (L := (t + tz) / msPerDay).
  destruct (days_from_civil_from_days L) as (Hrt & Hm & _).
  set (c := civil_from_days L) in *.
  assert ((c.1.2 - 1) / 12 = 0) as -> by (apply Z.div_small; lia).
  assert ((c.1.2 - 1) mod 12 + 1 = c.1.2) as ->
    by (rewrite Z.mod_small by lia; lia).
  rewrite Z.add_0_r. rewrite days_from_civil_day in Hrt.
  f_equal. pose proof (Z.div_mod (t + tz) msPerDay ltac:(done)) as Hdm.
  fold L in Hdm. lia.
Qed.

Lemma shift_days_valid (tz t k : Z) :
  Z.abs (t + k * msPerDay) <= maxTime ->
  Resolver.shift_days (fixed_zone tz) (Some t) k = Some (t + k * msPerDay).
Proof.
  intros H. unfold Resolver.shift_days. cbn. rewrite setDate_shift.
  unfold TimeClip. by rewrite (proj2 (Z.leb_le _ _) H).
Qed.

Lemma day_shift (t k : Z) : (t + k * msPerDay) / msPerDay = t / msPerDay + k.
Proof. by rewrite Z.div_add. Qed.

Lemma length_append (s t : string) :
  String.length (s +:+ t) = (String.length s + String.length t)%nat.
Proof.
  induction s as [|a s IH]; [reflexivity|].
  rewrite append_cons. cbn [String.length]. by rewrite IH.
Qed.

Lemma substring_prefix (n : nat) (s t : string) :
  (n <= String.length s)%nat -> substring 0 n (s +:+ t) = substring 0 n s.
Proof.
  revert s. induction n as [|n IH]; intros s H.
  - destruct s; [destruct t|]; reflexivity.
  - destruct s as [|a s]; cbn [String.length] in H; [lia|].
    rewrite append_cons. cbn [substring]. rewrite IH by lia. reflexivity.
Qed.

Lemma length_repeat0 (n : nat) : String.length (repeat0 n) = n.
Proof. induction n as [|n IH]; [reflexivity|]. cbn. by rewrite IH. Qed.

Lemma length_pad0 (w : nat) (n : Z) : (w <= String.length (pad0 w n))%nat.
Proof. unfold pad0. rewrite length_append, length_repeat0. lia. Qed.

Lemma length_iso_date_part (day : Z) :
  (10 <= String.length (iso_date_part day))%nat.
Proof.
  unfold iso_date_part. destruct (civil_from_days day) as [[y m] d].
  rewrite !length_append.
  pose proof (length_pad0 2 m). pose proof (length_pad0 2 d).
  assert (4 <= String.length (iso_year y))%nat.
  { unfold iso_year. destruct ((0 <=? y) && (y <=? 9999)).
    - apply length_pad0.
    - rewrite length_append. pose proof (length_pad0 6 (Z.abs y)). lia. }
  change (String.length "-") with 1%nat. lia.
Qed.

(** The first ten characters of [toISOString] depend on the UTC day only. *)
Lemma fmt_valid (t : Z) :
  Resolver.fmt (Some t) = Ret (Resolver.date_text (t / msPerDay)).
Proof.
  unfold Resolver.fmt, Resolver.date_text, toISOString, iso_string, slice0.
  cbn. f_equal. apply substring_prefix, length_iso_date_part.
Qed.

Lemma both_valid (a b : Z) :
  Resolver.both (Some a) (Some b) =
    Ret {| Resolver.since := Resolver.date_text (a / msPerDay);
           Resolver.until := Resolver.date_text (b / msPerDay) |}.
Proof. unfold Resolver.both. by rewrite !fmt_valid. Qed.

Lemma digit_val_range (c : ascii) : is_digit c = true -> 0 <= digit_val c <= 9.
Proof.
  unfold is_digit, digit_val. intros H. apply andb_true_iff in H as [H1 H2].
  apply Nat.leb_le in H1, H2. lia.
Qed.

Lemma days_from_civil_bounds (y m d : Z) :
  0 <= y <= 9999 -> 1 <= m <= 12 -> 1 <= d <= 31 ->
  -719528 <= days_from_civil y m d <= 2932896.
Proof.
  intros Hy Hm Hd. unfold days_from_civil. cbv zeta.
  destruct (Z.leb_spec m 2), (Z.ltb_spec 2 m); try lia;
    Z.div_mod_to_equations; lia.
Qed.

Lemma digits_val_2 (a b : ascii) :
  is_digit a = true -> is_digit b = true -> 0 <= digits_val [a; b] <= 99.
Proof.
  intros Ha%digit_val_range Hb%digit_val_range. unfold digits_val. cbn. lia.
Qed.

Lemma digits_val_4 (a b c d : ascii) :
  is_digit a = true -> is_digit b = true -> is_digit c = true ->
  is_digit d = true -> 0 <= digits_val [a; b; c; d] <= 9999.
Proof.
  intros Ha%digit_val_range Hb%digit_val_range Hc%digit_val_range
         Hd%digit_val_range.
  unfold digits_val. cbn. lia.
Qed.

(** A date-only string denotes midnight of a day between 0000-01-01 and
    9999-12-31. *)
Lemma Date_parse_day (s : string) (t : Z) :
  Date_parse s = Some t ->
  exists day, t = day * msPerDay /\ -719528 <= day <= 2932896.
Proof.
  unfold Date_parse.
  destruct (list_ascii_of_string s) as [|y1 l]; [done|].
  do 9 (destruct l as [|? l]; [done|]). destruct l; [|done].
  match goal with |- context [digits_ok ?l] => destruct (digits_ok l) eqn:Hd end;
    [|by rewrite andb_false_r].
  destruct (_ && _ && true); [|done]. cbv zeta.
  cbn [digits_ok forallb] in Hd.
  repeat (apply andb_true_iff in Hd as [? Hd]).
  match goal with |- context [if ?b then _ else _] => destruct b eqn:Hr end;
    [|done].
  intros [= <-]. eexists. split; [reflexivity|].
  repeat (apply andb_true_iff in Hr as [Hr ?]).
  match goal with
  | |- context [days_from_civil ?y ?m ?d] =>
      pose proof (days_in_month_le y m);
      apply (days_from_civil_bounds y m d)
  end; [by apply digits_val_4 | lia | lia].
Qed.

Lemma round_Q_days (k : Z) :
  round_Q (inject_Z (k * msPerDay) / inject_Z msPerDay) = k.
Proof.
  unfold round_Q, Qfloor, Qdiv, Qinv, Qmult, Qplus, inject_Z, msPerDay.
  cbn. symmetry. apply (Z.div_unique _ _ _ 86400000); lia.
Qed.

Lemma pad_ok_4 (n : Z) : 0 <= n <= 9999 -> pad_ok 4 n = true.
Proof.
  intros H.
  assert (all_from (pad_ok 4) (Z.to_nat 10000) 0 = true) as Hall
    by (vm_compute; reflexivity).
  apply (all_from_spec _ _ _ Hall). lia.
Qed.

Lemma pad_ok_2 (n : Z) : 0 <= n <= 99 -> pad_ok 2 n = true.
Proof.
  intros H.
  assert (all_from (pad_ok 2) (Z.to_nat 100) 0 = true) as Hall
    by (vm_compute; reflexivity).
  apply (all_from_spec _ _ _ Hall). lia.
Qed.

Lemma list_ascii_of_append (s t : string) :
  list_ascii_of_string (s +:+ t) =
    list_ascii_of_string s ++ list_ascii_of_string t.
Proof.
  induction s as [|a s IH]; [reflexivity|].
  rewrite append_cons. cbn [list_ascii_of_string app]. by rewrite IH.
Qed.

Lemma length_list_ascii (s : string) :
  List.length (list_ascii_of_string s) = String.length s.
Proof. induction s as [|a s IH]; [reflexivity|]. cbn. by rewrite IH. Qed.

Lemma substring_all (s : string) : substring 0 (String.length s) s = s.
Proof. induction s as [|a s IH]; [reflexivity|]. cbn. by rewrite IH. Qed.

(** A day of the years 0000 to 9999 is read back from its text. *)
Lemma date_text_round_trip (day : Z) :
  0 <= (civil_from_days day).1.1 <= 9999 ->
  Date_parse (Resolver.date_text day) = Some (day * msPerDay).
Proof.
  intros Hy. destruct (days_from_civil_from_days day) as (Hrt & Hm & Hd).
  unfold Resolver.date_text, iso_date_part, iso_year, slice0.
  destruct (civil_from_days day) as [[y m] d]. cbn [fst snd] in *.
  assert ((0 <=? y) && (y <=? 9999) = true) as -> by lia.
  pose proof (days_in_month_le y m) as Hdim.
  pose proof (pad_ok_4 y Hy) as Py.
  pose proof (pad_ok_2 m ltac:(lia)) as Pm.
  pose proof (pad_ok_2 d ltac:(lia)) as Pd.
  unfold pad_ok in Py, Pm, Pd. cbv zeta in Py, Pm, Pd.
  apply andb_true_iff in Py as [Py Vy], Pm as [Pm Vm], Pd as [Pd Vd].
  apply andb_true_iff in Py as [Ly Oy], Pm as [Lm Om], Pd as [Ld Od].
  apply Nat.eqb_eq in Ly, Lm, Ld. apply Z.eqb_eq in Vy, Vm, Vd.
  set (s := pad0 4 y +:+ "-" +:+ pad0 2 m +:+ "-" +:+ pad0 2 d).
  assert (list_ascii_of_string s =
            list_ascii_of_string (pad0 4 y) ++ "-"%char ::
            list_ascii_of_string (pad0 2 m) ++ "-"%char ::
            list_ascii_of_string (pad0 2 d)) as Hs
    by (subst s; rewrite !list_ascii_of_append; reflexivity).
  assert (String.length s = 10%nat) as Hlen.
  { rewrite <- length_list_ascii, Hs, !length_app. cbn [List.length].
    rewrite !length_app. cbn [List.length]. lia. }
  replace 10%nat with (String.length s) by done. rewrite substring_all.
  unfold Date_parse. rewrite Hs.
  destruct (list_ascii_of_string (pad0 4 y)) as [|y1 [|y2 [|y3 [|y4 [|? ?]]]]];
    try discriminate Ly.
  destruct (list_ascii_of_string (pad0 2 m)) as [|m1 [|m2 [|? ?]]];
    try discriminate Lm.
  destruct (list_ascii_of_string (pad0 2 d)) as [|d1 [|d2 [|? ?]]];
    try discriminate Ld.
  cbn [app]. cbn [digits_ok forallb] in *.
  repeat match goal with
         | H : _ && _ = true |- _ => apply andb_true_iff in H as [? ?]
         end.
  repeat match goal with
         | H : is_digit _ = true |- _ => rewrite H
         end.
  cbn [Ascii.eqb Bool.eqb andb]. rewrite Vy, Vm, Vd.
  assert ((1 <=? m) && (m <=? 12) && (1 <=? d) && (d <=? days_in_month y m)
          = true) as -> by lia.
  by rewrite Hrt.
Qed.

(** X5. For a day of the years 0000 to 9999 the text
    [toISOString().slice(0, 10)] gives is the date-only ISO form of that
    day: parsing it with [new Date] gives back midnight of the day. *)
Lemma date_text_parse (day : Z) :
  0 <= (civil_from_days day).1.1 <= 9999 ->
  Date_parse (Resolver.date_text day) = Some (day * msPerDay).
Proof. exact (date_text_round_trip day). Qed.

Lemma date_text_parse_witness :
  Date_parse (Resolver.date_text 20162) = Some (20162 * msPerDay).
Proof.
  apply (date_text_parse 20162).
  change (civil_from_days 20162).1.1 with 2025. lia.
Defined.

(** ** Decimal numerals *)

Lemma digit_char_spec (k : Z) :
  0 <= k <= 9 -> is_digit (digit_char k) = true /\ digit_val (digit_char k) = k.
Proof.
  intros H.
  assert (k = 0 \/ k = 1 \/ k = 2 \/ k = 3 \/ k = 4 \/ k = 5 \/ k = 6 \/ k = 7
          \/ k = 8 \/ k = 9) as Hk by lia.
  repeat (destruct Hk as [-> | Hk]; [by split|]). subst k. by split.
Qed.

Lemma digits_val_snoc (ds : list ascii) (c : ascii) :
  digits_val (ds ++ [c]) = 10 * digits_val ds + digit_val c.
Proof. unfold digits_val. by rewrite fold_left_app. Qed.

Lemma string_of_snoc (ds : list ascii) (c : ascii) (acc : string) :
  string_of_list_ascii (ds ++ [c]) +:+ acc =
    string_of_list_ascii ds +:+ String c acc.
Proof.
  induction ds as [|a ds IH]; [reflexivity|].
  cbn [app string_of_list_ascii]. by rewrite !append_cons, IH.
Qed.

Lemma dec_digits_S (f : nat) (n : Z) (acc : string) :
  dec_digits (S f) n acc =
    if n / 10 =? 0 then String (digit_char (n mod 10)) acc
    else dec_digits f (n / 10) (String (digit_char (n mod 10)) acc).
Proof. reflexivity. Qed.

(** With enough fuel the digits produced are the decimal numeral of [n],
    most significant first, put in front of the accumulator. *)
Lemma dec_digits_spec (f : nat) :
  forall (n : Z) (acc : string),
    0 <= n < 2 ^ Z.of_nat (S f) ->
    exists ds,
      dec_digits (S f) n acc = string_of_list_ascii ds +:+ acc
      /\ digits_ok ds = true /\ ds <> [] /\ digits_val ds = n.
Proof.
  induction f as [|f IH]; intros n acc Hn.
  - assert (n / 10 = 0) as Hq by (apply Z.div_small; cbn in Hn; lia).
    assert (n mod 10 = n) as Hr by (apply Z.mod_small; cbn in Hn; lia).
    destruct (digit_char_spec n) as [Hd Hv]; [cbn in Hn; lia|].
    exists [digit_char n]. rewrite dec_digits_S, Hq, Hr. cbn [Z.eqb].
    repeat split; [by cbn; rewrite Hd | done | by unfold digits_val; cbn; rewrite Hv].
  - pose proof (Z.mod_pos_bound n 10 ltac:(lia)) as Hm.
    destruct (digit_char_spec (n mod 10)) as [Hd Hv]; [lia|].
    rewrite dec_digits_S. destruct (Z.eqb_spec (n / 10) 0) as [Hq|Hq].
    + assert (n = n mod 10) as Hr
        by (pose proof (Z.div_mod n 10 ltac:(lia)); lia).
      exists [digit_char (n mod 10)].
      repeat split; [by cbn; rewrite Hd | done |].
      unfold digits_val. cbn. rewrite Hv. lia.
    + destruct (IH (n / 10) (String (digit_char (n mod 10)) acc))
        as (ds & Hrun & Hok & Hne & Hval).
      { split; [apply Z.div_pos; lia|].
        apply Z.div_lt_upper_bound; [lia|].
        rewrite (Nat2Z.inj_succ (S f)), Z.pow_succ_r in Hn by lia. lia. }
      exists (ds ++ [digit_char (n mod 10)]). rewrite Hrun.
      split; [by rewrite string_of_snoc|]. split.
      { unfold digits_ok in *. rewrite forallb_app, Hok. cbn. by rewrite Hd. }
      split; [by destruct ds|].
      rewrite digits_val_snoc, Hval, Hv.
      pose proof (Z.div_mod n 10 ltac:(lia)). lia.
Qed.

(** The numeral of a positive integer: a non-empty run of digits whose value
    is the integer. *)
Lemma Z_to_string_digits (n : Z) :
  0 < n ->
  exists ds,
    Z_to_string n = string_of_list_ascii ds
    /\ digits_ok ds = true /\ ds <> [] /\ digits_val ds = n.
Proof.
  intros Hn. unfold Z_to_string, nat_to_string.
  assert ((n <? 0) = false) as -> by lia.
  destruct (dec_digits_spec (Z.to_nat (Z.log2 n)) n "") as (ds & H & ?).
  { split; [lia|]. rewrite Nat2Z.inj_succ, Z2Nat.id by apply Z.log2_nonneg.
    apply Z.log2_spec. lia. }
  exists ds. by rewrite H, append_nil_r.
Qed.

Lemma span_digits_numeral (ds : list ascii) :
  digits_ok ds = true ->
  span_digits (string_of_list_ascii ds +:+ "d") = (ds, "d").
Proof.
  induction ds as [|c ds IH]; intros H; [reflexivity|].
  cbn [digits_ok forallb] in H. apply andb_true_iff in H as [Hc Hds].
  cbn [string_of_list_ascii]. rewrite append_cons. cbn [span_digits].
  rewrite Hc. unfold digits_ok in IH. by rewrite (IH Hds).
Qed.

Lemma match_last_Nd_prefix (rest : string) :
  Resolver.match_last_Nd ("last_" +:+ rest) =
    match span_digits rest with
    | (d :: ds, String "d" EmptyString) => Some (d :: ds)
    | _ => None
    end.
Proof. reflexivity. Qed.

Lemma match_last_Nd_numeral (ds : list ascii) :
  digits_ok ds = true -> ds <> [] ->
  Resolver.match_last_Nd ("last_" +:+ string_of_list_ascii ds +:+ "d") = Some ds.
Proof.
  intros Hok Hne. rewrite match_last_Nd_prefix, span_digits_numeral by done.
  by destruct ds.
Qed.

(** ** The retry loop *)

Section ExecutorProps.
Import Executor.
Context {json : Type}.
Variable error_of : json -> option ErrorObj.
Variable stringify : json -> string.
Variable method path : string.
Variable op : nat -> attempt_result json.
Variable retries : nat.

Abbreviation run := (attempts json error_of stringify method path op retries).

Lemma fetch_count_app tr1 tr2 :
  fetch_count (tr1 ++ tr2) = (fetch_count tr1 + fetch_count tr2)%nat.
Proof.
  unfold fetch_count. by rewrite List.filter_app, length_app.
Qed.

Lemma sleeps_app tr1 tr2 : sleeps (tr1 ++ tr2) = sleeps tr1 ++ sleeps tr2.
Proof. unfold sleeps. apply omap_app. Qed.

(** A status of 500 or more on every attempt: the loop uses every
    iteration it has and ends with that status. *)
Lemma attempts_server_error (status : Z) (bodies : nat -> json) :
  500 <= status ->
  (forall n, op n = Responded status (bodies n)) ->
  forall left a, (a + left = S retries)%nat -> (0 < left)%nat ->
    exists tr,
      run left a =
        (tr, Throw (ApiError (errDetail json error_of stringify status
                                        (bodies retries)) status))
      /\ fetch_count tr = left
      /\ sleeps tr = backoff a (left - 1).
Proof.
  intros Hs Hop left. induction left as [|left IH]; intros a Ha Hl; [lia|].
  cbn [attempts]. rewrite Hop.
  assert (ok status = false) as -> by (unfold ok; lia).
  assert ((400 <=? status) && (status <? 500) = false) as -> by lia.
  destruct (Nat.ltb_spec a retries) as [Hlt|Hge].
  - destruct (IH (S a)) as (tr & Hrun & Hc & Hsl); [lia | lia |].
    rewrite Hrun. eexists. split; [reflexivity|]. cbn [fst snd].
    split.
    + rewrite !fetch_count_app, Hc. reflexivity.
    + rewrite !sleeps_app, Hsl. cbn.
      replace (left - 0)%nat with (S (left - 1)) by lia. reflexivity.
  - assert (a = retries) as -> by lia.
    assert (left = 0%nat) as -> by lia.
    eexists. split; [reflexivity|]. split; reflexivity.
Qed.

(** A 4xx status on the first attempt reached ends the call there. *)
Lemma attempts_client_error (status : Z) (body : json) left a :
  400 <= status < 500 ->
  op a = Responded status body ->
  run (S left) a =
    ([Fetch a; Log "error" ("Meta API error on " +:+ method +:+ " " +:+ path)],
     Throw (ApiError (errDetail json error_of stringify status body) status)).
Proof.
  intros Hs Hop. cbn [attempts]. rewrite Hop.
  assert (ok status = false) as -> by (unfold ok; lia).
  assert ((400 <=? status) && (status <? 500) = true) as -> by lia.
  reflexivity.
Qed.

(** While the outcomes are retryable and attempts remain, the loop moves
    on to the next attempt: the run from [a] is a prefix of [k] rounds
    followed by the run from [a + k]. *)
Lemma attempts_skip_retryable k :
  forall left a,
    (a + k <= retries)%nat ->
    (forall i, (a <= i < a + k)%nat -> retryable (op i) = true) ->
    exists pre,
      run (k + left) a = prepend pre (run left (a + k))
      /\ fetch_count pre = k
      /\ sleeps pre = backoff a k.
Proof.
  induction k as [|k IH]; intros left a Hk Hr.
  - exists []. rewrite Nat.add_0_r. cbn [Nat.add]. unfold prepend.
    by destruct (run left a).
  - destruct (IH left (S a)) as (pre & Hrun & Hc & Hsl); [lia | |].
    { intros i Hi. apply Hr. lia. }
    specialize (Hr a ltac:(lia)).
    replace (a + S k)%nat with (S a + k)%nat by lia.
    change (S k + left)%nat with (S (k + left)).
    cbn [attempts]. rewrite Hrun.
    assert ((a <? retries)%nat = true) as Hlt by (apply Nat.ltb_lt; lia).
    destruct (op a) as [status body| |msg]; cbn in Hr; [|done|].
    + apply andb_true_iff in Hr as [Hok H4].
      apply negb_true_iff in Hok, H4. rewrite Hok, H4, Hlt.
      eexists. split.
      { unfold prepend. cbn [fst snd]. rewrite app_assoc. reflexivity. }
      split.
      * rewrite !fetch_count_app, Hc. reflexivity.
      * rewrite !sleeps_app, Hsl. reflexivity.
    + rewrite Hlt. eexists. split.
      { unfold prepend. cbn [fst snd]. rewrite app_assoc. reflexivity. }
      split.
      * rewrite !fetch_count_app, Hc. reflexivity.
      * rewrite !sleeps_app, Hsl. reflexivity.
Qed.

Abbreviation request :=
  (graphRequest json error_of stringify method path op retries).

(** C2, amended. A deadline that is exceeded is not retried.  When the
    attempts before the [k]-th failed in a retryable way and the [k]-th is
    aborted by the timer, the executor raises the timeout error (status
    408) at that attempt: it has made [k + 1] attempts and slept only for
    the [k] earlier failures, however many attempts remain. *)
Theorem timeout_surfaces_at_once (k : nat) :
  (k <= retries)%nat ->
  (forall i, (i < k)%nat -> retryable (op i) = true) ->
  op k = Aborted ->
  exists tr,
    request = (tr, Throw (ApiError "Request timed out after 30000ms" 408))
    /\ fetch_count tr = S k
    /\ sleeps tr = backoff 0 k
    /\ kind_of_status 408 = timeout.
Proof.
  intros Hk Hr Hop.
  destruct (attempts_skip_retryable k (S (retries - k)) 0%nat)
    as (pre & Hrun & Hc & Hsl); [lia | intros i Hi; apply Hr; lia |].
  unfold graphRequest.
  replace (S retries) with (k + S (retries - k))%nat by lia.
  rewrite Hrun. cbn [attempts Nat.add]. rewrite Hop.
  eexists. split; [reflexivity|]. cbn [fst snd]. split; [|split].
  - rewrite fetch_count_app, Hc. cbn. lia.
  - rewrite sleeps_app, Hsl. cbn. by rewrite app_nil_r.
  - reflexivity.
Qed.

(** X6. A call whose every attempt ends in an exception other than the
    abort (a connection failure, or a response whose body is not JSON) is
    retried with the same backoff and then surfaces as an [ApiError] with
    status 0, a network error. *)
Theorem network_failure_retried (msgs : nat -> string) :
  (forall n, op n = Failed (msgs n)) ->
  exists tr,
    request = (tr, Throw (ApiError ("Network error: " +:+ msgs retries) 0))
    /\ fetch_count tr = S retries
    /\ sleeps tr = backoff 0 retries
    /\ kind_of_status 0 = network.
Proof.
  intros Hop.
  destruct (attempts_skip_retryable retries 1 0%nat)
    as (pre & Hrun & Hc & Hsl); [lia | intros i _; by rewrite Hop |].
  unfold graphRequest. replace (S retries) with (retries + 1)%nat by lia.
  rewrite Hrun. cbn [attempts Nat.add]. rewrite Hop, Nat.ltb_irrefl.
  eexists. split; [reflexivity|]. cbn [fst snd]. split; [|split].
  - rewrite fetch_count_app, Hc. cbn. lia.
  - rewrite sleeps_app, Hsl. cbn. by rewrite app_nil_r.
  - reflexivity.
Qed.

(** X7. The first success ends the call: when the attempts before the
    [k]-th failed in a retryable way and the [k]-th yields a 2xx response,
    the executor returns its body after [k + 1] attempts. *)
Theorem success_after_retries (k : nat) (status : Z) (body : json) :
  (k <= retries)%nat ->
  (forall i, (i < k)%nat -> retryable (op i) = true) ->
  op k = Responded status body ->
  200 <= status <= 299 ->
  exists tr,
    request = (tr, Ret body)
    /\ fetch_count tr = S k
    /\ sleeps tr = backoff 0 k.
Proof.
  intros Hk Hr Hop Hs.
  destruct (attempts_skip_retryable k (S (retries - k)) 0%nat)
    as (pre & Hrun & Hc & Hsl); [lia | intros i Hi; apply Hr; lia |].
  unfold graphRequest.
  replace (S retries) with (k + S (retries - k))%nat by lia.
  rewrite Hrun. cbn [attempts Nat.add]. rewrite Hop.
  assert (ok status = true) as -> by (unfold ok; lia).
  eexists. split; [reflexivity|]. cbn [fst snd]. split.
  - rewrite fetch_count_app, Hc. cbn. lia.
  - rewrite sleeps_app, Hsl. cbn. by rewrite app_nil_r.
Qed.
End ExecutorProps.

Section ExecutorBodies.
Import Executor.
Context {json : Type}.
Variable error_of : json -> option ErrorObj.
Variable stringify : json -> string.
Variable JSON_parse : string -> json + string.
Variable method path : string.
Variable net : nat -> fetched.
Variable retries : nat.

Abbreviation op := (fun n => attempt_of JSON_parse (net n)).
Abbreviation request :=
  (graphRequest json error_of stringify method path op retries).

(** C1. The claim holds of responses whose body is JSON: when every
    attempt yields an HTTP 503 response the executor makes exactly
    [retries + 1] attempts, sleeping [RETRY_DELAY_MS * (i + 1)] after
    attempt [i], and then raises an [ApiError] with status 503; when every
    attempt yields an HTTP 404 response it makes exactly one attempt and
    raises the [ApiError] with status 404 at once.  It fails when the body
    is no JSON: whatever the status, 404 and 503 included, every attempt is
    retried like a network failure, and after [retries + 1] attempts the
    executor raises an [ApiError] with status 0. *)
Theorem retry_bound :
  (forall bodies : nat -> json,
     (forall n, exists text,
        net n = Answered 503 text /\ JSON_parse text = inl (bodies n)) ->
     exists tr,
       request =
         (tr, Throw (ApiError (errDetail json error_of stringify 503
                                         (bodies retries)) 503))
       /\ fetch_count tr = S retries
       /\ sleeps tr = backoff 0 retries)
  /\ (forall bodies : nat -> json,
        (forall n, exists text,
           net n = Answered 404 text /\ JSON_parse text = inl (bodies n)) ->
        exists tr,
          request =
            (tr, Throw (ApiError (errDetail json error_of stringify 404
                                            (bodies 0%nat)) 404))
          /\ fetch_count tr = 1%nat
          /\ sleeps tr = [])
  /\ (forall (status : Z) (msgs : nat -> string),
        (forall n, exists text,
           net n = Answered status text /\ JSON_parse text = inr (msgs n)) ->
        exists tr,
          request =
            (tr, Throw (ApiError ("Network error: " +:+ msgs retries) 0))
          /\ fetch_count tr = S retries
          /\ sleeps tr = backoff 0 retries).
Proof.
  split; [|split].
  - intros bodies Hnet.
    assert (forall n, op n = Responded 503 (bodies n)) as Hop.
    { intros n. destruct (Hnet n) as (text & E & Hp). cbv beta.
      unfold attempt_of. by rewrite E, Hp. }
    destruct (attempts_server_error error_of stringify method path op retries
                503 bodies ltac:(lia) Hop (S retries) 0%nat)
      as (tr & Hrun & Hc & Hsl); [lia | lia |].
    exists tr. unfold graphRequest. rewrite Hrun.
    replace (S retries - 1)%nat with retries in Hsl by lia. done.
  - intros bodies Hnet.
    assert (op 0%nat = Responded 404 (bodies 0%nat)) as Hop.
    { destruct (Hnet 0%nat) as (text & E & Hp). cbv beta.
      unfold attempt_of. by rewrite E, Hp. }
    eexists. unfold graphRequest.
    rewrite (attempts_client_error error_of stringify method path op retries
               404 (bodies 0%nat)); [|lia|apply Hop].
    done.
  - intros status msgs Hnet.
    assert (forall n, op n = Failed (msgs n)) as Hop.
    { intros n. destruct (Hnet n) as (text & E & Hp). cbv beta.
      unfold attempt_of. by rewrite E, Hp. }
    destruct (attempts_skip_retryable error_of stringify method path op retries
                retries 1 0%nat)
      as (pre & Hrun & Hc & Hsl); [lia | intros i _; by rewrite Hop |].
    unfold graphRequest. replace (S retries) with (retries + 1)%nat by lia.
    rewrite Hrun. cbn [attempts Nat.add]. rewrite Hop, Nat.ltb_irrefl.
    eexists. split; [reflexivity|]. cbn [fst snd]. split.
    + rewrite fetch_count_app, Hc. cbn. lia.
    + rewrite sleeps_app, Hsl. cbn. by rewrite app_nil_r.
Qed.
End ExecutorBodies.

(** The failing input of C1: a 404 whose body is a page of HTML, on every
    attempt, with the two retries of the source.  Three fetches and two
    sleeps are made, and the error raised has status 0. *)
Lemma retry_bound_witness :
  exists tr,
    Executor.graphRequest string (fun _ => None) id "GET" "/123"
      (fun n => Executor.attempt_of Samples.parse_object
                  (Samples.not_found_page n)) 2 =
      (tr, Throw (ApiError
                    "Network error: Unexpected token < in JSON at position 0"
                    0))
    /\ Executor.fetch_count tr = 3%nat
    /\ Executor.sleeps tr = [1000; 2000].
Proof.
  apply (proj2 (proj2 (retry_bound (fun _ => None) id Samples.parse_object
                         "GET" "/123" Samples.not_found_page 2))
           404 (fun _ => "Unexpected token < in JSON at position 0")).
  intros n. eexists. split; reflexivity.
Defined.

Lemma network_failure_retried_witness :
  exists tr,
    Executor.graphRequest string (fun _ => None) id "GET" "/act_1/insights"
      (fun _ => Executor.Failed "Unexpected token < in JSON") 2 =
      (tr, Throw (ApiError "Network error: Unexpected token < in JSON" 0))
    /\ Executor.fetch_count tr = 3%nat
    /\ Executor.sleeps tr = [1000; 2000]
    /\ Executor.kind_of_status 0 = Executor.network.
Proof.
  apply (network_failure_retried (fun _ => None) id "GET" "/act_1/insights"
           (fun _ => Executor.Failed "Unexpected token < in JSON") 2
           (fun _ => "Unexpected token < in JSON")).
  reflexivity.
Defined.

Lemma success_after_retries_witness :
  exists tr,
    Executor.graphRequest string (fun _ => None) id "GET" "/act_1/insights"
      (fun n => match n with
                | O => Executor.Responded 502 "Bad Gateway"
                | _ => Executor.Responded 200 "{}"
                end) 2 = (tr, Ret "{}")
    /\ Executor.fetch_count tr = 2%nat
    /\ Executor.sleeps tr = [1000].
Proof.
  apply (success_after_retries (fun _ => None) id "GET" "/act_1/insights"
           (fun n => match n with
                     | O => Executor.Responded 502 "Bad Gateway"
                     | _ => Executor.Responded 200 "{}"
                     end) 2 1 200 "{}").
  - lia.
  - intros i Hi. assert (i = 0%nat) as -> by lia. reflexivity.
  - reflexivity.
  - lia.
Defined.

(** C2 as stated fails: with two retries left, an attempt that hits the
    deadline is followed by no sleep and no second attempt; the timeout error
    is raised after the first attempt. *)
Lemma timeout_retry_counterexample :
  let r := Executor.graphRequest string (fun _ => None) id "GET"
             "/act_1/insights" (fun _ => Executor.Aborted) 2 in
  r = ([Executor.Fetch 0],
       Throw (ApiError "Request timed out after 30000ms" 408))
  /\ ~ (In (Executor.Fetch 1) r.1 /\ exists ms, In (Executor.Sleep ms) r.1).
Proof.
  split; [reflexivity|]. cbn. intros [[H|[]] _]. discriminate H.
Qed.

Lemma timeout_surfaces_at_once_witness :
  exists tr,
    Executor.graphRequest string (fun _ => None) id "GET" "/act_1/insights"
      (fun n => match n with
                | O => Executor.Failed "socket hang up"
                | _ => Executor.Aborted
                end) 2 =
      (tr, Throw (ApiError "Request timed out after 30000ms" 408))
    /\ Executor.fetch_count tr = 2%nat
    /\ Executor.sleeps tr = [1000]
    /\ Executor.kind_of_status 408 = Executor.timeout.
Proof.
  apply (timeout_surfaces_at_once (fun _ => None) id "GET" "/act_1/insights"
           (fun n => match n with
                     | O => Executor.Failed "socket hang up"
                     | _ => Executor.Aborted
                     end) 2 1).
  - lia.
  - intros i Hi. assert (i = 0%nat) as -> by lia. reflexivity.
  - reflexivity.
Defined.

Lemma dec_digits_length (f : nat) :
  forall (k : nat) (n : Z) (acc : string),
    0 <= n < 10 ^ Z.of_nat (S k) ->
    (String.length (dec_digits f n acc) <= S k + String.length acc)%nat.
Proof.
  induction f as [|f IH]; intros k n acc Hn; [cbn; lia|].
  rewrite dec_digits_S. destruct (Z.eqb_spec (n / 10) 0) as [E|E].
  - cbn [String.length]. lia.
  - destruct k as [|k].
    + exfalso. apply E. apply Z.div_small. cbn in Hn. lia.
    + specialize (IH k (n / 10) (String (digit_char (n mod 10)) acc)).
      cbn [String.length] in IH.
      assert (0 <= n / 10 < 10 ^ Z.of_nat (S k)) as H.
      { replace (Z.of_nat (S (S k))) with (Z.of_nat (S k) + 1) in Hn by lia.
        rewrite Z.pow_add_r in Hn by lia.
        split; [apply Z.div_pos; lia|]. apply Z.div_lt_upper_bound; lia. }
      specialize (IH H). lia.
Qed.

(** Padding a number of at most [w] digits gives exactly [w] characters. *)
Lemma pad0_length (w : nat) (n : Z) :
  0 <= n < 10 ^ Z.of_nat (S w) / 10 -> (1 <= w)%nat ->
  String.length (pad0 w n) = w.
Proof.
  intros Hn Hw. destruct w as [|w]; [lia|].
  replace (Z.of_nat (S (S w))) with (Z.of_nat (S w) + 1) in Hn by lia.
  rewrite Z.pow_add_r, Z.div_mul in Hn by lia.
  unfold pad0. cbv zeta. rewrite length_append, length_repeat0.
  pose proof (dec_digits_length (S (Z.to_nat (Z.log2 n))) w n "" Hn) as H.
  fold (nat_to_string n) in H. cbn [String.length] in H. lia.
Qed.

(** The years of the days a [Date] can hold have at most six digits. *)
Lemma year_bound (day : Z) :
  - 100000000 <= day <= 100000000 ->
  - 300000 < (civil_from_days day).1.1 < 300000.
Proof.
  intros H. unfold civil_from_days. cbv zeta.
  set (era := (day + 719468) / 146097).
  set (doe := day + 719468 - era * 146097).
  assert (0 <= doe < 146097) as Hdoe.
  { subst doe era. pose proof (Z.mod_pos_bound (day + 719468) 146097 ltac:(lia)).
    rewrite Z.mod_eq in H0 by lia. lia. }
  pose proof (era_day_ok_all doe Hdoe) as Hok. unfold era_day_ok in Hok.
  cbv zeta in Hok.
  set (yoe := (doe - doe / 1460 + doe / 36524 - doe / 146096) / 365) in *.
  repeat (apply andb_true_iff in Hok as [Hok ?]).
  cbn [fst snd].
  assert (- 700 <= era <= 700) by (subst era; lia).
  destruct (_ <=? 2); lia.
Qed.

(** Outside the years 0000 to 9999 the first ten characters of the ISO text
    are the sign, six digits of the year, a hyphen and the month: the day of
    the month is cut off. *)
Lemma date_text_expanded (day : Z) :
  - 100000000 <= day <= 100000000 ->
  ~ 0 <= (civil_from_days day).1.1 <= 9999 ->
  Resolver.date_text day =
    (if (civil_from_days day).1.1 <? 0 then "-" else "+") +:+
    pad0 6 (Z.abs (civil_from_days day).1.1) +:+ "-" +:+
    pad0 2 (civil_from_days day).1.2.
Proof.
  intros Hday Hy. pose proof (year_bound day Hday) as Hb.
  destruct (days_from_civil_from_days day) as (_ & Hm & _).
  unfold Resolver.date_text, iso_date_part, iso_year, slice0.
  destruct (civil_from_days day) as [[y m] d]. cbn [fst snd] in *.
  assert ((0 <=? y) && (y <=? 9999) = false) as -> by lia.
  set (sg := if y <? 0 then "-" else "+").
  set (head := sg +:+ pad0 6 (Z.abs y) +:+ "-" +:+ pad0 2 m).
  assert (String.length head = 10%nat) as Hlen.
  { subst head. rewrite !length_append.
    rewrite (pad0_length 6)
      by (try change (10 ^ Z.of_nat 7 / 10) with 1000000; lia).
    rewrite (pad0_length 2)
      by (try change (10 ^ Z.of_nat 3 / 10) with 100; lia).
    subst sg. by destruct (y <? 0). }
  replace ((sg +:+ pad0 6 (Z.abs y)) +:+ "-" +:+ pad0 2 m +:+ "-" +:+ pad0 2 d)
    with (head +:+ "-" +:+ pad0 2 d).
  - rewrite substring_prefix by lia. rewrite <- Hlen. apply substring_all.
  - subst head. first [by rewrite !append_assoc | by rewrite <- !append_assoc].
Qed.

(** ** The date range resolver *)

Section ResolverProps.
Import Resolver.
Variable tz : Z.

(** A host zone at the constant offset [tz]. *)
Abbreviation zone := (fixed_zone tz).

(** C10. An explicit range object is returned as it is, whatever it holds:
    nothing is validated, so a range whose [since] lies after its [until]
    passes through unchanged. *)
Theorem explicit_range_passthrough (now : Z) (range : DateRange) :
  resolveDateRange zone now (Explicit range) = Ret range.
Proof. reflexivity. Qed.

(** X1. On a host whose zone keeps a constant offset from UTC: for a range
    of two calendar dates with [since <= until], the previous period ends on
    the day before [since] and has as many days as the range itself. *)
Theorem previous_period_adjacent (since until : string) (sd ud : Z) :
  Date_parse since = Some (sd * msPerDay) ->
  Date_parse until = Some (ud * msPerDay) ->
  sd <= ud ->
  exists ps pu,
    getPreviousPeriod zone since until =
      Ret {| Resolver.since := date_text ps; Resolver.until := date_text pu |}
    /\ pu = sd - 1
    /\ pu - ps + 1 = ud - sd + 1.
Proof.
  intros Hs Hu Hle.
  destruct (Date_parse_day _ _ Hs) as (d1 & E1 & B1).
  destruct (Date_parse_day _ _ Hu) as (d2 & E2 & B2).
  assert (d1 = sd) as -> by (unfold msPerDay in E1; lia).
  assert (d2 = ud) as -> by (unfold msPerDay in E2; lia).
  exists (sd - 1 - (ud - sd)), (sd - 1). split; [|lia].
  unfold getPreviousPeriod. rewrite Hs, Hu. cbn [mbind option_bind].
  replace (ud * msPerDay - sd * msPerDay) with ((ud - sd) * msPerDay) by lia.
  rewrite round_Q_days, shift_days_valid
    by (unfold msPerDay, maxTime; lia).
  cbn [mbind option_bind].
  replace (getDate zone (sd * msPerDay + -1 * msPerDay) - (ud - sd + 1) + 1)
    with (getDate zone (sd * msPerDay + -1 * msPerDay) + (sd - ud)) by lia.
  rewrite setDate_shift. unfold TimeClip.
  rewrite (proj2 (Z.leb_le _ _)) by (unfold msPerDay, maxTime; lia).
  rewrite both_valid, !day_shift, Z.div_mul by done.
  do 3 f_equal; lia.
Qed.

Lemma resolve_default (now : Z) (name : string) :
  ~ In name vocabulary ->
  forall days,
    days = match match_last_Nd name with
           | Some ds => digits_val ds
           | None => 7
           end ->
    0 < days ->
    - maxTime + days * msPerDay <= now <= maxTime ->
    resolveDateRange zone now (Preset name) = Ret (last_days now days).
Proof.
  intros Hv days Hdays Hpos Hnow. unfold resolveDateRange.
  repeat match goal with
         | |- context [String.eqb name ?w] =>
             destruct (String.eqb_spec name w) as [->|_];
             [exfalso; apply Hv; cbn; tauto|]
         end.
  rewrite <- Hdays.
  rewrite shift_days_valid by (unfold msPerDay, maxTime in *; lia).
  rewrite shift_days_valid by (unfold msPerDay, maxTime in *; lia).
  rewrite both_valid, !day_shift. unfold last_days. cbv zeta.
  do 3 f_equal; lia.
Qed.

(** When the instant [days] days before now lies before the first one a
    [Date] can hold, [since] is an invalid date and formatting it throws. *)
Lemma resolve_default_out_of_range (now : Z) (name : string) :
  ~ In name vocabulary ->
  forall days,
    days = match match_last_Nd name with
           | Some ds => digits_val ds
           | None => 7
           end ->
    0 < days ->
    - maxTime <= now <= maxTime ->
    now < - maxTime + days * msPerDay ->
    resolveDateRange zone now (Preset name) =
      Throw (RangeError "Invalid time value").
Proof.
  intros Hv days Hdays Hpos Hnow Hout. unfold resolveDateRange.
  repeat match goal with
         | |- context [String.eqb name ?w] =>
             destruct (String.eqb_spec name w) as [->|_];
             [exfalso; apply Hv; cbn; tauto|]
         end.
  rewrite <- Hdays.
  destruct (Z_le_gt_dec (- maxTime + msPerDay) now) as [Hu|Hu].
  - rewrite shift_days_valid by (unfold msPerDay, maxTime in *; lia).
    unfold shift_days at 1. cbn [mbind option_bind].
    rewrite setDate_shift. unfold TimeClip.
    rewrite (proj2 (Z.leb_gt _ _)) by (unfold msPerDay, maxTime in *; lia).
    reflexivity.
  - unfold shift_days at 2. cbn [mbind option_bind].
    rewrite setDate_shift. unfold TimeClip.
    rewrite (proj2 (Z.leb_gt _ _)) by (unfold msPerDay, maxTime in *; lia).
    reflexivity.
Qed.

Lemma matched_not_vocabulary (name : string) (ds : list ascii) :
  match_last_Nd name = Some ds -> ~ In name vocabulary.
Proof.
  intros H Hin. cbn in Hin.
  repeat (destruct Hin as [<- | Hin]; [discriminate H|]). done.
Qed.

(** C7, amended. On a host whose zone keeps a constant offset from UTC, with
    today the UTC day of the clock:
    - for every positive [N] such that the instant [N] days before now is
      one a [Date] can hold, [last_<N>d] resolves to the texts of the days
      [until = today - 1] and [since = until - (N - 1)];
    - for every larger [N] the resolver throws a [RangeError];
    - the text of a day of the years 0000 to 9999 is its date [YYYY-MM-DD]:
      read as a date it gives the day back;
    - the text of a day outside those years is the sign, six digits of the
      year, a hyphen and the month, without the day of the month;
    - a name that is neither in the vocabulary nor of the shape [last_<N>d]
      resolves by the same rule with [N = 7]. *)
Theorem last_N_days (now : Z) :
  (forall N : Z,
     0 < N ->
     - maxTime + N * msPerDay <= now <= maxTime ->
     resolveDateRange zone now (Preset ("last_" +:+ Z_to_string N +:+ "d")) =
       Ret (last_days now N))
  /\
  (forall N : Z,
     0 < N ->
     - maxTime <= now <= maxTime ->
     now < - maxTime + N * msPerDay ->
     resolveDateRange zone now (Preset ("last_" +:+ Z_to_string N +:+ "d")) =
       Throw (RangeError "Invalid time value"))
  /\
  (forall day : Z,
     0 <= (civil_from_days day).1.1 <= 9999 ->
     Date_parse (date_text day) = Some (day * msPerDay))
  /\
  (forall day : Z,
     - 100000000 <= day <= 100000000 ->
     ~ 0 <= (civil_from_days day).1.1 <= 9999 ->
     date_text day =
       (if (civil_from_days day).1.1 <? 0 then "-" else "+") +:+
       pad0 6 (Z.abs (civil_from_days day).1.1) +:+ "-" +:+
       pad0 2 (civil_from_days day).1.2)
  /\
  (forall name : string,
     ~ In name vocabulary ->
     match_last_Nd name = None ->
     - maxTime + 7 * msPerDay <= now <= maxTime ->
     resolveDateRange zone now (Preset name) = Ret (last_days now 7)).
Proof.
  split; [|split; [|split; [|split]]].
  - intros N HN Hnow.
    destruct (Z_to_string_digits N HN) as (ds & Hs & Hok & Hne & Hval).
    rewrite Hs.
    pose proof (match_last_Nd_numeral ds Hok Hne) as Hm.
    apply resolve_default; [by eapply matched_not_vocabulary | | done | done].
    by rewrite Hm.
  - intros N HN Hnow Hout.
    destruct (Z_to_string_digits N HN) as (ds & Hs & Hok & Hne & Hval).
    rewrite Hs.
    pose proof (match_last_Nd_numeral ds Hok Hne) as Hm.
    apply (resolve_default_out_of_range now _
             ltac:(by eapply matched_not_vocabulary) N);
      [by rewrite Hm | done | done | done].
  - apply date_text_round_trip.
  - apply date_text_expanded.
  - intros name Hv Hm Hnow.
    apply resolve_default; [done | | done | done]. by rewrite Hm.
Qed.
End ResolverProps.

(** C6 fails on a host whose zone has daylight-saving time.  The dates are
    parsed as UTC midnights but moved with the local-time [setDate]: in
    Eastern time, where the clocks went back on 2025-11-02, the period before
    the week from 2025-11-03 comes out as ending on 2025-11-01, two days
    before [since], and the period before the week from 2025-11-08 comes out
    eight days long. *)
Lemma previous_period_dst_gap :
  Resolver.getPreviousPeriod Samples.new_york_2025 "2025-11-03" "2025-11-09" =
    Ret {| Resolver.since := "2025-10-26"; Resolver.until := "2025-11-01" |}
  /\ Resolver.getPreviousPeriod Samples.new_york_2025 "2025-11-08" "2025-11-14" =
     Ret {| Resolver.since := "2025-10-31"; Resolver.until := "2025-11-07" |}
  /\ Resolver.getPreviousPeriod (fixed_zone (-5 * Samples.hour))
       "2025-11-03" "2025-11-09" =
     Ret {| Resolver.since := "2025-10-27"; Resolver.until := "2025-11-02" |}.
Proof. repeat split; vm_compute; reflexivity. Qed.

Lemma previous_period_adjacent_witness :
  exists ps pu,
    Resolver.getPreviousPeriod (fixed_zone 0) "2025-03-08" "2025-03-14" =
      Ret {| Resolver.since := Resolver.date_text ps;
             Resolver.until := Resolver.date_text pu |}
    /\ pu = 20155 - 1
    /\ pu - ps + 1 = 20161 - 20155 + 1.
Proof.
  apply (previous_period_adjacent 0 "2025-03-08" "2025-03-14" 20155 20161).
  - reflexivity.
  - reflexivity.
  - lia.
Defined.

(** C7 as stated fails for a positive [N] that reaches back past the first
    date a [Date] can hold: [last_200000000d] makes [since] an invalid date
    and formatting it throws.  And for an [N] that reaches back past the
    year 0000 without leaving the range of [Date], [since] is not a date:
    [last_100020162d] gives the first ten characters of
    [-271821-04-20T12:00:00.000Z]. *)
Lemma last_N_days_counterexample :
  0 < 200000000
  /\ Resolver.resolveDateRange (fixed_zone 0) Samples.noon_2025_03_15
       (Resolver.Preset ("last_" +:+ Z_to_string 200000000 +:+ "d")) =
     Throw (RangeError "Invalid time value")
  /\ 0 < 100020162
  /\ Resolver.resolveDateRange (fixed_zone 0) Samples.noon_2025_03_15
       (Resolver.Preset ("last_" +:+ Z_to_string 100020162 +:+ "d")) =
     Ret {| Resolver.since := "-271821-04"; Resolver.until := "2025-03-14" |}.
Proof. repeat split; try lia; vm_compute; reflexivity. Qed.

Lemma last_N_days_witness :
  Resolver.resolveDateRange (fixed_zone 0) Samples.noon_2025_03_15 (Resolver.Preset "last_7d") =
    Ret (Resolver.last_days Samples.noon_2025_03_15 7)
  /\ Resolver.resolveDateRange (fixed_zone 0) Samples.noon_2025_03_15
       (Resolver.Preset ("last_" +:+ Z_to_string 200000000 +:+ "d")) =
     Throw (RangeError "Invalid time value")
  /\ Date_parse (Resolver.date_text 20162) = Some (20162 * msPerDay)
  /\ Resolver.date_text (- 100000000) = "-271821-04"
  /\ Resolver.resolveDateRange (fixed_zone 0) Samples.noon_2025_03_15
       (Resolver.Preset "quarter") =
     Ret (Resolver.last_days Samples.noon_2025_03_15 7).
Proof.
  pose proof (last_N_days 0 Samples.noon_2025_03_15) as (H1 & H2 & H3 & H4 & H5).
  split; [|split; [|split; [|split]]].
  - apply (H1 7).
    + lia.
    + unfold maxTime, msPerDay, Samples.noon_2025_03_15. lia.
  - apply (H2 200000000).
    + lia.
    + unfold maxTime, msPerDay, Samples.noon_2025_03_15. lia.
    + unfold maxTime, msPerDay, Samples.noon_2025_03_15. lia.
  - apply (H3 20162).
    change (civil_from_days 20162).1.1 with 2025. lia.
  - rewrite (H4 (- 100000000)).
    + vm_compute. reflexivity.
    + lia.
    + change (civil_from_days (- 100000000)).1.1 with (- 271821). lia.
  - apply (H5 "quarter").
    + cbn. intros H. repeat (destruct H as [H | H]; [discriminate H|]). exact H.
    + reflexivity.
    + unfold maxTime, msPerDay, Samples.noon_2025_03_15. lia.
Defined.

(** The fixtures of the resolver, for a clock at noon of 2025-03-15 on a
    host in UTC. *)
Lemma resolver_fixtures :
  let resolve := Resolver.resolveDateRange (fixed_zone 0) Samples.noon_2025_03_15 in
  resolve (Resolver.Preset "today") =
    Ret {| Resolver.since := "2025-03-15"; Resolver.until := "2025-03-15" |}
  /\ resolve (Resolver.Preset "yesterday") =
     Ret {| Resolver.since := "2025-03-14"; Resolver.until := "2025-03-14" |}
  /\ resolve (Resolver.Preset "last_7d") =
     Ret {| Resolver.since := "2025-03-08"; Resolver.until := "2025-03-14" |}
  /\ resolve (Resolver.Preset "last_month") =
     Ret {| Resolver.since := "2025-02-01"; Resolver.until := "2025-02-28" |}
  /\ Resolver.last_days Samples.noon_2025_03_15 7 =
     {| Resolver.since := "2025-03-08"; Resolver.until := "2025-03-14" |}.
Proof. cbv zeta. repeat split; vm_compute; reflexivity. Qed.

(** ** The metric normaliser *)

Section MetricsProps.
Import Metrics.

Lemma is_zero_not_gt (x : number) : is_zero x = true -> gt x zero = false.
Proof.
  intros H. destruct (gt x zero) eqn:E; [|done].
  apply gt_zero_nonzero in E. unfold nonzero in E. by rewrite H in E.
Qed.

Lemma getActionValue_real acts t :
  actions_ok acts = true -> is_real (getActionValue acts t).
Proof.
  unfold actions_ok, getActionValue. destruct acts as [l|]; [|done].
  cbn [default]. intros H.
  destruct (List.find (has_type t) l) as [a|] eqn:E; [|done].
  apply find_some in E as [Hin _].
  rewrite forallb_forall in H. apply is_real_b_spec, (H a Hin).
Qed.

Lemma getActionValue_lacks acts t :
  lacks acts t = true -> getActionValue acts t = zero.
Proof.
  unfold lacks, getActionValue. destruct acts as [l|]; [|done].
  cbn [default]. intros H.
  destruct (List.find (has_type t) l) as [a|] eqn:E; [|done].
  apply find_some in E as [Hin Ht].
  rewrite forallb_forall in H. specialize (H a Hin). by rewrite Ht in H.
Qed.

Lemma is_real_not_NaN (a : number) : is_real a -> a <> NaN.
Proof. by destruct a. Qed.

Lemma within_limit_spec (a : number) :
  within_limit a = true -> exists x, a = Fin x /\ (Qabs x <= ROUND_LIMIT)%Q.
Proof.
  destruct a as [| | |x]; try done. intros H. exists x. split; [done|].
  by apply Qle_bool_iff.
Qed.

Lemma within_limit_round2 (a : number) :
  within_limit a = true -> is_real (round2 a).
Proof.
  intros H. apply within_limit_spec in H as (x & -> & Hx). by apply round2_real.
Qed.

(** A guarded ratio is no [NaN] when its numerator is finite, and is finite
    when the quotient is within the limit. *)
Lemma guarded_not_NaN (num den : number) :
  is_real num ->
  (if gt den zero then round2 (div num den) else zero) <> NaN.
Proof.
  intros Hn. destruct (gt den zero) eqn:E; [|done].
  destruct num as [| | |n]; try done.
  by apply round2_not_NaN, guarded_div_not_NaN.
Qed.

Lemma guarded_within (num den : number) :
  within_limit (if gt den zero then div num den else zero) = true ->
  is_real (if gt den zero then round2 (div num den) else zero).
Proof.
  destruct (gt den zero); [|done]. apply within_limit_round2.
Qed.

(** C3, amended. Text that does not parse is not replaced by 0, and a
    double that is too large is not kept finite.  What holds: when every
    numeric text of the row parses to a finite number, no field of the
    output is [NaN], and every field is a real number when every quantity
    that is rounded has a magnitude of at most [ROUND_LIMIT]; a scalar
    field that is absent or empty comes out as 0; an action type with no
    entry comes out as 0; and a text that does not parse comes out as
    [NaN]. *)
Theorem normalize_real_when_parsed (row : MetricRow) :
  let m := calcDerivedMetrics row in
  (row_parses row = true -> Forall (fun a => a <> NaN) (numeric_fields m))
  /\ (row_parses row = true -> row_within row = true ->
      Forall is_real (numeric_fields m))
  /\ Forall (fun p => p.1 = None \/ p.1 = Some "" -> p.2 = zero)
            (scalar_fields row m)
  /\ Forall (fun p => lacks (actions row) p.1 = true -> p.2 = zero)
            (action_fields m)
  /\ (lacks (action_values row) "purchase" = true -> revenue m = zero)
  /\ Forall (fun p => p.1 = NaN -> p.2 = NaN) (parsed_fields row m).
Proof.
  cbv zeta. split; [|split; [|split; [|split; [|split]]]].
  - unfold row_parses, float_ok, int_ok. intros H.
    repeat (apply andb_true_iff in H as [H ?]).
    repeat match goal with
           | H : is_real_b _ = true |- _ => apply is_real_b_spec in H
           end.
    pose proof (getActionValue_real (actions row)) as Ha.
    pose proof (getActionValue_real (action_values row)) as Hv.
    unfold numeric_fields, calcDerivedMetrics. cbn [spend impressions clicks
      reach frequency ctr cpc cpm unique_clicks purchases revenue roas cpa
      add_to_carts cost_per_atc initiate_checkouts view_contents leads].
    repeat apply Forall_cons_2; try apply Forall_nil_2;
      auto using round2_not_NaN, is_real_not_NaN, guarded_not_NaN.
  - unfold row_parses, float_ok, int_ok, row_within, rounded_quantities.
    intros H W. cbv zeta in W. cbn [forallb] in W.
    repeat (apply andb_true_iff in H as [H ?]).
    repeat (apply andb_true_iff in W as [? W]).
    repeat match goal with
           | H : is_real_b _ = true |- _ => apply is_real_b_spec in H
           end.
    pose proof (getActionValue_real (actions row)) as Ha.
    pose proof (getActionValue_real (action_values row)) as Hv.
    unfold numeric_fields, calcDerivedMetrics. cbn [spend impressions clicks
      reach frequency ctr cpc cpm unique_clicks purchases revenue roas cpa
      add_to_carts cost_per_atc initiate_checkouts view_contents leads].
    repeat apply Forall_cons_2; try apply Forall_nil_2;
      auto using within_limit_round2, guarded_within.
  - unfold scalar_fields, calcDerivedMetrics. cbn [spend impressions clicks
      reach frequency ctr cpc cpm unique_clicks].
    repeat apply Forall_cons_2; try apply Forall_nil_2;
      cbn [fst snd]; intros [-> | ->]; reflexivity.
  - unfold action_fields, calcDerivedMetrics. cbn [purchases add_to_carts
      initiate_checkouts view_contents leads].
    repeat apply Forall_cons_2; try apply Forall_nil_2;
      cbn [fst snd]; apply getActionValue_lacks.
  - intros H. unfold calcDerivedMetrics. cbn [revenue].
    by rewrite (getActionValue_lacks _ _ H).
  - unfold parsed_fields, calcDerivedMetrics. cbn [spend impressions clicks
      reach frequency ctr cpc cpm unique_clicks purchases revenue
      add_to_carts initiate_checkouts view_contents leads].
    repeat apply Forall_cons_2; try apply Forall_nil_2;
      cbn [fst snd]; intros ->; reflexivity.
Qed.

(** C8. A row whose spend parses to 0 has [roas = 0] and [cpa = 0], and a
    row whose purchase count is 0 has [cpa = 0]: the guards keep every
    division away from a zero denominator. *)
Theorem division_by_zero_safety (row : MetricRow) :
  let m := calcDerivedMetrics row in
  (is_zero (parseFloat (str_or_zero (r_spend row))) = true ->
   roas m = zero /\ cpa m = zero)
  /\ (is_zero (getActionValue (actions row) "purchase") = true ->
      cpa m = zero).
Proof.
  cbv zeta. unfold calcDerivedMetrics. cbn [roas cpa]. split.
  - intros H. split.
    + by rewrite (is_zero_not_gt _ H).
    + destruct (gt (getActionValue (actions row) "purchase") zero) eqn:E;
        [|done].
      by apply guarded_ratio_zero.
  - intros H. by rewrite (is_zero_not_gt _ H).
Qed.
End MetricsProps.

(** C3 as stated fails: spend "abc" and a purchase count "n/a" come out as
    [NaN], not as 0; and a spend of "1e308", which parses, comes out as
    [Infinity], because its hundredfold is no double. *)
Lemma normalize_nan_counterexample :
  let m := Metrics.calcDerivedMetrics Samples.unparseable_row in
  let h := Metrics.calcDerivedMetrics Samples.huge_row in
  Metrics.spend m = NaN /\ Metrics.purchases m = NaN
  /\ ~ Forall is_real (Metrics.numeric_fields m)
  /\ Metrics.row_parses Samples.huge_row = true
  /\ Metrics.spend h = PosInf
  /\ ~ Forall is_real (Metrics.numeric_fields h).
Proof.
  cbv zeta.
  assert (Metrics.spend (Metrics.calcDerivedMetrics Samples.huge_row) = PosInf)
    as Hh by (vm_compute; reflexivity).
  split; [reflexivity|]. split; [reflexivity|]. split; [|split; [|split]].
  - intros H. apply Forall_cons_1 in H as [H _]. exact H.
  - vm_compute. reflexivity.
  - exact Hh.
  - intros H. apply Forall_cons_1 in H as [H _]. cbn [Metrics.numeric_fields] in H.
    rewrite Hh in H. exact H.
Qed.

Lemma normalize_real_when_parsed_witness :
  Forall is_real (Metrics.numeric_fields
                    (Metrics.calcDerivedMetrics Samples.paid_row)).
Proof.
  apply (proj1 (proj2 (normalize_real_when_parsed Samples.paid_row))).
  - vm_compute. reflexivity.
  - vm_compute. reflexivity.
Defined.

Lemma division_by_zero_safety_witness :
  (Metrics.roas (Metrics.calcDerivedMetrics Samples.free_row) = zero
   /\ Metrics.cpa (Metrics.calcDerivedMetrics Samples.free_row) = zero)
  /\ Metrics.cpa (Metrics.calcDerivedMetrics Samples.unsold_row) = zero.
Proof.
  split.
  - apply (proj1 (division_by_zero_safety Samples.free_row)). reflexivity.
  - apply (proj2 (division_by_zero_safety Samples.unsold_row)). reflexivity.
Defined.

(** ** The redundant-signal filter *)

Lemma is_redundant_kept (a : Metrics.Action) :
  negb (Metrics.is_redundant a) =
    forallb (fun pre => negb (String.prefix pre (default "" (Metrics.action_type a))))
      ["omni_"; "onsite_web_app_"; "onsite_web_"; "onsite_app_";
       "web_app_in_store_"; "offsite_conversion.fb_pixel_"].
Proof.
  unfold Metrics.is_redundant, Metrics.REDUNDANT_ACTION_PREFIXES, starts_with.
  cbn [existsb forallb]. rewrite !negb_orb. by rewrite !andb_assoc.
Qed.

(** X4. Stripping acts on every row and on each of its four action lists
    ([actions], [action_values], [cost_per_action_type], [conversions]):
    the answer has the same rows in the same order, each list that is
    present holds exactly its entries whose action type starts with none
    of the six prefixes, in their order, and every other member of the row
    is as it was.  A payload without rows is returned as it is. *)
Theorem strip_redundant_exact (p : Metrics.Payload) :
  let kept := fun a : Metrics.Action =>
    forallb (fun pre => negb (String.prefix pre (default "" (Metrics.action_type a))))
      ["omni_"; "onsite_web_app_"; "onsite_web_"; "onsite_app_";
       "web_app_in_store_"; "offsite_conversion.fb_pixel_"] in
  let q := Metrics.stripRedundantActions p in
  (Metrics.data p = None -> q = p)
  /\ forall rows, Metrics.data p = Some rows ->
       exists rows',
         Metrics.data q = Some rows'
         /\ List.length rows' = List.length rows
         /\ forall (i : nat) (r : Metrics.MetricRow),
              rows !! i = Some r ->
              exists r',
                rows' !! i = Some r'
                /\ Metrics.actions r' = List.filter kept <$> Metrics.actions r
                /\ Metrics.action_values r' =
                     List.filter kept <$> Metrics.action_values r
                /\ Metrics.cost_per_action_type r' =
                     List.filter kept <$> Metrics.cost_per_action_type r
                /\ Metrics.conversions r' =
                     List.filter kept <$> Metrics.conversions r
                /\ (Metrics.campaign_id r', Metrics.campaign_name r',
                    Metrics.date_start r') =
                   (Metrics.campaign_id r, Metrics.campaign_name r,
                    Metrics.date_start r)
                /\ [Metrics.r_spend r'; Metrics.r_impressions r';
                    Metrics.r_clicks r'; Metrics.r_reach r'; Metrics.r_ctr r';
                    Metrics.r_cpc r'; Metrics.r_cpm r'; Metrics.r_frequency r';
                    Metrics.r_unique_clicks r'] =
                   [Metrics.r_spend r; Metrics.r_impressions r;
                    Metrics.r_clicks r; Metrics.r_reach r; Metrics.r_ctr r;
                    Metrics.r_cpc r; Metrics.r_cpm r; Metrics.r_frequency r;
                    Metrics.r_unique_clicks r].
Proof.
  cbv zeta. split.
  - destruct p as [d]. cbn. by intros ->.
  - intros rows Hp. destruct p as [d]. cbn in Hp. subst d.
    exists (Metrics.strip_row <$> rows). split; [reflexivity|].
    split; [by rewrite length_fmap|].
    intros i r Hi. exists (Metrics.strip_row r).
    split; [by rewrite list_lookup_fmap, Hi|].
    assert (forall l : option (list Metrics.Action),
              Metrics.strip_list l =
                List.filter
                  (fun a => forallb
                     (fun pre => negb (String.prefix pre
                                         (default "" (Metrics.action_type a))))
                     ["omni_"; "onsite_web_app_"; "onsite_web_"; "onsite_app_";
                      "web_app_in_store_"; "offsite_conversion.fb_pixel_"])
                <$> l) as Hl.
    { intros [l|]; [|done]. cbn. f_equal. apply filter_ext.
      intros a. apply is_redundant_kept. }
    cbn [Metrics.strip_row Metrics.actions Metrics.action_values
         Metrics.cost_per_action_type Metrics.conversions Metrics.campaign_id
         Metrics.campaign_name Metrics.date_start Metrics.r_spend
         Metrics.r_impressions Metrics.r_clicks Metrics.r_reach Metrics.r_ctr
         Metrics.r_cpc Metrics.r_cpm Metrics.r_frequency Metrics.r_unique_clicks].
    by rewrite !Hl.
Qed.

(** ** The comparison arithmetic *)

Section ComparisonProps.
Import Metrics.
Local Open Scope Q_scope.

Lemma Qabs_bound (a b e : Q) : Qabs (a - b) <= e -> Qabs a <= Qabs b + e.
Proof.
  intros H. pose proof (Qabs_triangle (a - b) b) as Ht.
  assert (a - b + b == a) as E by ring. rewrite E in Ht. lra.
Qed.

Lemma Qabs_chain (a b c e1 e2 : Q) :
  Qabs (a - b) <= e1 -> Qabs (b - c) <= e2 -> Qabs (a - c) <= e1 + e2.
Proof.
  intros H1 H2. pose proof (Qabs_triangle (a - b) (b - c)) as Ht.
  assert (a - b + (b - c) == a - c) as E by ring. rewrite E in Ht. lra.
Qed.

Lemma Qabs_scale (a b z : Q) : Qabs (a * z - b * z) == Qabs (a - b) * Qabs z.
Proof. rewrite <- Qabs_Qmult. apply Qabs_wd. ring. Qed.

Lemma Qabs_div (a b : Q) : Qabs (a / b) == Qabs a / Qabs b.
Proof. unfold Qdiv. by rewrite Qabs_Qmult, Qabs_Qinv. Qed.

(** The difference of two doubles, within the limit. *)
Lemma sub_grid (c p : Q) :
  on_grid c -> on_grid p -> Qabs (c - p) <= 2 ^ 1013 ->
  exists d,
    sub (Fin c) (Fin p) = Fin d /\ on_grid d /\ Qabs d <= 2 ^ 1013
    /\ Qabs (d - (c - p)) <= Qabs (c - p) * 2 ^ (-53).
Proof.
  intros Hc Hp Hb. cbn [sub].
  destruct (to_double_bounded (c - p) 1013) as (d & E & Hd); [done|done|].
  exists d. split; [done|]. split; [by apply (to_double_on_grid _ _ E)|].
  split; [done|]. apply (to_double_error _ _ E). by apply on_grid_sub.
Qed.

(** The sign of the difference of two doubles is the sign of their exact
    difference. *)
Lemma sub_sign (c p : Q) :
  on_grid c -> on_grid p -> ge (sub (Fin c) (Fin p)) zero = Qle_bool p c.
Proof.
  intros Hc Hp. cbn [sub].
  rewrite (proj2 (to_double_sign (c - p) (on_grid_sub _ _ Hc Hp))).
  apply eq_true_iff_eq. rewrite negb_true_iff, Qle_bool_iff.
  destruct (Qneg_b (c - p)) eqn:E.
  - apply Qneg_b_spec in E. split; [done|lra].
  - split; [|done]. intros _. apply Qnot_lt_le. intros H.
    assert (Qneg_b (c - p) = true) by (apply Qneg_b_spec; lra). congruence.
Qed.

(** [Math.round(x * 1000) / 10], step by step. *)
Lemma round1_Fin (x : Q) :
  div (Math_round (mul (Fin x) (of_Z 1000))) (of_Z 10) =
    match to_double (x * inject_Z 1000) with
    | Fin y => to_double (inject_Z (round_Q y) / inject_Z 10)
    | a => a
    end.
Proof. cbn [mul of_Z]. by destruct (to_double (x * inject_Z 1000)). Qed.

(** The rounding of the difference to hundredths. *)
Lemma delta_rounded (c p : Q) :
  on_grid c -> on_grid p -> Qabs (c - p) <= 2 ^ 1013 ->
  rounded_to 2 (c - p) (Qabs (c - p) * inject_Z 100 * 2 ^ (-51))
    (round2 (sub (Fin c) (Fin p))).
Proof.
  intros Hc Hp Hb.
  destruct (sub_grid c p Hc Hp Hb) as (d & -> & Hg & Hd & He).
  destruct (round2_rounded d Hg Hd) as (k & -> & Hk).
  exists k. split; [reflexivity|].
  change (inject_Z (10 ^ 2)) with (inject_Z 100) in *.
  change (inject_Z 100) with 100 in *.
  pose proof (Qabs_bound _ _ _ He) as Hd'.
  assert (Qabs (d * 100 - (c - p) * 100) <= Qabs (c - p) * 2 ^ (-53) * 100) as Hs.
  { rewrite Qabs_scale. change (Qabs 100) with 100.
    apply Qmult_le_compat_r; [done|lra]. }
  pose proof (Qabs_chain _ _ _ _ _ Hk Hs) as Ht.
  pose proof (Qabs_nonneg (c - p)) as H0.
  change (2 ^ (-53)) with (1 # 9007199254740992) in *.
  change (2 ^ (-51)) with (1 # 2251799813685248).
  lra.
Qed.

Lemma limit_slack : ROUND_LIMIT + ROUND_LIMIT * 2 ^ (-53) <= 2 ^ 1013.
Proof. apply Qle_bool_iff. vm_compute. reflexivity. Qed.

(** The percentage: the quotient of the unrounded difference by the
    previous value, rounded to tenths of a percent. *)
Lemma pct_rounded (c p : Q) :
  on_grid c -> on_grid p -> ~ p == 0 ->
  Qabs (c - p) <= 2 ^ 1013 -> Qabs (c - p) <= ROUND_LIMIT * Qabs p ->
  rounded_to 1 ((c - p) / p * inject_Z 100)
    (Qabs ((c - p) / p) * inject_Z 1000 * 2 ^ (-51) + 2 ^ (-1060))
    (div (Math_round (mul (div (sub (Fin c) (Fin p)) (Fin p)) (of_Z 1000)))
         (of_Z 10)).
Proof.
  intros Hc Hp Hp0 Hb Hq.
  destruct (sub_grid c p Hc Hp Hb) as (d & -> & Hg & Hd & He).
  assert (Qzero_b p = false) as Hz.
  { apply not_true_is_false. by rewrite Qzero_b_eq. }
  cbn [div]. rewrite Hz.
  set (t := (c - p) / p). set (t' := d / p).
  assert (0 < Qabs p) as HP.
  { destruct (Qle_lt_or_eq _ _ (Qabs_nonneg p)) as [H|H]; [done|].
    exfalso. apply Hp0.
    destruct (proj1 (Qabs_Qle_condition p 0)) as [H1 H2]; [rewrite <- H|]; lra. }
  pose proof (Qabs_nonneg (c - p)) as HA.
  assert (Qabs t == Qabs (c - p) / Qabs p) as ET by apply Qabs_div.
  assert (Qabs t * Qabs p == Qabs (c - p)) as ET' by (rewrite ET; field; lra).
  assert (Qabs t <= ROUND_LIMIT) as HT.
  { rewrite ET. apply Qle_shift_div_r; [done|]. lra. }
  assert (0 <= Qabs t) as HT0 by apply Qabs_nonneg.
  assert (Qabs (t' - t) <= Qabs t * 2 ^ (-53)) as H1.
  { assert (t' - t == (d - (c - p)) / p) as -> by (unfold t, t'; field; done).
    rewrite Qabs_div. apply Qle_shift_div_r; [done|].
    assert (Qabs t * 2 ^ (-53) * Qabs p == Qabs (c - p) * 2 ^ (-53)) as ->
      by (rewrite <- ET'; ring).
    done. }
  pose proof (Qabs_bound _ _ _ H1) as H2.
  pose proof limit_slack as HL.
  change (2 ^ (-53)) with (1 # 9007199254740992) in *.
  destruct (to_double_bounded t' 1013) as (q1 & E1 & Hq1); [done|lra|].
  fold t'. rewrite E1.
  destruct (to_double_error _ _ E1) as [H3 _].
  change (2 ^ (-53)) with (1 # 9007199254740992) in H3.
  pose proof (Qabs_bound _ _ _ H3) as H4.
  rewrite round1_Fin.
  destruct (scaled_real q1 1000) as (y & E2 & Hy); [done|done|]. rewrite E2.
  destruct (to_double_error _ _ E2) as [_ H5].
  specialize (H5 (on_grid_mul_Z q1 1000 (to_double_on_grid _ _ E1))).
  change (2 ^ (-53)) with (1 # 9007199254740992) in H5.
  rewrite Qabs_Qmult in H5. change (Qabs (inject_Z 1000)) with 1000 in H5.
  exists (round_Q y). split; [reflexivity|].
  change (inject_Z (10 ^ 1)) with 10. change (inject_Z 100) with 100.
  change (inject_Z 1000) with 1000 in *.
  assert (t * 100 * 10 == t * 1000) as -> by ring.
  pose proof (round_Q_near y) as H6.
  assert (Qabs (q1 * 1000 - t' * 1000) <=
            (Qabs t' * (1 # 9007199254740992) + 2 ^ (-1075)) * 1000) as H7.
  { rewrite Qabs_scale. change (Qabs 1000) with 1000.
    apply Qmult_le_compat_r; [done|lra]. }
  assert (Qabs (t' * 1000 - t * 1000) <=
            Qabs t * (1 # 9007199254740992) * 1000) as H8.
  { rewrite Qabs_scale. change (Qabs 1000) with 1000.
    apply Qmult_le_compat_r; [done|lra]. }
  pose proof (Qabs_chain _ _ _ _ _ H6 H5) as H9.
  pose proof (Qabs_chain _ _ _ _ _ H9 H7) as H10.
  pose proof (Qabs_chain _ _ _ _ _ H10 H8) as H11.
  assert (2 ^ (-1075) * 1000 * 2 <= 2 ^ (-1060)) as Heta
    by (apply Qle_bool_iff; vm_compute; reflexivity).
  pose proof (Qpow2_pos (-1075)) as Peta.
  change (2 ^ (-51)) with (1 # 2251799813685248).
  pose proof (Qabs_nonneg t') as Ht'0. pose proof (Qabs_nonneg q1) as Hq0.
  lra.
Qed.

Lemma gt_zero_Fin (x : Q) : gt (Fin x) zero = negb (Qle_bool x 0).
Proof.
  apply eq_true_iff_eq. rewrite gt_zero_Fin_iff, negb_true_iff.
  destruct (Qle_bool x 0) eqn:E.
  - apply Qle_bool_iff in E. split; [lra|done].
  - split; [done|]. intros _. apply Qnot_le_lt. intros H.
    apply Qle_bool_iff in H. congruence.
Qed.

(** C4, amended. [pctChange(120, 100)] and [pctChange(50, 0)] are as the
    fixtures say; [pctChange(0, 0)] is [{delta: "+0", pct: "+0%"}].  For
    doubles whose difference is within [ROUND_LIMIT]: both texts carry the
    prefix [+] exactly when [current >= previous]; [delta] is the text of
    the difference rounded to hundredths by [Math.round] in double
    arithmetic; [pct] is the text of 100 when [previous] is 0 and
    [current > 0], of 0 when [previous] is 0 and [current <= 0], and
    otherwise of the quotient of the unrounded difference by [previous],
    as a percentage rounded to tenths in double arithmetic. *)
Theorem pctChange_arithmetic :
  pctChange (of_Z 120) (of_Z 100) = {| delta := "+20"; pct := "+20%" |}
  /\ pctChange (of_Z 0) (of_Z 0) = {| delta := "+0"; pct := "+0%" |}
  /\ pctChange (of_Z 50) (of_Z 0) = {| delta := "+50"; pct := "+100%" |}
  /\ forall current previous : Q,
       double_b current = true -> double_b previous = true ->
       Qabs (current - previous) <= ROUND_LIMIT ->
       let sign := if Qle_bool previous current then "+" else "" in
       exists d pc : number,
         pctChange (Fin current) (Fin previous) =
           {| delta := sign +:+ number_to_string d;
              pct := sign +:+ number_to_string pc +:+ "%" |}
         /\ rounded_to 2 (current - previous)
              (Qabs (current - previous) * inject_Z 100 * 2 ^ (-51)) d
         /\ (previous == 0 ->
             pc = if Qle_bool current 0 then of_Z 0 else of_Z 100)
         /\ (~ previous == 0 ->
             Qabs (current - previous) <= ROUND_LIMIT * Qabs previous ->
             rounded_to 1 ((current - previous) / previous * inject_Z 100)
               (Qabs ((current - previous) / previous) * inject_Z 1000 *
                  2 ^ (-51) + 2 ^ (-1060)) pc).
Proof.
  split; [vm_compute; reflexivity|]. split; [vm_compute; reflexivity|].
  split; [vm_compute; reflexivity|].
  intros c p Hc Hp Hb. apply double_on_grid in Hc, Hp. cbv zeta.
  assert (Qabs (c - p) <= 2 ^ 1013) as Hb' by (pose proof limit_pow2; lra).
  unfold pctChange. rewrite (sub_sign c p Hc Hp).
  eexists _, _. split; [reflexivity|]. split; [by apply delta_rounded|].
  unfold nonzero, is_zero. split.
  - intros E. apply Qzero_b_eq in E. rewrite E. cbn [negb].
    rewrite gt_zero_Fin. by destruct (Qle_bool c 0).
  - intros E Hq.
    assert (Qzero_b p = false) as -> by (apply not_true_is_false; by rewrite Qzero_b_eq).
    cbn [negb]. by apply pct_rounded.
Qed.
End ComparisonProps.

(** C4 as stated fails three times.  [pctChange(0, 0)] is not
    [{delta: "0", pct: "0%"}]: the difference 0 is not negative, so both
    texts carry the [+].  The percentage is not taken from the rounded
    [delta]: for 1.004 against 1 the rounded difference is 0, and the
    percentage is 0.4.  And the rounding is the one of double arithmetic:
    the double 0.015 lies below 0.015, its hundredfold is the double 1.5,
    and [delta] is 0.02, not 0.01. *)
Lemma pctChange_zero_counterexample :
  (Metrics.pctChange (of_Z 0) (of_Z 0) =
     {| Metrics.delta := "+0"; Metrics.pct := "+0%" |}
   /\ Metrics.pctChange (of_Z 0) (of_Z 0) <>
        {| Metrics.delta := "0"; Metrics.pct := "0%" |})
  /\ (let x := (2260807012939989 # 2251799813685248)%Q in
      parseFloat "1.004" = Fin x
      /\ Metrics.pctChange (Fin x) (of_Z 1) =
           {| Metrics.delta := "+0"; Metrics.pct := "+0.4%" |}
      /\ Metrics.comparison_spec x 1 =
           {| Metrics.delta := "+0"; Metrics.pct := "+0%" |})
  /\ (let x := (1080863910568919 # 72057594037927936)%Q in
      parseFloat "0.015" = Fin x
      /\ (x < 15 # 1000)%Q
      /\ Metrics.pctChange (Fin x) (of_Z 0) =
           {| Metrics.delta := "+0.02"; Metrics.pct := "+100%" |}
      /\ Metrics.comparison_spec x 0 =
           {| Metrics.delta := "+0.01"; Metrics.pct := "+100%" |}).
Proof.
  split; [split; [vm_compute; reflexivity | discriminate]|].
  split.
  - cbv zeta. split; [vm_compute; reflexivity|].
    split; vm_compute; reflexivity.
  - cbv zeta. split; [vm_compute; reflexivity|]. split; [reflexivity|].
    split; vm_compute; reflexivity.
Qed.

(** The general rule at 120 against 100. *)
Lemma pctChange_arithmetic_witness :
  exists d pc : number,
    Metrics.pctChange (Fin 120) (Fin 100) =
      {| Metrics.delta := "+" +:+ number_to_string d;
         Metrics.pct := "+" +:+ number_to_string pc +:+ "%" |}
    /\ Metrics.rounded_to 2 (120 - 100)
         (Qabs (120 - 100) * inject_Z 100 * 2 ^ (-51)) d
    /\ ((100 == 0)%Q -> pc = if Qle_bool 120 0 then of_Z 0 else of_Z 100)
    /\ (~ (100 == 0)%Q ->
        (Qabs (120 - 100) <= Metrics.ROUND_LIMIT * Qabs 100)%Q ->
        Metrics.rounded_to 1 ((120 - 100) / 100 * inject_Z 100)
          (Qabs ((120 - 100) / 100) * inject_Z 1000 * 2 ^ (-51) + 2 ^ (-1060))
          pc).
Proof.
  apply (proj2 (proj2 (proj2 pctChange_arithmetic)) 120%Q 100%Q).
  - vm_compute. reflexivity.
  - vm_compute. reflexivity.
  - vm_compute. discriminate.
Defined.

(** ** The batch fan-out *)

Section BatchProps.
Import Metrics Promise Batch.
Variable compact : bool.
Variable fetchOne : string -> Exc Payload.

Abbreviation item := (Batch.item compact fetchOne).

Lemma outcomes_from (pre ids : list string) :
  outcomes compact (settle <$> (fetchOne <$> pre ++ ids)) (List.length pre) ids =
    Ret (item <$> ids).
Proof.
  revert pre. induction ids as [|id ids IH]; intros pre; [reflexivity|].
  cbn [outcomes].
  rewrite !list_lookup_fmap, list_lookup_middle by done. cbn [fmap option_fmap option_map].
  replace (pre ++ id :: ids) with ((pre ++ [id]) ++ ids) by by rewrite <- app_assoc.
  replace (S (List.length pre)) with (List.length (pre ++ [id]))
    by (rewrite length_app; cbn; lia).
  rewrite IH. reflexivity.
Qed.

Lemma fetchAll_items (ids : list string) :
  fetchAll compact fetchOne ids = Ret (item <$> ids).
Proof. unfold fetchAll, allSettled. cbn. apply (outcomes_from [] ids). Qed.

(** The slots written as the promises settle hold the same array whatever
    the order of completion, provided every promise settles. *)
Lemma fill_slots_any_order {A : Type} (ps : list (Exc A)) (completion : list nat) :
  (forall i, (i < List.length ps)%nat -> In i completion) ->
  fill_slots ps completion = (fun p => Some (settle p)) <$> ps.
Proof.
  intros Hall. unfold fill_slots.
  assert (forall (done : list nat) (slots : list (option (settled A))),
            List.length slots = List.length ps ->
            let final := foldl (fun slots i =>
                                  match ps !! i with
                                  | Some p => <[i := Some (settle p)]> slots
                                  | None => slots
                                  end) slots done in
            List.length final = List.length ps
            /\ forall i p, ps !! i = Some p ->
                 (In i done -> final !! i = Some (Some (settle p)))
                 /\ (slots !! i = Some (Some (settle p)) ->
                     final !! i = Some (Some (settle p)))) as Hinv.
  { induction done as [|j done IH]; intros slots Hlen; cbn [foldl].
    - split; [done|]. intros i p Hp. split; [intros []|done].
    - destruct (ps !! j) as [q|] eqn:Hj.
      + destruct (IH (<[j := Some (settle q)]> slots)) as [Hl Hrec];
          [by rewrite length_insert|].
        split; [done|]. intros i p Hp. destruct (Hrec i p Hp) as [Hin Hkeep].
        assert (i = j -> <[j := Some (settle q)]> slots !! i
                          = Some (Some (settle p))) as Hsame.
        { intros ->. rewrite Hp in Hj. injection Hj as <-.
          apply list_lookup_insert_eq. rewrite Hlen.
          by apply lookup_lt_Some in Hp. }
        split.
        * intros [<-|Hd]; [apply Hkeep; by apply Hsame | by apply Hin].
        * intros Hs. apply Hkeep. destruct (decide (i = j)) as [E|E];
            [by apply Hsame | by rewrite list_lookup_insert_ne].
      + destruct (IH slots Hlen) as [Hl Hrec]. split; [done|].
        intros i p Hp. destruct (Hrec i p Hp) as [Hin Hkeep]. split; [|done].
        intros [<-|Hd]; [congruence | by apply Hin]. }
  destruct (Hinv completion (replicate (List.length ps) None))
    as [Hlen Hget]; [by rewrite length_replicate|].
  apply list_eq. intros i. rewrite list_lookup_fmap.
  destruct (ps !! i) as [p|] eqn:Hp; cbn.
  - apply (proj1 (Hget i p Hp)), Hall. by apply lookup_lt_Some in Hp.
  - apply lookup_ge_None. rewrite Hlen. by apply lookup_ge_None.
Qed.

(** C9. The fan-out returns one outcome per id, in the order of the ids:
    the outcome of an id whose fetch succeeded carries the data (stripped
    when [compact] is set), and the outcome of an id whose fetch failed
    carries the message of its error: the message of the [ApiError] that
    [graphGet] throws, and of any other error its own.  No failure of any
    fetch makes the fan-out, or the handler that is given the ids, fail. *)
Theorem fan_out_keeps_order (ids : list string) :
  exists out,
    fetchAll compact fetchOne ids = Ret out
    /\ List.length out = List.length ids
    /\ (forall (i : nat) (id : string),
          ids !! i = Some id ->
          out !! i =
            Some match fetchOne id with
                 | Ret v =>
                     WithData id (if compact then stripRedundantActions v else v)
                 | Throw (ApiError msg _) | Throw (RangeError msg)
                 | Throw (OtherError msg) => WithError id msg
                 | Throw AbortError =>
                     WithError id "This operation was aborted"
                 end)
    /\ (forall autoIds names,
          exists res,
            bulk_get_insights compact fetchOne (Some ids) autoIds names =
              Ret res).
Proof.
  exists (item <$> ids). split; [apply fetchAll_items|].
  split; [by rewrite length_fmap|]. split.
  - intros i id Hi. rewrite list_lookup_fmap, Hi. cbn. f_equal.
    unfold Batch.item. by destruct (fetchOne id) as [v|[]].
  - intros autoIds names. unfold bulk_get_insights. cbn [mret Exc_ret].
    rewrite Exc_bind_ret, fetchAll_items, Exc_bind_Ret.
    eexists. reflexivity.
Qed.
End BatchProps.

(** The partial-failure fixture: of three ids the second always fails;
    three outcomes come back in the order of the ids, the second with the
    error, the others with their data. *)
Lemma batch_partial_failure_fixture :
  let ok : Metrics.Payload := {| Metrics.data := Some [Samples.paid_row] |} in
  let fetchOne := fun id : string =>
    if String.eqb id "2" then Throw (ApiError "HTTP 500: down" 500)
    else Ret ok in
  Batch.fetchAll false fetchOne ["1"; "2"; "3"] =
    Ret [Batch.WithData "1" ok; Batch.WithError "2" "HTTP 500: down";
         Batch.WithData "3" ok].
Proof. reflexivity. Qed.

(** ** The report assembler *)

Section ReportProps.
Import Resolver Metrics Promise Report.
Variable zone : Zone.
Variable now now_report : Z.
Variable getAccountId : Exc string.
Variable graphGet : Request -> Exc Payload.

Abbreviation report_of :=
  (generate_report zone now now_report getAccountId graphGet).
Abbreviation fetch := (insights graphGet).

Lemma rows_of_rejected (p : Exc Payload) (e : exn) :
  p = Throw e -> rows_of (settle p) = [].
Proof. by intros ->. Qed.

(** C5, amended. No failure of a sub-fetch propagates: once the account id
    and the ranges are known the assembler returns a report.  When the two
    previous-period fetches fail, the report has no comparison block and is
    the report the same request gets with the comparison switched off.  When
    the current-period aggregate fetch fails, the report is still returned,
    with an absent account summary and no comparison block. *)
Theorem report_degrades (args : Args) (acct : string) (cur prev : DateRange) :
  default true (arg_compare_previous args) = true ->
  getAccountId = Ret acct ->
  resolveDateRange zone now (default (Preset "last_7d") (arg_time_range args)) =
    Ret cur ->
  getPreviousPeriod zone (since cur) (until cur) = Ret prev ->
  exists r,
    report_of args = Ret r
    /\ ((exists e1 e2,
           fetch acct prev "account" None None = Throw e1
           /\ fetch acct prev "campaign" (Some "50") None = Throw e2) ->
        period_comparison r = None
        /\ report_of (without_comparison args) = Ret r)
    /\ ((exists e, fetch acct cur "account" None None = Throw e) ->
        account_summary r = None /\ period_comparison r = None).
Proof.
  intros Hcmp Hacct Hcur Hprev.
  remember (report_of (without_comparison args)) as wo eqn:Hwo.
  unfold generate_report, without_comparison in Hwo.
  cbn [arg_time_range arg_compare_previous arg_campaign_name_contains
       from_option] in Hwo.
  change (id false) with false in Hwo. cbv iota in Hwo.
  rewrite Hacct, Hcur, ?Exc_bind_Ret in Hwo. unfold allSettled in Hwo.
  rewrite ?Exc_bind_ret in Hwo. unfold extract in Hwo.
  cbn [app fmap list_fmap lookup list_lookup] in Hwo.
  rewrite ?Exc_bind_ret, ?Exc_bind_Ret in Hwo.
  unfold generate_report. rewrite Hcmp, Hacct, Hcur.
  rewrite !Exc_bind_Ret. rewrite Hprev. rewrite !Exc_bind_Ret.
  unfold allSettled. rewrite Exc_bind_ret.
  unfold extract. cbn [app fmap list_fmap lookup list_lookup].
  rewrite !Exc_bind_ret.
  destruct (head (rows_of (settle (fetch acct prev "account" None None))))
    as [prevRow|] eqn:Hpa;
    destruct (head (rows_of (settle (fetch acct cur "account" None None))))
      as [curRow|] eqn:Hca;
    cbn [fmap option_fmap option_map] in *;
    rewrite ?Exc_bind_Ret, ?Exc_bind_ret;
    (eexists; split; [reflexivity|]); cbn [period_comparison account_summary];
    (split; [intros (e1 & e2 & H1 & H2) | intros (e & H)]).
  all: try (rewrite (rows_of_rejected _ _ H1) in Hpa; discriminate Hpa).
  all: try (rewrite (rows_of_rejected _ _ H) in Hca; discriminate Hca).
  all: try (split; [reflexivity|]; rewrite Hwo;
            rewrite (rows_of_rejected _ _ H2); reflexivity).
  all: try (split; reflexivity).
Qed.
End ReportProps.

(** C5 as stated fails in its second half: when the current-period aggregate
    fetch fails the handler does not raise that error; it returns a report
    whose account summary is absent. *)
Lemma aggregate_failure_counterexample :
  let week := {| Resolver.since := "2025-03-08"; Resolver.until := "2025-03-14" |} in
  let res := Report.generate_report (fixed_zone 0) Samples.noon_2025_03_15
               Samples.noon_2025_03_15 (Ret "act_1") Samples.aggregate_down
               Samples.default_args in
  Report.insights Samples.aggregate_down "act_1" week "account" None None =
    Throw Samples.down
  /\ res <> Throw Samples.down
  /\ exists r, res = Ret r /\ Report.account_summary r = None.
Proof.
  cbv zeta. split; [reflexivity|]. split.
  - vm_compute. discriminate.
  - eexists. split; [vm_compute; reflexivity | reflexivity].
Qed.

Lemma report_degrades_witness :
  exists r,
    Report.generate_report (fixed_zone 0) Samples.noon_2025_03_15 Samples.noon_2025_03_15
      (Ret "act_1") Samples.previous_down Samples.default_args = Ret r
    /\ ((exists e1 e2,
           Report.insights Samples.previous_down "act_1"
             {| Resolver.since := "2025-03-01"; Resolver.until := "2025-03-07" |}
             "account" None None = Throw e1
           /\ Report.insights Samples.previous_down "act_1"
                {| Resolver.since := "2025-03-01"; Resolver.until := "2025-03-07" |}
                "campaign" (Some "50") None = Throw e2) ->
        Report.period_comparison r = None
        /\ Report.generate_report (fixed_zone 0) Samples.noon_2025_03_15
             Samples.noon_2025_03_15 (Ret "act_1") Samples.previous_down
             (Report.without_comparison Samples.default_args) = Ret r)
    /\ ((exists e,
           Report.insights Samples.previous_down "act_1"
             {| Resolver.since := "2025-03-08"; Resolver.until := "2025-03-14" |}
             "account" None None = Throw e) ->
        Report.account_summary r = None /\ Report.period_comparison r = None).
Proof.
  apply (report_degrades (fixed_zone 0) Samples.noon_2025_03_15 Samples.noon_2025_03_15
           (Ret "act_1") Samples.previous_down Samples.default_args "act_1"
           {| Resolver.since := "2025-03-08"; Resolver.until := "2025-03-14" |}
           {| Resolver.since := "2025-03-01"; Resolver.until := "2025-03-07" |}).
  - reflexivity.
  - reflexivity.
  - vm_compute. reflexivity.
  - vm_compute. reflexivity.
Defined.

(** ** The calendar, month by month *)

Lemma civil_from_days_era (z e : Z) :
  civil_from_days (z + e * 146097) =
    ((civil_from_days z).1.1 + e * 400, (civil_from_days z).1.2,
     (civil_from_days z).2).
Proof.
  unfold civil_from_days. cbv zeta.
  replace (z + e * 146097 + 719468) with (z + 719468 + e * 146097) by lia.
  rewrite Z.div_add by lia.
  set (era := (z + 719468) / 146097).
  replace (z + 719468 + e * 146097 - (era + e) * 146097)
    with (z + 719468 - era * 146097) by lia.
  cbn [fst snd]. do 2 (f_equal; []). ring.
Qed.

Lemma days_from_civil_era (y e m d : Z) :
  days_from_civil (y + e * 400) m d = days_from_civil y m d + e * 146097.
Proof.
  unfold days_from_civil. cbv zeta.
  set (y' := if m <=? 2 then y - 1 else y).
  assert ((if m <=? 2 then y + e * 400 - 1 else y + e * 400) = y' + e * 400)
    as -> by (subst y'; destruct (m <=? 2); lia).
  rewrite Z.div_add by lia.
  replace (y' + e * 400 - (y' / 400 + e) * 400) with (y' - y' / 400 * 400)
    by lia.
  lia.
Qed.

Lemma civil_eqb_eq (a b : Z * Z * Z) : civil_eqb a b = true -> a = b.
Proof.
  destruct a as [[? ?] ?], b as [[? ?] ?]. unfold civil_eqb. cbn [fst snd].
  intros H. repeat (apply andb_true_iff in H as [H ?]).
  apply Z.eqb_eq in H. f_equal; [f_equal|]; lia.
Qed.

Lemma months_ok : all_from nth_month_ok (Z.to_nat 4800) 0 = true.
Proof. vm_compute. reflexivity. Qed.

(** The unfolding equations of the checks, stated so that their bodies
    stand on the left. *)
Lemma month_ok_eq (y m : Z) :
  civil_eqb (civil_from_days (days_from_civil y m 1)) (y, m, 1) &&
  (days_from_civil (prev_month y m).1 (prev_month y m).2 1 =?
   days_from_civil y m 1
   - days_in_month (prev_month y m).1 (prev_month y m).2) = month_ok y m.
Proof.
  exact (eq_refl
           (civil_eqb (civil_from_days (days_from_civil y m 1)) (y, m, 1) &&
            (days_from_civil (prev_month y m).1 (prev_month y m).2 1 =?
             days_from_civil y m 1
             - days_in_month (prev_month y m).1 (prev_month y m).2))).
Qed.

Lemma nth_month_ok_eq (n : Z) :
  month_ok (n / 12) (n mod 12 + 1) = nth_month_ok n.
Proof. exact (eq_refl (month_ok (n / 12) (n mod 12 + 1))). Qed.

Lemma month_ok_at (r m : Z) :
  0 <= r < 400 -> 1 <= m <= 12 -> month_ok r m = true.
Proof.
  intros Hr Hm.
  pose proof (all_from_spec _ _ _ months_ok (r * 12 + (m - 1)) ltac:(lia))
    as Hok.
  rewrite <- nth_month_ok_eq in Hok.
  assert ((r * 12 + (m - 1)) / 12 = r) as Hq
    by (symmetry; apply (Z.div_unique _ _ _ (m - 1)); lia).
  assert ((r * 12 + (m - 1)) mod 12 + 1 = m) as Hmod
    by (rewrite Z.mod_eq, Hq by lia; lia).
  rewrite Hq, Hmod in Hok. exact Hok.
Qed.

Lemma prev_month_era (y m e : Z) :
  prev_month (y + e * 400) m =
    ((prev_month y m).1 + e * 400, (prev_month y m).2).
Proof. unfold prev_month. destruct (m =? 1); cbn [fst snd]; f_equal; lia. Qed.

Lemma prev_month_range (y m : Z) :
  1 <= m <= 12 -> 1 <= (prev_month y m).2 <= 12.
Proof. unfold prev_month. destruct (Z.eqb_spec m 1); cbn [snd]; lia. Qed.

(** The first day of a month maps back to its date, and the month before
    starts the length of that month earlier. *)
Lemma first_day_civil (y m : Z) :
  1 <= m <= 12 ->
  civil_from_days (days_from_civil y m 1) = (y, m, 1)
  /\ days_from_civil (prev_month y m).1 (prev_month y m).2 1 =
       days_from_civil y m 1
       - days_in_month (prev_month y m).1 (prev_month y m).2.
Proof.
  intros Hm.
  set (e := y / 400). set (r := y mod 400).
  assert (y = r + e * 400) as Hy by (subst r e; rewrite Z.mod_eq; lia).
  assert (0 <= r < 400) as Hr by (subst r; apply Z.mod_pos_bound; lia).
  clearbody r e. subst y.
  pose proof (month_ok_at r m Hr Hm) as Hok. rewrite <- month_ok_eq in Hok.
  apply andb_true_iff in Hok as [H1%civil_eqb_eq H2%Z.eqb_eq].
  rewrite prev_month_era. cbn [fst snd].
  rewrite !days_from_civil_era, days_in_month_era, civil_from_days_era, H1, H2.
  split; [reflexivity | lia].
Qed.

(** The first of the month of a day, and the first of the month before. *)
Lemma first_of_month (z : Z) :
  let c := civil_from_days z in
  let first := z - (c.2 - 1) in
  let p := prev_month c.1.1 c.1.2 in
  days_from_civil c.1.1 c.1.2 1 = first
  /\ civil_from_days first = (c.1.1, c.1.2, 1)
  /\ days_from_civil p.1 p.2 1 = first - days_in_month p.1 p.2
  /\ civil_from_days (first - days_in_month p.1 p.2) = (p.1, p.2, 1).
Proof.
  cbv zeta. destruct (days_from_civil_from_days z) as (Hrt & Hm & Hd).
  destruct (civil_from_days z) as [[y m] d]. cbn [fst snd] in *.
  rewrite days_from_civil_day in Hrt.
  destruct (first_day_civil y m Hm) as [H1 H2].
  destruct (first_day_civil (prev_month y m).1 (prev_month y m).2
              (prev_month_range y m Hm)) as [H3 _].
  assert (days_from_civil y m 1 = z - (d - 1)) as E by lia.
  rewrite H2 in H3. rewrite E in *. done.
Qed.

(** ** The named ranges of the resolver *)

Section ResolverMore.
Import Resolver.
Variable tz : Z.
Abbreviation zone := (fixed_zone tz).

Lemma since_monday_range (now : Z) : 0 <= since_monday zone now <= 6.
Proof.
  unfold since_monday, getDay. cbv zeta.
  set (L := LocalTime zone now / msPerDay).
  pose proof (Z.mod_pos_bound (L + 4) 7 ltac:(lia)).
  destruct (Z.eqb_spec ((L + 4) mod 7) 0); lia.
Qed.

Lemma since_monday_is_monday (now : Z) :
  getDay zone (now - since_monday zone now * msPerDay) = 1.
Proof.
  unfold since_monday, getDay, LocalTime. cbv zeta.
  cbn [fixed_zone utc_offset].
  set (L := (now + tz) / msPerDay).
  set (k := if (L + 4) mod 7 =? 0 then 6 else (L + 4) mod 7 - 1).
  replace (now - k * msPerDay + tz) with (now + tz + (- k) * msPerDay) by lia.
  rewrite day_shift. fold L. subst k.
  destruct (Z.eqb_spec ((L + 4) mod 7) 0) as [E|E];
    Z.div_mod_to_equations; lia.
Qed.

(** X8. The weeks, on a host whose zone keeps a constant offset from UTC.  The
    week starts on the Monday of the local week of the clock: going back
    [k] days, with [k] from 0 to 6, reaches a local Monday.  [this_week] runs
    from the UTC date [k] days before today to today, and [last_week] is the
    seven days before it. *)
Theorem week_ranges (now : Z) :
  - maxTime + 13 * msPerDay <= now <= maxTime ->
  let today := now / msPerDay in
  let k := since_monday zone now in
  0 <= k <= 6
  /\ getDay zone (now - k * msPerDay) = 1
  /\ resolveDateRange zone now (Preset "this_week") =
     Ret {| since := date_text (today - k); until := date_text today |}
  /\ resolveDateRange zone now (Preset "last_week") =
     Ret {| since := date_text (today - k - 7);
            until := date_text (today - k - 1) |}.
Proof.
  intros Hnow today k. pose proof (since_monday_range now) as Hk. fold k in Hk.
  split; [done|]. split; [apply since_monday_is_monday|].
  unfold resolveDateRange. cbn [String.eqb Ascii.eqb Bool.eqb]. cbv iota zeta.
  fold k. split.
  - rewrite shift_days_valid by (unfold msPerDay, maxTime in *; lia).
    rewrite both_valid, day_shift. subst today. do 3 f_equal; lia.
  - rewrite shift_days_valid by (unfold msPerDay, maxTime in *; lia).
    rewrite shift_days_valid by (unfold msPerDay, maxTime in *; lia).
    rewrite both_valid, !day_shift. subst today. do 3 f_equal; lia.
Qed.
End ResolverMore.
Section ResolverMonths.
Import Resolver.
Variable tz : Z.
Abbreviation zone := (fixed_zone tz).

Lemma MakeDay_month (y m0 dt : Z) :
  0 <= m0 <= 11 -> MakeDay y m0 dt = days_from_civil y (m0 + 1) 1 + dt - 1.
Proof.
  intros H. unfold MakeDay.
  rewrite Z.div_small, Z.mod_small, Z.add_0_r by lia. reflexivity.
Qed.

Lemma MakeDay_prev_month (y m0 : Z) :
  0 <= m0 <= 11 ->
  MakeDay y (m0 - 1) 1 =
    days_from_civil (prev_month y (m0 + 1)).1 (prev_month y (m0 + 1)).2 1.
Proof.
  intros H. unfold MakeDay, prev_month.
  destruct (Z.eqb_spec (m0 + 1) 1) as [E|E]; cbn [fst snd].
  - assert (m0 = 0) as -> by lia. change ((0 - 1) / 12) with (-1).
    change ((0 - 1) mod 12 + 1) with 12.
    replace (y + -1) with (y - 1) by lia. lia.
  - rewrite Z.div_small, Z.mod_small, Z.add_0_r by lia.
    replace (m0 - 1 + 1) with (m0 + 1 - 1) by lia. lia.
Qed.

(** [new Date(y, m, d)] on a host at the offset [tz], formatted. *)
Lemma fmt_local_midnight (day : Z) :
  - msPerDay < tz < msPerDay ->
  Z.abs (day * msPerDay - tz) <= maxTime ->
  fmt (TimeClip (UTC zone (day * msPerDay))) =
    Ret (date_text (day + (if 0 <? tz then -1 else 0))).
Proof.
  intros Htz Hv. unfold UTC. cbn [fixed_zone local_offset].
  unfold TimeClip. rewrite (proj2 (Z.leb_le _ _) Hv), fmt_valid.
  do 2 f_equal. unfold msPerDay in *.
  destruct (Z.ltb_spec 0 tz); Z.div_mod_to_equations; lia.
Qed.

(** X9. The months, on a host whose zone keeps a constant offset from UTC of
    less than a day.  [first] is the day of the first of the local month of
    the clock.  On a host at or west of UTC, [this_month] starts on that
    first and [last_month] is the whole month before it.  On a host east of
    UTC both come out one day early: local midnight of the first is still
    the day before in UTC, the zone the dates are printed in, so
    [this_month] starts on the last day of the month before and [last_month]
    leaves out its own last day.  [this_month] ends on the UTC date of the
    clock. *)
Theorem month_ranges (now : Z) :
  - msPerDay < tz < msPerDay ->
  100 <= getFullYear zone now ->
  - maxTime + 63 * msPerDay <= now <= maxTime ->
  let y := getFullYear zone now in
  let m := getMonth zone now + 1 in
  let first := (now + tz) / msPerDay - (getDate zone now - 1) in
  let len := days_in_month (prev_month y m).1 (prev_month y m).2 in
  let shift := if 0 <? tz then -1 else 0 in
  civil_from_days first = (y, m, 1)
  /\ civil_from_days (first - len) = ((prev_month y m).1, (prev_month y m).2, 1)
  /\ resolveDateRange zone now (Preset "this_month") =
     Ret {| since := date_text (first + shift);
            until := date_text (now / msPerDay) |}
  /\ resolveDateRange zone now (Preset "last_month") =
     Ret {| since := date_text (first - len + shift);
            until := date_text (first - 1 + shift) |}.
Proof.
  intros Htz Hy Hnow. cbv zeta.
  unfold resolveDateRange. cbn [String.eqb Ascii.eqb Bool.eqb]. cbv iota zeta.
  unfold Date_of_fields. cbv zeta.
  assert ((0 <=? getFullYear zone now) && (getFullYear zone now <=? 99) = false)
    as -> by lia.
  unfold getFullYear, getMonth, getDate, local_civil, LocalTime in *.
  cbn [fixed_zone utc_offset] in *.
  set (L := (now + tz) / msPerDay) in *.
  destruct (first_of_month L) as (F1 & F2 & F3 & F4).
  destruct (days_from_civil_from_days L) as (_ & Hm & Hd).
  pose proof (days_in_month_le (civil_from_days L).1.1 (civil_from_days L).1.2).
  destruct (civil_from_days L) as [[y m] d]. cbn [fst snd] in *.
  replace (m - 1 + 1) with m by lia.
  pose proof (days_in_month_le (prev_month y m).1 (prev_month y m).2) as Hlen.
  assert (1 <= days_in_month (prev_month y m).1 (prev_month y m).2) as Hlen'.
  { unfold days_in_month.
    repeat match goal with |- context [if ?b then _ else _] => destruct b end;
      lia. }
  assert (L * msPerDay <= now + tz < L * msPerDay + msPerDay) as HL.
  { subst L. unfold msPerDay. Z.div_mod_to_equations. lia. }
  split; [exact F2|]. split; [exact F4|].
  rewrite (MakeDay_prev_month y (m - 1)), !(MakeDay_month y (m - 1)) by lia.
  replace (m - 1 + 1) with m by lia. rewrite F3, F1.
  replace (L - (d - 1) + 1 - 1) with (L - (d - 1)) by lia.
  replace (L - (d - 1) + 0 - 1) with (L - (d - 1) - 1) by lia.
  unfold both.
  rewrite !fmt_local_midnight by (try done; unfold msPerDay, maxTime in *; lia).
  rewrite fmt_valid. split; reflexivity.
Qed.
End ResolverMonths.

(** X2. The days.  [today] is the UTC date of the clock, whatever the zone of
    the host; on a host whose zone keeps a constant offset from UTC,
    [yesterday] is the day before it. *)
Theorem day_ranges (now : Z) :
  - maxTime + msPerDay <= now <= maxTime ->
  let today := now / msPerDay in
  (forall zone : Zone,
     Resolver.resolveDateRange zone now (Resolver.Preset "today") =
       Ret {| Resolver.since := Resolver.date_text today;
              Resolver.until := Resolver.date_text today |})
  /\ (forall tz : Z,
       Resolver.resolveDateRange (fixed_zone tz) now
         (Resolver.Preset "yesterday") =
         Ret {| Resolver.since := Resolver.date_text (today - 1);
                Resolver.until := Resolver.date_text (today - 1) |}).
Proof.
  intros Hnow today. split.
  - intros zone. apply both_valid.
  - intros tz. unfold Resolver.resolveDateRange.
    cbn [String.eqb Ascii.eqb Bool.eqb]. cbv iota zeta.
    rewrite shift_days_valid by (unfold msPerDay, maxTime in *; lia).
    rewrite both_valid, day_shift. reflexivity.
Qed.

Lemma day_ranges_witness :
  Resolver.resolveDateRange (fixed_zone 0) Samples.noon_2025_03_15
    (Resolver.Preset "yesterday") =
  Ret {| Resolver.since := Resolver.date_text (20162 - 1);
         Resolver.until := Resolver.date_text (20162 - 1) |}.
Proof.
  apply (proj2 (day_ranges Samples.noon_2025_03_15
    ltac:(unfold maxTime, msPerDay, Samples.noon_2025_03_15; lia)) 0).
Defined.

Lemma week_ranges_witness :
  Resolver.resolveDateRange (fixed_zone 0) Samples.noon_2025_03_15
    (Resolver.Preset "last_week") =
  Ret {| Resolver.since := "2025-03-03"; Resolver.until := "2025-03-09" |}.
Proof.
  apply (proj2 (proj2 (proj2 (week_ranges 0 Samples.noon_2025_03_15
    ltac:(unfold maxTime, msPerDay, Samples.noon_2025_03_15; lia))))).
Defined.

Lemma month_ranges_witness :
  Resolver.resolveDateRange (fixed_zone (2 * Samples.hour))
    Samples.noon_2025_03_15 (Resolver.Preset "last_month") =
  Ret {| Resolver.since := "2025-01-31"; Resolver.until := "2025-02-27" |}.
Proof.
  apply (proj2 (proj2 (proj2 (month_ranges (2 * Samples.hour)
    Samples.noon_2025_03_15
    ltac:(unfold msPerDay, Samples.hour; lia)
    ltac:(change (getFullYear (fixed_zone (2 * Samples.hour))
                    Samples.noon_2025_03_15) with 2025; lia)
    ltac:(unfold maxTime, msPerDay, Samples.noon_2025_03_15; lia))))).
Defined.

(** ** Ordering of numbers *)

Lemma ge_fin (x y : Q) : ge (Fin x) (Fin y) = true <-> (y <= x)%Q.
Proof.
  cbn [ge]. rewrite Qneg_b_Qred, negb_true_iff.
  rewrite <- not_true_iff_false, Qneg_b_spec.
  unfold Qlt, Qle. destruct x as [a b], y as [c d]. cbn. lia.
Qed.

(** The difference of two doubles is positive exactly when the doubles are
    in that order: no difference other than 0 rounds to 0. *)
Lemma gt_sub_fin (x y : Q) :
  on_grid x -> on_grid y ->
  gt (sub (Fin y) (Fin x)) zero = true <-> (x < y)%Q.
Proof.
  intros Hx Hy. cbn [sub].
  rewrite (proj1 (to_double_sign (y - x) (on_grid_sub _ _ Hy Hx))).
  rewrite Qpos_b_spec. split; intros H; lra.
Qed.

(** The comparator [b - a] of a descending sort is positive exactly when
    [a >= b] fails, for operands that are not [NaN]. *)
Lemma gt_sub_ge (a b : number) :
  gridded a -> gridded b ->
  a <> NaN -> b <> NaN -> gt (sub b a) zero = negb (ge a b).
Proof.
  intros Ga Gb Ha Hb. destruct a as [| | |x], b as [| | |y]; try done.
  cbn [gridded] in Ga, Gb.
  destruct (gt (sub (Fin y) (Fin x)) zero) eqn:E1, (ge (Fin x) (Fin y)) eqn:E2;
    try reflexivity.
  - apply (gt_sub_fin x y Ga Gb) in E1. apply ge_fin in E2. exfalso.
    by apply (Qlt_not_le _ _ E1).
  - exfalso.
    assert (~ (x < y)%Q) as H1 by (rewrite <- (gt_sub_fin x y Ga Gb); congruence).
    assert (~ (y <= x)%Q) as H2 by (rewrite <- ge_fin; congruence).
    apply H2. by apply Qnot_lt_le.
Qed.

Lemma ge_trans (a b c : number) :
  ge a b = true -> ge b c = true -> ge a c = true.
Proof.
  destruct a as [| | |x], b as [| | |y], c as [| | |z]; try done.
  rewrite !ge_fin. intros H1 H2. by apply (Qle_trans _ y).
Qed.

Lemma ge_total (a b : number) :
  a <> NaN -> b <> NaN -> ge a b = false -> ge b a = true.
Proof.
  intros Ha Hb. destruct a as [| | |x], b as [| | |y]; try done.
  intros H. apply ge_fin. apply Qlt_le_weak. apply Qnot_le_lt.
  rewrite <- ge_fin. congruence.
Qed.

Lemma gt_not_NaN (a b : number) : gt a b = true -> a <> NaN.
Proof. by destruct a. Qed.

(** ** The order of the campaign entries *)

Section SortProps.
Import Metrics Report.

(** [a] may stand before [b] in a list sorted by spend, highest first. *)
Abbreviation spend_ge := (fun a b : Campaign =>
  ge (spend (c_metrics a)) (spend (c_metrics b)) = true).
Abbreviation has_spend := (fun c : Campaign =>
  spend (c_metrics c) <> NaN /\ gridded (spend (c_metrics c))).

Lemma sorts_after_ge (a b : Campaign) :
  has_spend a -> has_spend b ->
  sorts_after a b = negb (ge (spend (c_metrics a)) (spend (c_metrics b))).
Proof. intros [Ha Ga] [Hb Gb]. unfold sorts_after. by apply gt_sub_ge. Qed.

Lemma insert_by_spend_perm (c : Campaign) (l : list Campaign) :
  insert_by_spend c l ≡ₚ c :: l.
Proof.
  induction l as [|c' l IH]; [done|]. cbn [insert_by_spend].
  destruct (sorts_after c c'); [|done]. rewrite IH. apply Permutation_swap.
Qed.

Lemma sort_by_spend_perm (l : list Campaign) : sort_by_spend l ≡ₚ l.
Proof.
  induction l as [|c l IH]; [done|]. unfold sort_by_spend in *. cbn [foldr].
  by rewrite insert_by_spend_perm, IH.
Qed.

Lemma insert_by_spend_sorted (c : Campaign) (l : list Campaign) :
  has_spend c -> Forall has_spend l ->
  StronglySorted spend_ge l -> StronglySorted spend_ge (insert_by_spend c l).
Proof.
  intros Hc Hl Hs. induction Hs as [|c' l Hs IH Hall]; cbn [insert_by_spend].
  - by repeat constructor.
  - apply Forall_cons in Hl as [Hc' Hl].
    rewrite (sorts_after_ge c c' Hc Hc').
    destruct (ge (spend (c_metrics c)) (spend (c_metrics c'))) eqn:E; cbn [negb].
    + constructor; [by constructor|]. constructor; [done|].
      eapply Forall_impl; [exact Hall|]. cbn. intros x Hx.
      by eapply ge_trans.
    + constructor; [by apply IH|].
      rewrite insert_by_spend_perm. constructor; [|done].
      apply ge_total; [apply (proj1 Hc)|apply (proj1 Hc')|done].
Qed.

Lemma sort_by_spend_sorted (l : list Campaign) :
  Forall has_spend l -> StronglySorted spend_ge (sort_by_spend l).
Proof.
  induction l as [|c l IH]; intros Hl; [constructor|].
  apply Forall_cons in Hl as [Hc Hl]. unfold sort_by_spend in *. cbn [foldr].
  apply insert_by_spend_sorted; [done| |by apply IH].
  fold (sort_by_spend l). by rewrite sort_by_spend_perm.
Qed.
End SortProps.

Lemma sort_by_spend_stable (l : list Report.Campaign) :
  Forall (fun c => Metrics.spend (Report.c_metrics c) <> NaN
                   /\ gridded (Metrics.spend (Report.c_metrics c))) l ->
  StronglySorted (fun a b =>
    ge (Metrics.spend (Report.c_metrics a)) (Metrics.spend (Report.c_metrics b)) = true) l ->
  Report.sort_by_spend l = l.
Proof.
  intros Hl Hs. induction Hs as [|c l Hs IH Hall]; [reflexivity|].
  apply Forall_cons in Hl as [Hc Hl]. unfold Report.sort_by_spend in *.
  cbn [foldr]. rewrite (IH Hl). destruct l as [|c' l']; [reflexivity|].
  cbn [Report.insert_by_spend]. apply Forall_cons in Hl as [Hc' _].
  apply Forall_cons in Hall as [Hge _].
  by rewrite (sorts_after_ge c c' Hc Hc'), Hge.
Qed.

(** ** The campaign entries of a report *)

Section ReportShape.
Import Resolver Metrics Promise Report.
Variable zone : Zone.
Variable now now_report : Z.
Variable getAccountId : Exc string.
Variable graphGet : Request -> Exc Payload.

Abbreviation report_of :=
  (generate_report zone now now_report getAccountId graphGet).
Abbreviation fetch := (insights graphGet).

Lemma filter_passes_name (names : option (list string)) (l : list Campaign) :
  match names with
  | Some (f :: fs) =>
      List.filter
        (fun c => Batch.name_matches (toLowerCase <$> (f :: fs))
                                     (c_campaign_name c)) l
  | _ => l
  end = List.filter (passes_name names) l.
Proof.
  assert (List.filter (fun _ : Campaign => true) l = l) as Hall.
  { induction l as [|c l IH]; [done|]. cbn. by rewrite IH. }
  destruct names as [[|f fs]|]; cbn [passes_name]; by rewrite ?Hall.
Qed.

(** The campaign entries of a report: the campaign rows of the current
    period that pass the name filter and have a positive spend, sorted, and
    joined with the rows of the previous period when there are any. *)
Lemma by_campaign_shape (args : Args) (r : report) :
  report_of args = Ret r ->
  exists acct cur,
    getAccountId = Ret acct
    /\ resolveDateRange zone now
         (default (Preset "last_7d") (arg_time_range args)) = Ret cur
    /\ let base :=
         sort_by_spend
           (List.filter (fun c => gt (spend (c_metrics c)) zero)
              (List.filter (passes_name (arg_campaign_name_contains args))
                 (campaign_of <$>
                    rows_of (settle (fetch acct cur "campaign" (Some "50") None)))))
       in
       (default true (arg_compare_previous args) = false
        /\ by_campaign r = base)
       \/ (default true (arg_compare_previous args) = true
           /\ exists prev,
                getPreviousPeriod zone (since cur) (until cur) = Ret prev
                /\ by_campaign r =
                   match rows_of (settle (fetch acct prev "campaign"
                                            (Some "50") None)) with
                   | [] => base
                   | rows => with_comparison (prevMap_of rows) <$> base
                   end).
Proof.
  unfold generate_report. intros H. cbv zeta in H.
  destruct getAccountId as [acct|e]; [|discriminate H].
  destruct (resolveDateRange zone now _) as [cur|e]; [|discriminate H].
  exists acct, cur. split; [done|]. split; [done|]. cbv zeta.
  rewrite !Exc_bind_Ret in H.
  destruct (default true (arg_compare_previous args)) eqn:Hcmp.
  - right. split; [done|].
    destruct (getPreviousPeriod zone (since cur) (until cur)) as [prev|e];
      [|discriminate H].
    exists prev. split; [done|]. rewrite !Exc_bind_Ret in H.
    unfold allSettled in H. rewrite Exc_bind_ret in H. unfold extract in H.
    cbn [app fmap list_fmap lookup list_lookup] in H.
    rewrite !Exc_bind_ret in H.
    destruct (head (rows_of (settle (fetch acct prev "account" None None))));
      destruct (head (rows_of (settle (fetch acct cur "account" None None))));
      cbn [fmap option_fmap option_map] in H;
      rewrite ?Exc_bind_Ret, ?Exc_bind_ret in H;
      rewrite filter_passes_name in H;
      injection H as <-; cbn [by_campaign];
      by destruct (rows_of (settle (fetch acct prev "campaign" (Some "50") None))).
  - left. split; [done|].
    unfold allSettled in H. rewrite ?Exc_bind_ret in H. unfold extract in H.
    cbn [app fmap list_fmap lookup list_lookup] in H.
    rewrite ?Exc_bind_ret, ?Exc_bind_Ret in H.
    rewrite filter_passes_name in H. by injection H as <-.
Qed.
End ReportShape.

Section ReportMore.
Import Resolver Metrics Promise Report.
Variable zone : Zone.
Variable now now_report : Z.
Variable getAccountId : Exc string.
Variable graphGet : Request -> Exc Payload.

Abbreviation report_of :=
  (generate_report zone now now_report getAccountId graphGet).
Abbreviation fetch := (insights graphGet).
Abbreviation spend_ge := (fun a b : Campaign =>
  ge (spend (c_metrics a)) (spend (c_metrics b)) = true).

(** Once the account id and the ranges are known, the assembler returns. *)
Lemma report_returns (args : Args) (acct : string) (cur : DateRange) :
  getAccountId = Ret acct ->
  resolveDateRange zone now (default (Preset "last_7d") (arg_time_range args)) =
    Ret cur ->
  (default true (arg_compare_previous args) = true ->
   exists prev, getPreviousPeriod zone (since cur) (until cur) = Ret prev) ->
  exists r, report_of args = Ret r.
Proof.
  intros Hacct Hcur Hprev. unfold generate_report. rewrite Hacct, Hcur.
  rewrite !Exc_bind_Ret.
  destruct (default true (arg_compare_previous args)).
  - destruct (Hprev eq_refl) as [prev ->]. rewrite !Exc_bind_Ret.
    unfold allSettled. rewrite Exc_bind_ret. unfold extract.
    cbn [app fmap list_fmap lookup list_lookup]. rewrite !Exc_bind_ret.
    destruct (head (rows_of (settle (fetch acct prev "account" None None))));
      destruct (head (rows_of (settle (fetch acct cur "account" None None))));
      cbn [fmap option_fmap option_map];
      rewrite ?Exc_bind_Ret, ?Exc_bind_ret; eexists; reflexivity.
  - unfold allSettled. rewrite ?Exc_bind_ret. unfold extract.
    cbn [app fmap list_fmap lookup list_lookup].
    rewrite ?Exc_bind_ret, ?Exc_bind_Ret. eexists; reflexivity.
Qed.

Lemma filter_filter_and {A : Type} (p q : A -> bool) (l : list A) :
  List.filter q (List.filter p l) = List.filter (fun x => p x && q x) l.
Proof.
  induction l as [|x l IH]; [done|]. cbn [List.filter].
  destruct (p x); cbn [List.filter andb]; [destruct (q x)|]; by rewrite IH.
Qed.

Lemma core_with_comparison (m : gmap string DerivedMetrics) (l : list Campaign) :
  core <$> (with_comparison m <$> l) = core <$> l.
Proof. rewrite <- list_fmap_compose. by apply list_fmap_ext. Qed.

Lemma sorted_with_comparison (m : gmap string DerivedMetrics) (l : list Campaign) :
  StronglySorted spend_ge l ->
  StronglySorted spend_ge (with_comparison m <$> l).
Proof.
  induction 1 as [|c l Hs IH Hall]; [constructor|].
  rewrite fmap_cons. constructor; [done|].
  apply Forall_fmap. eapply Forall_impl; [exact Hall|]. done.
Qed.

(** X10. The campaign entries of a report are the campaign rows of the current
    period that pass the name filter and have a positive spend, each once,
    ordered by spend, highest first; rows that already come in that order
    keep their order. *)
Theorem by_campaign_sorted (args : Args) (acct : string) (cur : DateRange) :
  getAccountId = Ret acct ->
  resolveDateRange zone now (default (Preset "last_7d") (arg_time_range args)) =
    Ret cur ->
  (default true (arg_compare_previous args) = true ->
   exists prev, getPreviousPeriod zone (since cur) (until cur) = Ret prev) ->
  exists r,
    report_of args = Ret r
    /\ let shown :=
         List.filter
           (fun c => passes_name (arg_campaign_name_contains args) c
                     && gt (spend (c_metrics c)) zero)
           (campaign_of <$>
              rows_of (settle (fetch acct cur "campaign" (Some "50") None))) in
       core <$> by_campaign r ≡ₚ core <$> shown
       /\ StronglySorted spend_ge (by_campaign r)
       /\ (StronglySorted spend_ge shown ->
           core <$> by_campaign r = core <$> shown).
Proof.
  intros Hacct Hcur Hprev.
  destruct (report_returns args acct cur Hacct Hcur Hprev) as [r Hr].
  exists r. split; [done|]. cbv zeta.
  destruct (by_campaign_shape _ _ _ _ _ _ _ Hr) as (acct' & cur' & Ha & Hc & Hshape).
  rewrite Hacct in Ha. injection Ha as <-. rewrite Hcur in Hc. injection Hc as <-.
  cbv zeta in Hshape. rewrite filter_filter_and in Hshape.
  set (shown := List.filter _ _) in *.
  assert (Forall (fun c => spend (c_metrics c) <> NaN
                           /\ gridded (spend (c_metrics c))) shown) as Hreal.
  { apply Forall_forall. intros c Hin. apply list_elem_of_In in Hin. subst shown.
    apply filter_In in Hin as [Hc Hin].
    apply andb_true_iff in Hin as [_ Hin]. split; [by eapply gt_not_NaN|].
    apply in_map_iff in Hc as (row & <- & _). apply round2_gridded. }
  assert (core <$> by_campaign r = core <$> sort_by_spend shown
          /\ StronglySorted spend_ge (by_campaign r)) as [Hcore Hsorted].
  { destruct Hshape as [[_ ->] | [_ (prev & _ & ->)]].
    - split; [done|]. by apply sort_by_spend_sorted.
    - destruct (rows_of (settle (fetch acct prev _ _ _))).
      + split; [done|]. by apply sort_by_spend_sorted.
      + split; [apply core_with_comparison|].
        apply sorted_with_comparison. by apply sort_by_spend_sorted. }
  split; [|split; [done|]].
  - rewrite Hcore. by rewrite sort_by_spend_perm.
  - intros Hs. rewrite Hcore. by rewrite sort_by_spend_stable.
Qed.
End ReportMore.

Section ReportJoin.
Import Resolver Metrics Promise Report.
Variable zone : Zone.
Variable now now_report : Z.
Variable getAccountId : Exc string.
Variable graphGet : Request -> Exc Payload.

Abbreviation report_of :=
  (generate_report zone now now_report getAccountId graphGet).
Abbreviation fetch := (insights graphGet).

(** The row of the previous period a campaign id is compared with: the last
    one that carries the id. *)
Lemma prevMap_of_lookup (rows : list MetricRow) (k : string) :
  prevMap_of rows !! k =
    calcDerivedMetrics <$>
      last (List.filter (fun p => String.eqb (String_of (campaign_id p)) k) rows).
Proof.
  unfold prevMap_of.
  assert (forall acc : gmap string DerivedMetrics,
            foldl (fun acc r =>
                     <[String_of (campaign_id r) := calcDerivedMetrics r]> acc)
                  acc rows !! k =
            match last (List.filter
                          (fun p => String.eqb (String_of (campaign_id p)) k)
                          rows) with
            | Some p => Some (calcDerivedMetrics p)
            | None => acc !! k
            end) as Hgen.
  { induction rows as [|p rows IH]; intros acc; [reflexivity|].
    cbn [foldl List.filter]. rewrite IH.
    destruct (String.eqb_spec (String_of (campaign_id p)) k) as [E|E].
    - rewrite last_cons. destruct (last (List.filter _ rows)); [done|].
      by rewrite E, lookup_insert_eq.
    - destruct (last (List.filter _ rows)); [done|].
      by rewrite lookup_insert_ne. }
  rewrite Hgen. by destruct (last _).
Qed.

Lemma sort_by_spend_Forall (P : Campaign -> Prop) (l : list Campaign) :
  Forall P l -> Forall P (sort_by_spend l).
Proof. intros H. by rewrite sort_by_spend_perm. Qed.

Lemma filter_Forall {A : Type} (P : A -> Prop) (p : A -> bool) (l : list A) :
  Forall P l -> Forall P (List.filter p l).
Proof.
  induction 1 as [|x l Hx Hl IH]; [constructor|]. cbn [List.filter].
  destruct (p x); [by constructor | done].
Qed.

(** X11. What each campaign entry is compared with.  With the comparison on and
    at least one campaign row for the previous period, an entry is compared
    with the last row of the previous period that carries its campaign id,
    on the seven campaign metrics, and is marked [null] when no row does;
    otherwise no entry has a [vs_previous] member. *)
Theorem campaign_comparison_join (args : Args) (acct : string)
  (cur prev : DateRange) :
  getAccountId = Ret acct ->
  resolveDateRange zone now (default (Preset "last_7d") (arg_time_range args)) =
    Ret cur ->
  (default true (arg_compare_previous args) = true ->
   getPreviousPeriod zone (since cur) (until cur) = Ret prev) ->
  exists r,
    report_of args = Ret r
    /\ let prevRows :=
         rows_of (settle (fetch acct prev "campaign" (Some "50") None)) in
       Forall
         (fun c =>
            vs_previous c =
              match default true (arg_compare_previous args), prevRows with
              | true, _ :: _ =>
                  match last (List.filter
                                (fun p => String.eqb (String_of (campaign_id p))
                                            (String_of (c_campaign_id c)))
                                prevRows) with
                  | Some p =>
                      Changes (changes_of campaignMetrics (c_metrics c)
                                 (calcDerivedMetrics p))
                  | None => Null
                  end
              | _, _ => NoKey
              end)
         (by_campaign r).
Proof.
  intros Hacct Hcur Hprev.
  destruct (report_returns zone now now_report getAccountId graphGet
              args acct cur Hacct Hcur) as [r Hr].
  { intros H. eexists. by apply Hprev. }
  exists r. split; [done|]. cbv zeta.
  destruct (by_campaign_shape _ _ _ _ _ _ _ Hr)
    as (acct' & cur' & Ha & Hc & Hshape).
  rewrite Hacct in Ha. injection Ha as <-. rewrite Hcur in Hc. injection Hc as <-.
  cbv zeta in Hshape.
  set (base := sort_by_spend _) in *.
  assert (Forall (fun c => vs_previous c = NoKey) base) as Hbase.
  { subst base. apply sort_by_spend_Forall. do 2 apply filter_Forall.
    apply Forall_fmap. by apply Forall_true. }
  destruct Hshape as [[-> ->] | [Hcmp (prev' & Hp & ->)]]; [done|].
  rewrite Hcmp in *. rewrite (Hprev eq_refl) in Hp. injection Hp as <-.
  destruct (rows_of (settle (fetch acct prev _ _ _))) as [|p0 rows]; [done|].
  apply Forall_fmap. apply Forall_true. intros c.
  cbn [with_comparison vs_previous c_campaign_id c_metrics compose].
  rewrite prevMap_of_lookup. by destruct (last _).
Qed.
End ReportJoin.

(** ** Substring search and the name filter *)

Lemma prefix_spec (f s : string) :
  String.prefix f s = true <-> exists b, s = f +:+ b.
Proof.
  revert s. induction f as [|c f IH]; intros s.
  - split; [intros _; exists s; reflexivity | intros _; by destruct s].
  - destruct s as [|c' s]; cbn [String.prefix].
    + split; [done|]. intros [b Hb]. rewrite append_cons in Hb. discriminate Hb.
    + destruct (Ascii.ascii_dec c c') as [->|Hne].
      * rewrite IH. split; intros [b Hb]; exists b.
        -- by rewrite append_cons, Hb.
        -- rewrite append_cons in Hb. by injection Hb.
      * split; [done|]. intros [b Hb]. rewrite append_cons in Hb.
        injection Hb as -> _. done.
Qed.

(** [s.includes(f)] holds exactly when [f] occurs in [s]. *)
Lemma includes_spec (f s : string) :
  includes f s = true <-> exists a b, s = a +:+ f +:+ b.
Proof.
  induction s as [|c s IH]; cbn [includes].
  - rewrite orb_false_r, prefix_spec. split.
    + intros [b Hb]. by exists "", b.
    + intros (a & b & H). destruct a as [|? ?]; [by exists b|].
      by rewrite append_cons in H.
  - rewrite orb_true_iff, prefix_spec, IH. split.
    + intros [[b Hb] | (a & b & ->)].
      * by exists "", b.
      * exists (String c a), b. by rewrite append_cons.
    + intros (a & b & H). destruct a as [|c' a].
      * left. by exists b.
      * right. rewrite append_cons in H. injection H as -> ->. by exists a, b.
Qed.

Lemma includes_empty (s : string) : includes "" s = true.
Proof. apply includes_spec. by exists "", s. Qed.

Lemma lower_char_idemp (c : ascii) : lower_char (lower_char c) = lower_char c.
Proof.
  unfold lower_char. cbv zeta.
  destruct ((65 <=? nat_of_ascii c)%nat && (nat_of_ascii c <=? 90)%nat) eqn:E;
    [|by rewrite E].
  apply andb_true_iff in E as [E1%Nat.leb_le E2%Nat.leb_le].
  rewrite nat_ascii_embedding by lia.
  assert ((nat_of_ascii c + 32 <=? 90)%nat = false) as ->
    by (apply Nat.leb_gt; lia).
  by rewrite andb_false_r.
Qed.

Lemma toLowerCase_idemp (s : string) :
  toLowerCase (toLowerCase s) = toLowerCase s.
Proof.
  induction s as [|c s IH]; [done|]. cbn. by rewrite lower_char_idemp, IH.
Qed.

Lemma toLowerCase_append (s t : string) :
  toLowerCase (s +:+ t) = toLowerCase s +:+ toLowerCase t.
Proof.
  induction s as [|c s IH]; [done|].
  rewrite append_cons. cbn [toLowerCase]. by rewrite append_cons, IH.
Qed.

Lemma in_all_ascii (c : ascii) : In c all_ascii.
Proof.
  unfold all_ascii. apply in_map_iff. exists (nat_of_ascii c).
  split; [apply ascii_nat_embedding|]. apply in_seq.
  pose proof (nat_ascii_bounded c). lia.
Qed.

Lemma lower_char_same (c d : ascii) :
  Ascii.eqb (lower_char c) (lower_char d) = same_letter c d.
Proof.
  assert (forallb (fun c => forallb (fun d =>
            Bool.eqb (Ascii.eqb (lower_char c) (lower_char d)) (same_letter c d))
            all_ascii) all_ascii = true) as H by (vm_compute; reflexivity).
  rewrite forallb_forall in H. specialize (H c (in_all_ascii c)).
  rewrite forallb_forall in H. specialize (H d (in_all_ascii d)).
  by apply Bool.eqb_prop in H.
Qed.

(** Two texts have the same lower-case form exactly when they are the same
    up to letter case. *)
Lemma toLowerCase_same (s t : string) :
  toLowerCase s = toLowerCase t <-> same_text s t = true.
Proof.
  revert t. induction s as [|c s IH]; intros [|d t]; cbn; try done.
  rewrite andb_true_iff, <- IH, <- lower_char_same, Ascii.eqb_eq.
  split; [by intros [= -> ->] | by intros [-> ->]].
Qed.

Lemma toLowerCase_split (s x y : string) :
  toLowerCase s = x +:+ y ->
  exists s1 s2, s = s1 +:+ s2 /\ toLowerCase s1 = x /\ toLowerCase s2 = y.
Proof.
  revert s. induction x as [|c x IH]; intros s H.
  - by exists "", s.
  - destruct s as [|a s]; [by rewrite append_cons in H|].
    rewrite append_cons in H. cbn [toLowerCase] in H. injection H as Hc Hs.
    destruct (IH s Hs) as (s1 & s2 & -> & <- & <-).
    exists (String a s1), s2. rewrite append_cons. cbn [toLowerCase].
    by rewrite Hc.
Qed.

Lemma same_text_fmap (fs gs : list string) :
  Forall2 (fun f g => same_text f g = true) fs gs ->
  toLowerCase <$> fs = toLowerCase <$> gs.
Proof.
  induction 1 as [|f g fs gs Hfg _ IH]; [done|]. cbn.
  by rewrite IH, (proj2 (toLowerCase_same f g) Hfg).
Qed.

(** X12. The name filter of the report and of the batch tool, for names and
    filter strings of the ASCII range: a name passes exactly when it holds,
    as a substring, a text that is one of the filter strings up to letter
    case; a missing name is read as the empty string.  Names that are the
    same up to letter case, with filter strings that are so one by one,
    fare alike, and an empty filter string lets every name pass. *)
Theorem name_filter_spec (filters : list string) (name : option string) :
  ascii_text (default "" name) ->
  Forall ascii_text filters ->
  (Batch.name_matches (toLowerCase <$> filters) name = true <->
   exists f a m b,
     In f filters
     /\ default "" name = a +:+ m +:+ b
     /\ same_text m f = true)
  /\ (forall (filters' : list string) (name' : option string),
        Forall2 (fun f f' => same_text f f' = true) filters filters' ->
        same_text (default "" name) (default "" name') = true ->
        Batch.name_matches (toLowerCase <$> filters') name' =
          Batch.name_matches (toLowerCase <$> filters) name)
  /\ (In "" filters ->
      Batch.name_matches (toLowerCase <$> filters) name = true).
Proof.
  intros _ _.
  assert (Batch.name_matches (toLowerCase <$> filters) name = true <->
          exists f a m b,
            In f filters
            /\ default "" name = a +:+ m +:+ b
            /\ same_text m f = true)
    as Hspec.
  { unfold Batch.name_matches. rewrite existsb_exists. split.
    - intros (lf & Hin & Hinc). apply in_map_iff in Hin as (f & <- & Hin).
      apply includes_spec in Hinc as (a & b & H).
      apply toLowerCase_split in H as (s1 & s2 & Hn & Ha & H).
      apply toLowerCase_split in H as (m & s3 & -> & Hm & Hb).
      exists f, s1, m, s3. by rewrite toLowerCase_same in Hm.
    - intros (f & a & m & b & Hin & Hn & Hm). exists (toLowerCase f). split.
      + by apply in_map.
      + apply includes_spec. exists (toLowerCase a), (toLowerCase b).
        rewrite Hn, !toLowerCase_append.
        by rewrite (proj2 (toLowerCase_same m f) Hm). }
  split; [exact Hspec|]. split.
  - intros filters' name' Hf Hn. unfold Batch.name_matches.
    by rewrite (same_text_fmap _ _ Hf), (proj2 (toLowerCase_same _ _) Hn).
  - intros Hin. apply Hspec. exists "", "", "", (default "" name).
    split; [done|]. by split.
Qed.

Lemma name_filter_spec_witness :
  Batch.name_matches (toLowerCase <$> ["SALE"]) (Some "Summer Sale 2025") = true
  /\ Batch.name_matches (toLowerCase <$> ["sale"]) (Some "SUMMER SALE 2025") =
     Batch.name_matches (toLowerCase <$> ["SALE"]) (Some "Summer Sale 2025").
Proof.
  assert (ascii_text (default "" (Some "Summer Sale 2025"))) as Hn
    by (unfold ascii_text; cbn; repeat constructor).
  assert (Forall ascii_text ["SALE"]) as Hf
    by (repeat constructor).
  destruct (name_filter_spec ["SALE"] (Some "Summer Sale 2025") Hn Hf)
    as (H1 & H2 & _).
  split.
  - apply H1. exists "SALE", "Summer ", "Sale", " 2025".
    split; [by left|]. by split.
  - apply (H2 ["sale"] (Some "SUMMER SALE 2025")).
    + by repeat constructor.
    + reflexivity.
Defined.

(** ** Compact mode and the derived metrics *)

Lemma find_filter {A : Type} (p q : A -> bool) (l : list A) :
  (forall a, p a = true -> q a = true) ->
  List.find p (List.filter q l) = List.find p l.
Proof.
  intros H. induction l as [|a l IH]; [done|]. cbn [List.filter List.find].
  destruct (q a) eqn:Hq; cbn [List.find].
  - by rewrite IH.
  - destruct (p a) eqn:Hp; [|done]. apply H in Hp. congruence.
Qed.

Lemma getActionValue_strip (acts : option (list Metrics.Action)) (t : string) :
  Metrics.is_redundant {| Metrics.action_type := Some t; Metrics.value := None |}
    = false ->
  Metrics.getActionValue (Metrics.strip_list acts) t =
    Metrics.getActionValue acts t.
Proof.
  intros Ht. destruct acts as [l|]; [|done]. cbn.
  rewrite find_filter; [done|].
  intros a Ha. unfold Metrics.has_type in Ha. unfold Metrics.is_redundant in *.
  destruct (Metrics.action_type a) as [t'|]; [|done].
  apply String.eqb_eq in Ha as ->. cbn in *. by rewrite Ht.
Qed.

Lemma filter_idemp {A : Type} (q : A -> bool) (l : list A) :
  List.filter q (List.filter q l) = List.filter q l.
Proof.
  induction l as [|a l IH]; [done|]. cbn [List.filter].
  destruct (q a) eqn:Hq; [|done]. cbn [List.filter]. by rewrite Hq, IH.
Qed.

(** X13. Stripping the redundant action types changes no derived metric: none
    of the action types the normaliser reads is a redundant one.  Stripping
    twice is stripping once, and stripping keeps the rows and their
    campaign names. *)
Theorem strip_keeps_derived_metrics :
  (forall row : Metrics.MetricRow,
     Metrics.calcDerivedMetrics (Metrics.strip_row row) =
       Metrics.calcDerivedMetrics row)
  /\ (forall p : Metrics.Payload,
        Metrics.stripRedundantActions (Metrics.stripRedundantActions p) =
          Metrics.stripRedundantActions p)
  /\ (forall p : Metrics.Payload,
        Metrics.campaign_name <$> default [] (Metrics.data (Metrics.stripRedundantActions p)) =
          Metrics.campaign_name <$> default [] (Metrics.data p)).
Proof.
  split; [|split].
  - intros row. unfold Metrics.calcDerivedMetrics. cbv zeta.
    cbn [Metrics.strip_row Metrics.r_spend Metrics.r_impressions
         Metrics.r_clicks Metrics.r_reach Metrics.r_ctr Metrics.r_cpc
         Metrics.r_cpm Metrics.r_frequency Metrics.r_unique_clicks
         Metrics.actions Metrics.action_values].
    by rewrite !getActionValue_strip by reflexivity.
  - intros [[rows|]]; [|done]. unfold Metrics.stripRedundantActions. cbn.
    do 2 f_equal. rewrite List.map_map. apply List.map_ext. intros r.
    unfold Metrics.strip_row. cbn. unfold Metrics.strip_list.
    f_equal; (match goal with |- _ <$> (_ <$> ?o) = _ => destruct o end);
      cbn; by rewrite ?filter_idemp.
  - intros [[rows|]]; [|done]. cbn. rewrite <- list_fmap_compose.
    by apply list_fmap_ext.
Qed.

Section PostFilter.
Import Metrics Promise Batch.
Variable compact : bool.
Variable fetchOne : string -> Exc Payload.

Abbreviation item := (Batch.item compact fetchOne).

Lemma filter_sublist {A : Type} (p : A -> bool) (l : list A) :
  sublist (List.filter p l) l.
Proof.
  induction l as [|a l IH]; [constructor|]. cbn [List.filter].
  destruct (p a); by constructor.
Qed.

(** The answer of the batch handler once the ids are known. *)
Lemma bulk_known_ids (provided : option (list string))
  (autoIds : Exc (list string)) (names : option (list string))
  (ids : list string) :
  match provided with
  | Some l => mret l
  | None => autoIds
  end = Ret ids ->
  let out :=
    if nonempty names && bool_decide (is_Some provided)
    then List.filter (keep (toLowerCase <$> default [] names)) (item <$> ids)
    else item <$> ids in
  bulk_get_insights compact fetchOne provided autoIds names =
    Ret (out, List.length out).
Proof.
  intros Hids. cbv zeta. unfold bulk_get_insights.
  rewrite Hids, Exc_bind_Ret, fetchAll_items, Exc_bind_Ret. reflexivity.
Qed.

(** X3. The post-filter of the batch tool, applied when the caller gave the
    ids and at least one filter string: the answer lists outcomes in the
    order of the ids, [total] counts them, an id whose fetch failed or gave
    no row is always listed, and an id with rows is listed exactly when the
    campaign name of one of its rows passes the name filter.  Without filter
    strings every outcome is listed. *)
Theorem post_filter_keeps_failures (ids : list string)
  (autoIds : Exc (list string)) (names : option (list string)) :
  exists out,
    bulk_get_insights compact fetchOne (Some ids) autoIds names =
      Ret (out, List.length out)
    /\ sublist out (item <$> ids)
    /\ (forall id e,
          In id ids -> fetchOne id = Throw e ->
          In (WithError id (reason_message e)) out)
    /\ (forall id v,
          In id ids -> fetchOne id = Ret v -> default [] (data v) = [] ->
          In (item id) out)
    /\ (forall id v,
          In id ids -> fetchOne id = Ret v -> default [] (data v) <> [] ->
          nonempty names = true ->
          (In (item id) out <->
           exists row,
             In row (default [] (data v))
             /\ name_matches (toLowerCase <$> default [] names)
                  (campaign_name row) = true))
    /\ (nonempty names = false -> out = item <$> ids).
Proof.
  rewrite (bulk_known_ids (Some ids) autoIds names ids eq_refl).
  assert (bool_decide (is_Some (Some ids)) = true) as -> by done.
  rewrite andb_true_r.
  set (p := keep (toLowerCase <$> default [] names)).
  set (out := if nonempty names then List.filter p (item <$> ids)
              else item <$> ids).
  exists out. split; [reflexivity|].
  assert (forall o, In o out <->
                    In o (item <$> ids) /\ (nonempty names = true -> p o = true))
    as Hout.
  { intros o. subst out. destruct (nonempty names).
    - rewrite filter_In. intuition.
    - intuition discriminate. }
  assert (forall id, In id ids -> In (item id) (item <$> ids)) as Hin
    by (intros id Hid; by apply in_map).
  split; [|split; [|split; [|split]]].
  - subst out. destruct (nonempty names); [apply filter_sublist | done].
  - intros id e Hid He. apply Hout.
    assert (item id = WithError id (reason_message e)) as <-
      by (unfold Batch.item; by rewrite He).
    split; [by apply Hin|]. intros _. unfold Batch.item. by rewrite He.
  - intros id v Hid Hv Hempty. apply Hout. split; [by apply Hin|].
    intros _. unfold Batch.item. rewrite Hv. subst p. cbn.
    destruct compact; destruct v as [[[|r rows]|]]; done.
  - intros id v Hid Hv Hrows Hne. rewrite Hout.
    assert (p (item id) = true <->
            exists row, In row (default [] (data v))
                        /\ name_matches (toLowerCase <$> default [] names)
                             (campaign_name row) = true) as <-.
    { unfold Batch.item. rewrite Hv. subst p. cbn [outcome_of settle keep].
      destruct v as [[[|r rows]|]]; try done.
      destruct compact.
      - change (data (stripRedundantActions {| data := Some (r :: rows) |}))
          with (Some (strip_row r :: List.map strip_row rows)).
        cbv iota.
        change (strip_row r :: List.map strip_row rows)
          with (List.map strip_row (r :: rows)).
        rewrite existsb_exists. cbn [default from_option data]. split.
        + intros (row' & Hr' & Hm). apply in_map_iff in Hr' as (row & <- & Hr).
          by exists row.
        + intros (row & Hr & Hm). exists (strip_row row). split; [|done].
          by apply in_map.
      - cbn [data]. by rewrite existsb_exists. }
    split; [intros [_ H]; by apply H | intros H; split; [by apply Hin | done]].
  - intros Hne. subst out. by rewrite Hne.
Qed.
End PostFilter.

(** ** Rounding to hundredths *)

Section HundredthsProps.
Import Metrics.
Local Open Scope Q_scope.

Lemma parseFloat_gridded (s : string) : gridded (parseFloat s).
Proof.
  unfold parseFloat. destruct (split_sign (skip_ws s)) as [neg s1].
  destruct (starts_with "Infinity" s1); [by destruct neg|].
  destruct (span_digits s1) as [ip r1].
  destruct (match r1 with
            | String "." r => span_digits r
            | _ => ([], r1)
            end) as [fp r2].
  destruct ip, fp; try done; apply to_double_gridded.
Qed.

Lemma getActionValue_gridded acts t : gridded (getActionValue acts t).
Proof.
  unfold getActionValue. destruct acts as [l|]; [|apply (on_grid_Z 0)].
  destruct (List.find (has_type t) l); [apply parseFloat_gridded|].
  apply (on_grid_Z 0).
Qed.

(** A guarded quotient rounded to hundredths: two roundings before
    [Math.round], the first of which may fall below the normal range. *)
Lemma ratio_rounded (v s : Q) :
  on_grid v -> on_grid s -> 0 < s -> Qabs v <= ROUND_LIMIT * s ->
  rounded_to 2 (v / s)
    (Qabs (v / s) * inject_Z 100 * 2 ^ (-51) + 2 ^ (-1060))
    (round2 (div (Fin v) (Fin s))).
Proof.
  intros Hv Hs Hs0 Hb.
  assert (Qzero_b s = false) as Hz.
  { apply not_true_is_false. rewrite Qzero_b_eq. lra. }
  cbn [div]. rewrite Hz. set (t := v / s).
  assert (Qabs t <= ROUND_LIMIT) as HT.
  { unfold t. rewrite Qabs_div, (Qabs_pos s) by lra.
    apply Qle_shift_div_r; [done|]. lra. }
  pose proof limit_pow2 as HL.
  destruct (to_double_bounded t 1013) as (q1 & E1 & Hq1); [done|lra|].
  rewrite E1. destruct (to_double_error _ _ E1) as [H3 _].
  pose proof (Qabs_bound _ _ _ H3) as H4.
  destruct (round2_rounded q1 (to_double_on_grid _ _ E1) Hq1) as (k & -> & Hk).
  exists k. split; [reflexivity|].
  change (inject_Z (10 ^ 2)) with 100 in *. change (inject_Z 100) with 100 in *.
  assert (Qabs (q1 * 100 - t * 100) <=
            (Qabs t * 2 ^ (-53) + 2 ^ (-1075)) * 100) as H7.
  { rewrite Qabs_scale. change (Qabs 100) with 100.
    apply Qmult_le_compat_r; [done|lra]. }
  pose proof (Qabs_chain _ _ _ _ _ Hk H7) as H8.
  assert (2 ^ (-1075) * 100 * 2 <= 2 ^ (-1060)) as Heta
    by (apply Qle_bool_iff; vm_compute; reflexivity).
  pose proof (Qpow2_pos (-1075)) as Peta.
  pose proof (Qabs_nonneg t) as Ht0. pose proof (Qabs_nonneg q1) as Hq0.
  change (2 ^ (-53)) with (1 # 9007199254740992) in *.
  change (2 ^ (-51)) with (1 # 2251799813685248).
  lra.
Qed.

(** X14. The normaliser rounds to hundredths in double arithmetic.  Each
    of the six rounded fields, when the parsed value is within
    [ROUND_LIMIT], is the double nearest to a whole number of hundredths
    that is within one half, and the rounding error of the multiplication
    by 100, of the hundredfold of the parsed value; with a positive spend
    the return on ad spend is the quotient of revenue and spend rounded the
    same way, with the error of the division on top.  A value half way
    between two hundredths as a decimal need not go up: the double 1.005
    lies below 1.005 and gives 1, and the double 0.015 lies below 0.015
    and gives 0.02. *)
Theorem rounded_to_hundredths (row : MetricRow) :
  let m := calcDerivedMetrics row in
  let raw := fun field => parseFloat (str_or_zero (field row)) in
  let income := getActionValue (action_values row) "purchase" in
  let near := fun (x : Q) (y : number) =>
    rounded_to 2 x (Qabs x * inject_Z 100 * 2 ^ (-53)) y in
  (forall x, raw r_spend = Fin x -> Qabs x <= ROUND_LIMIT -> near x (spend m))
  /\ (forall x, raw r_frequency = Fin x -> Qabs x <= ROUND_LIMIT ->
                near x (frequency m))
  /\ (forall x, raw r_ctr = Fin x -> Qabs x <= ROUND_LIMIT -> near x (ctr m))
  /\ (forall x, raw r_cpc = Fin x -> Qabs x <= ROUND_LIMIT -> near x (cpc m))
  /\ (forall x, raw r_cpm = Fin x -> Qabs x <= ROUND_LIMIT -> near x (cpm m))
  /\ (forall x, income = Fin x -> Qabs x <= ROUND_LIMIT -> near x (revenue m))
  /\ (forall s v, raw r_spend = Fin s -> income = Fin v -> 0 < s ->
                  Qabs v <= ROUND_LIMIT * s ->
                  rounded_to 2 (v / s)
                    (Qabs (v / s) * inject_Z 100 * 2 ^ (-51) + 2 ^ (-1060))
                    (roas m))
  /\ round2 (parseFloat "1.005") = of_Z 1
  /\ round2 (parseFloat "0.015") = parseFloat "0.02".
Proof.
  cbv zeta.
  assert (forall a x, gridded a -> a = Fin x -> Qabs x <= ROUND_LIMIT ->
            rounded_to 2 x (Qabs x * inject_Z 100 * 2 ^ (-53)) (round2 a)) as H.
  { intros a x Hg -> Hx. apply round2_rounded; [done|].
    pose proof limit_pow2. lra. }
  unfold calcDerivedMetrics.
  cbn [spend frequency ctr cpc cpm revenue roas].
  repeat (split; [intros x; apply H;
                  first [apply parseFloat_gridded
                        | apply getActionValue_gridded]|]).
  split; [|split; vm_compute; reflexivity].
  - intros s v Es Ev Hs Hb.
    pose proof (parseFloat_gridded (str_or_zero (r_spend row))) as Gs.
    pose proof (getActionValue_gridded (action_values row) "purchase") as Gv.
    rewrite Es in *. rewrite Ev in *. cbn [gridded] in Gs, Gv.
    assert (gt (Fin s) zero = true) as -> by by apply gt_zero_Fin_iff.
    by apply ratio_rounded.
Qed.
End HundredthsProps.

(** ** The executor, whatever the remote end does *)

Section ExecutorGeneral.
Import Executor.
Context {json : Type}.
Variable error_of : json -> option ErrorObj.
Variable stringify : json -> string.
Variable method path : string.
Variable op : nat -> attempt_result json.
Variable retries : nat.

Abbreviation run := (attempts json error_of stringify method path op retries).
Abbreviation request :=
  (graphRequest json error_of stringify method path op retries).

Lemma deciding_spec (left a : nat) :
  let k := deciding op left a in
  (a <= k <= a + left)%nat
  /\ (forall i, (a <= i < k)%nat -> retryable (op i) = true)
  /\ ((k < a + left)%nat -> retryable (op k) = false).
Proof.
  revert a. induction left as [|left IH]; intros a; cbn [deciding].
  - cbv zeta. split; [lia|]. split; intros; lia.
  - destruct (retryable (op a)) eqn:E.
    + specialize (IH (S a)). cbv zeta in *. destruct IH as (H1 & H2 & H3).
      split; [lia|]. split.
      * intros i Hi. destruct (decide (i = a)) as [->|Hne]; [done|].
        apply H2. lia.
      * intros Hk. apply H3. lia.
    + cbv zeta. split; [lia|]. split; [intros; lia | done].
Qed.

(** The last round of the loop: an outcome that is not retryable, or the
    last attempt allowed, ends the call with the outcome of that attempt. *)
Lemma attempts_final (left a : nat) :
  retryable (op a) = false \/ a = retries ->
  exists tr,
    run (S left) a = (tr, outcome error_of stringify (op a))
    /\ fetch_count tr = 1%nat /\ sleeps tr = [].
Proof.
  intros H. cbn [attempts]. unfold outcome.
  destruct (op a) as [status body| |msg].
  - destruct (ok status) eqn:Hok; [by eexists|].
    destruct ((400 <=? status) && (status <? 500)) eqn:H4; [by eexists|].
    destruct H as [H| ->]; [cbn in H; by rewrite Hok, H4 in H|].
    rewrite Nat.ltb_irrefl. by eexists.
  - by eexists.
  - destruct H as [H| ->]; [done|]. rewrite Nat.ltb_irrefl. by eexists.
Qed.

Lemma request_decided :
  let k := deciding op retries 0 in
  exists tr,
    request = (tr, outcome error_of stringify (op k))
    /\ (k <= retries)%nat
    /\ fetch_count tr = S k
    /\ sleeps tr = backoff 0 k
    /\ (forall i, (i < k)%nat -> retryable (op i) = true)
    /\ ((k < retries)%nat -> retryable (op k) = false).
Proof.
  cbv zeta. destruct (deciding_spec retries 0) as (Hk & Hr & Hf).
  cbv zeta in *. set (k := deciding op retries 0) in *.
  destruct (attempts_skip_retryable error_of stringify method path op retries
              k (S (retries - k)) 0%nat)
    as (pre & Hrun & Hc & Hsl); [lia | intros i Hi; apply Hr; lia |].
  destruct (attempts_final (retries - k) k) as (tr & Ht & Hc' & Hs').
  { destruct (decide (k = retries)) as [E|E]; [by right|].
    left. apply Hf. lia. }
  unfold graphRequest.
  replace (S retries) with (k + S (retries - k))%nat by lia.
  rewrite Hrun. cbn [Nat.add]. rewrite Ht. unfold prepend. cbn [fst snd].
  eexists. split; [reflexivity|]. split; [lia|]. split; [|split; [|split]].
  - rewrite fetch_count_app, Hc, Hc'. lia.
  - rewrite sleeps_app, Hsl, Hs'. by rewrite app_nil_r.
  - intros i Hi. apply Hr. lia.
  - intros Hlt. apply Hf. lia.
Qed.

(** X15. Every call of the executor, whatever the remote end does: the call is
    decided by the first attempt whose outcome is not retryable, or by the
    last attempt allowed when all are retryable.  It makes one fetch per
    attempt up to that one, at least one and at most [retries + 1], sleeps
    [RETRY_DELAY_MS * (i + 1)] after each attempt [i] before it, and
    returns the body or throws the error of the deciding attempt: always
    an [ApiError], and never the closing [Max retries exceeded] of the
    source. *)
Theorem executor_decided :
  let k := deciding op retries 0 in
  exists tr,
    request = (tr, outcome error_of stringify (op k))
    /\ (k <= retries)%nat
    /\ fetch_count tr = S k
    /\ sleeps tr = backoff 0 k
    /\ (forall i, (i < k)%nat -> retryable (op i) = true)
    /\ ((k < retries)%nat -> retryable (op k) = false).
Proof. exact request_decided. Qed.
End ExecutorGeneral.

(** ** Request building *)

Section QueryProps.
Import Query.

Lemma set_fresh (k v : string) (q : SearchParams) :
  ~ In k (fst <$> q) -> set k v q = q ++ [(k, v)].
Proof.
  induction q as [|[n w] q IH]; intros H; [done|]. cbn [set].
  destruct (String.eqb_spec n k) as [->|Hne].
  - exfalso. apply H. by left.
  - cbn [app]. rewrite IH; [done|]. intros Hin. apply H. by right.
Qed.

Lemma keys_set (k v : string) (q : SearchParams) :
  NoDup (fst <$> q) -> NoDup (fst <$> set k v q)
  /\ (forall n, In n (fst <$> set k v q) <-> n = k \/ In n (fst <$> q)).
Proof.
  induction q as [|[n w] q IH]; intros Hnd.
  - cbn. split; [repeat constructor; by intros ?%elem_of_nil|]. intros; cbn; intuition congruence.
  - apply NoDup_cons in Hnd as [Hn Hnd]. cbn [set].
    destruct (String.eqb_spec n k) as [->|Hne].
    + assert (List.filter (fun p : string * string => negb (String.eqb p.1 k)) q = q)
        as ->.
      { clear IH Hnd. induction q as [|[n' w'] q IHq]; [done|].
        cbn [List.filter fst]. destruct (String.eqb_spec n' k) as [->|Hne].
        - exfalso. apply Hn. cbn. by left.
        - cbn [negb]. rewrite IHq; [done|]. intros H. apply Hn. cbn. by right. }
      split; [by apply NoDup_cons|]. intros m. cbn. intuition congruence.
    + destruct (IH Hnd) as [IH1 IH2]. split.
      * cbn. apply NoDup_cons. split; [|done].
        intros H%list_elem_of_In%IH2. destruct H as [H|H]; [done|].
        by apply Hn, list_elem_of_In.
      * intros m. cbn. rewrite IH2. intuition congruence.
Qed.
End QueryProps.

Section QueryMore.
Import Query.

Lemma keys_sent_params (params : list (string * option string)) (k : string) :
  In k (fst <$> sent_params params) -> In k (fst <$> params).
Proof.
  induction params as [|[n [v|]] params IH]; cbn; [done| |tauto].
  unfold sent_params in *. cbn. destruct (String.eqb v ""); cbn; tauto.
Qed.

Lemma keys_sent_members (body : list (string * BodyValue)) (k : string) :
  In k (fst <$> sent_members body) -> In k (fst <$> body).
Proof.
  induction body as [|[n v] body IH]; cbn; [done|].
  unfold sent_members in *. destruct v; cbn; tauto.
Qed.

Lemma sent_params_cons (k : string) (v : option string)
  (params : list (string * option string)) :
  sent_params ((k, v) :: params) =
    match v with
    | Some v => if String.eqb v "" then sent_params params
                else (k, v) :: sent_params params
    | None => sent_params params
    end.
Proof. unfold sent_params. cbn. destruct v as [v|]; [by destruct (String.eqb v "")|done]. Qed.

Lemma sent_members_cons (k : string) (v : BodyValue)
  (body : list (string * BodyValue)) :
  sent_members ((k, v) :: body) =
    match v with
    | Undefined | Null => sent_members body
    | v => (k, form_text v) :: sent_members body
    end.
Proof. unfold sent_members. cbn. by destruct v. Qed.

Lemma query_fresh (q0 : SearchParams) (params : list (string * option string)) :
  NoDup (fst <$> params) ->
  (forall k, In k (fst <$> params) -> ~ In k (fst <$> q0)) ->
  foldl (fun q p =>
           match p.2 with
           | Some v => if String.eqb v "" then q else set p.1 v q
           | None => q
           end) q0 params = q0 ++ sent_params params.
Proof.
  revert q0. induction params as [|[k v] params IH]; intros q0 Hnd Hfresh.
  - by rewrite app_nil_r.
  - rewrite fmap_cons in Hnd. apply NoDup_cons in Hnd as [Hk Hnd].
    cbn [foldl snd fst] in *.
    assert (forall q1 : SearchParams, (forall n, In n (fst <$> q1) -> n = k \/ In n (fst <$> q0)) ->
                       forall n, In n (fst <$> params) -> ~ In n (fst <$> q1))
      as Hstep.
    { intros q1 Hq1 n Hn Hin. destruct (Hq1 n Hin) as [->|H].
      - by apply Hk, list_elem_of_In.
      - apply (Hfresh n); [by right | done]. }
    rewrite sent_params_cons.
    destruct v as [v|]; [destruct (String.eqb v "")|].
    + apply IH; [done|]. intros n Hn. apply Hfresh. by right.
    + rewrite set_fresh by (apply Hfresh; by left).
      rewrite IH; [by rewrite <- app_assoc | done |].
      apply Hstep. intros n. rewrite fmap_app, in_app_iff. cbn.
      intuition congruence.
    + apply IH; [done|]. intros n Hn. apply Hfresh. by right.
Qed.

Lemma form_fresh (q0 : SearchParams) (body : list (string * BodyValue)) :
  NoDup (fst <$> body) ->
  (forall k, In k (fst <$> body) -> ~ In k (fst <$> q0)) ->
  foldl (fun q p =>
           match p.2 with
           | Undefined | Null => q
           | v => set p.1 (form_text v) q
           end) q0 body = q0 ++ sent_members body.
Proof.
  revert q0. induction body as [|[k v] body IH]; intros q0 Hnd Hfresh.
  - by rewrite app_nil_r.
  - rewrite fmap_cons in Hnd. apply NoDup_cons in Hnd as [Hk Hnd].
    cbn [foldl snd fst] in *.
    assert (foldl (fun q p =>
                     match p.2 with
                     | Undefined | Null => q
                     | v => set p.1 (form_text v) q
                     end) (q0 ++ [(k, form_text v)]) body =
            (q0 ++ [(k, form_text v)]) ++ sent_members body) as Hset.
    { apply IH; [done|]. intros n Hn. rewrite fmap_app, in_app_iff. cbn.
      intros [H|[<-|[]]].
      - apply (Hfresh n); [by right | done].
      - by apply Hk, list_elem_of_In. }
    assert (foldl (fun q p =>
                     match p.2 with
                     | Undefined | Null => q
                     | v => set p.1 (form_text v) q
                     end) q0 body = q0 ++ sent_members body) as Hskip.
    { apply IH; [done|]. intros n Hn. apply Hfresh. by right. }
    rewrite sent_members_cons.
    destruct v; try done;
      rewrite set_fresh by (apply Hfresh; by left);
      rewrite Hset; by rewrite <- app_assoc.
Qed.

Lemma query_keys (q0 : SearchParams) (params : list (string * option string)) :
  NoDup (fst <$> q0) ->
  let q := foldl (fun q p =>
                    match p.2 with
                    | Some v => if String.eqb v "" then q else set p.1 v q
                    | None => q
                    end) q0 params in
  NoDup (fst <$> q) /\ (forall k, In k (fst <$> q0) -> In k (fst <$> q)).
Proof.
  revert q0. induction params as [|[k v] params IH]; intros q0 Hnd; [done|].
  cbn [foldl snd fst]. destruct v as [v|]; [destruct (String.eqb v "")|];
    try by apply IH.
  destruct (keys_set k v q0 Hnd) as [H1 H2].
  destruct (IH _ H1) as [H3 H4]. split; [done|].
  intros n Hn. apply H4, H2. by right.
Qed.

(** X16. What a request sends.  The query of a request on a plain path carries
    each name once and always the access token.  When the parameters bear
    distinct names and none is [access_token], the query is the token
    followed by the parameters that are neither [undefined] nor empty, in
    their order.  A form body sends every member that is neither
    [undefined] nor [null], in order: an empty string is sent in a body
    and dropped from a query. *)
Theorem request_pairs (token : string) :
  (forall params,
     NoDup (fst <$> query token [] params)
     /\ In "access_token" (fst <$> query token [] params))
  /\ (forall params,
        NoDup (fst <$> params) -> ~ In "access_token" (fst <$> params) ->
        query token [] (Some params) =
          ("access_token", token) :: sent_params params)
  /\ (forall body,
        NoDup (fst <$> body) -> form body = sent_members body)
  /\ (forall k,
        form [(k, Text "")] = [(k, "")]
        /\ query token [] (Some [(k, Some "")]) = [("access_token", token)]).
Proof.
  split; [|split; [|split]].
  - intros params. unfold query.
    destruct (query_keys (set "access_token" token []) (default [] params))
      as [H1 H2].
    { cbn. apply NoDup_singleton. }
    split; [exact H1|]. apply H2. cbn. by left.
  - intros params Hnd Hk. unfold query. cbn [default from_option set].
    rewrite query_fresh; [done | done |].
    intros k Hin [<-|[]]. done.
  - intros body Hnd. unfold form. rewrite form_fresh; [done | done |].
    intros k _ [].
  - intros k. split; reflexivity.
Qed.
End QueryMore.

(** ** Account discovery *)

Section AccountProps.
Import Account.
Variable remote : nat -> Exc Accounts.

Lemma getAccountId_cached (c : ascii) (id : string) (n : nat) :
  let st := {| cachedAccountId := Some (String c id); lookups := n |} in
  getAccountId remote st = (Ret (String c id), st).
Proof. reflexivity. Qed.

Lemma calls_cached (c : ascii) (id : string) (k n : nat) :
  let st := {| cachedAccountId := Some (String c id); lookups := k |} in
  calls remote n st = (replicate n (Ret (String c id)), st).
Proof.
  cbv zeta. induction n as [|n IH]; [reflexivity|].
  cbn [calls]. rewrite getAccountId_cached. cbn [fst snd]. by rewrite IH.
Qed.

(** X17. The account id is looked up once.  After a call that returned a
    non-empty id, every later call returns the same id and sends no lookup,
    whatever the remote end would answer.  A call that fails caches nothing:
    it has sent one lookup and leaves the cache as it was, so the next call
    looks up again.  A lookup that lists no account fails with status
    403. *)
Theorem account_id_cached :
  (forall st st' id,
     getAccountId remote st = (Ret id, st') -> id <> "" ->
     forall n, calls remote n st' = (replicate n (Ret id), st'))
  /\ (forall st st' e,
        getAccountId remote st = (Throw e, st') ->
        cachedAccountId st' = cachedAccountId st
        /\ lookups st' = S (lookups st))
  /\ (forall st result,
        cachedAccountId st = None ->
        remote (lookups st) = Ret result ->
        default [] (data result) = [] ->
        (getAccountId remote st).1 = Throw NO_ACCOUNTS).
Proof.
  split; [|split].
  - intros [cache k] st' id H Hid n. unfold getAccountId in H.
    cbn [cachedAccountId lookups] in H.
    assert (exists k', st' = {| cachedAccountId := Some id; lookups := k' |})
      as [k' ->].
    { destruct cache as [[|c s]|].
      - destruct (remote k) as [[[[|i l]|]]|e]; try discriminate H.
        injection H as <- <-. by eexists.
      - injection H as <- <-. by eexists.
      - destruct (remote k) as [[[[|i l]|]]|e]; try discriminate H.
        injection H as <- <-. by eexists. }
    destruct id as [|c s]; [done|]. apply calls_cached.
  - intros [cache k] st' e H. unfold getAccountId in H.
    cbn [cachedAccountId lookups] in *.
    destruct cache as [[|c s]|]; try discriminate H;
      destruct (remote k) as [[[[|i l]|]]|e']; try discriminate H;
      by injection H as <- <-.
  - intros [cache k] [d] Hc Hr Hd. cbn in *. subst cache.
    unfold getAccountId. cbn [cachedAccountId lookups]. rewrite Hr.
    cbn [data]. by destruct d as [[|i l]|].
Qed.
End AccountProps.

(** ** The insights tools *)

Section InsightsProps.
Import Resolver Metrics Insights.

Lemma member_assign (k k' v : string) (ps : Params) :
  member k (assign k' v ps) = if String.eqb k k' then Some v else member k ps.
Proof.
  unfold member. induction ps as [|[n w] ps IH]; cbn [assign].
  - cbn. rewrite (String.eqb_sym k' k). by destruct (String.eqb k k').
  - destruct (String.eqb_spec n k') as [->|Hne]; cbn [List.find fst].
    + rewrite (String.eqb_sym k' k). by destruct (String.eqb k k').
    + destruct (String.eqb_spec n k) as [->|Hnk].
      * by rewrite (proj2 (String.eqb_neq k k')).
      * exact IH.
Qed.

Lemma keys_assign (k v : string) (ps : Params) :
  NoDup (fst <$> ps) ->
  NoDup (fst <$> assign k v ps)
  /\ (forall n, In n (fst <$> assign k v ps) <-> n = k \/ In n (fst <$> ps)).
Proof.
  induction ps as [|[n w] ps IH]; intros Hnd.
  - cbn. split; [apply NoDup_singleton|]. intros; intuition congruence.
  - rewrite fmap_cons in Hnd. apply NoDup_cons in Hnd as [Hn Hnd].
    cbn [assign]. destruct (String.eqb_spec n k) as [->|Hne].
    + split; [rewrite fmap_cons; by apply NoDup_cons|].
      intros m. cbn. intuition congruence.
    + destruct (IH Hnd) as [IH1 IH2]. split.
      * rewrite fmap_cons. apply NoDup_cons. split; [|done]. cbn [fst].
        intros H%list_elem_of_In%IH2. destruct H as [H|H]; [done|].
        by apply Hn, list_elem_of_In.
      * intros m. cbn. rewrite IH2. intuition congruence.
Qed.

Lemma NoDup_assign (k v : string) (ps : Params) :
  NoDup (fst <$> ps) -> NoDup (fst <$> assign k v ps).
Proof. intros H. by apply keys_assign. Qed.

Lemma NoDup_assign_if (k : string) (v : option string) (ps : Params) :
  NoDup (fst <$> ps) -> NoDup (fst <$> assign_if k v ps).
Proof. destruct v as [[|c s]|]; cbn; auto using NoDup_assign. Qed.

Lemma member_assign_if (k k' : string) (v : option string) (ps : Params) :
  String.eqb k k' = false -> member k (assign_if k' v ps) = member k ps.
Proof.
  intros H. destruct v as [[|c s]|]; cbn [assign_if]; try done.
  by rewrite member_assign, H.
Qed.

Lemma NoDup_set_increment tb ti (ps : Params) :
  NoDup (fst <$> ps) -> NoDup (fst <$> set_increment tb ti ps).
Proof.
  intros H. unfold set_increment.
  destruct tb as [[]|]; [by apply NoDup_assign..|].
  destruct ti as [n|]; [|done]. destruct (n =? 0); [done|by apply NoDup_assign].
Qed.

Lemma member_set_increment (k : string) tb ti (ps : Params) :
  String.eqb k "time_increment" = false ->
  member k (set_increment tb ti ps) = member k ps.
Proof.
  intros H. unfold set_increment.
  destruct tb as [[]|]; rewrite ?member_assign, ?H; try done.
  destruct ti as [n|]; [|done]. destruct (n =? 0); [done|].
  by rewrite member_assign, H.
Qed.

(** The parameters [insight_params] builds from the parameters [ps] that
    hold the time window. *)
Lemma insight_params_window (zone : Zone) (now : Z) (args : Args) :
  match insight_params zone now args with
  | Ret ps =>
      exists ws,
        set_time zone now (time_range args) (date_preset args)
          [("fields", Report.INSIGHT_FIELDS)] = Ret ws
        /\ (NoDup (fst <$> ws) -> NoDup (fst <$> ps))
        /\ (forall k, In k ["fields"; "time_range"; "date_preset"] ->
                      member k ps = member k ws)
  | Throw e =>
      set_time zone now (time_range args) (date_preset args)
        [("fields", Report.INSIGHT_FIELDS)] = Throw e
  end.
Proof.
  unfold insight_params. cbv zeta.
  destruct (set_time zone now _ _ _) as [ws|e]; [|reflexivity].
  rewrite Exc_bind_Ret. cbn [mret Exc_ret]. exists ws. split; [done|]. split.
  - intros H. do 2 apply NoDup_assign_if.
    destruct (limit args) as [n|]; [destruct (truthy n)|];
      try apply NoDup_assign; do 2 apply NoDup_assign_if;
      by apply NoDup_set_increment.
  - intros k Hk.
    assert (String.eqb k "breakdowns" = false /\ String.eqb k "level" = false
            /\ String.eqb k "limit" = false /\ String.eqb k "after" = false
            /\ String.eqb k "action_attribution_windows" = false
            /\ String.eqb k "time_increment" = false) as (H1 & H2 & H3 & H4 & H5 & H6).
    { cbn in Hk. destruct Hk as [<-|[<-|[<-|[]]]]; done. }
    rewrite !member_assign_if by done.
    destruct (limit args) as [n|]; [destruct (truthy n)|];
      rewrite ?member_assign, ?H3, !member_assign_if by done;
      by apply member_set_increment.
Qed.

(** X18. The time window of an insights request.  The request carries exactly
    one of [time_range] and [date_preset], no name twice, and always
    [fields].  A range object is passed on as it is; a name of the preset
    list of the Graph API is passed on as [date_preset] and never resolved
    on this host; any other name is resolved here, and the request fails
    exactly when the resolver does.  [date_preset] is read only when
    [time_range] is absent or empty, and the default is [last_7d]. *)
Theorem insight_time_window (zone : Zone) (now : Z) (args : Args) :
  let window := fun ps => (member "time_range" ps, member "date_preset" ps) in
  let result := insight_params zone now args in
  let checked := fun w =>
    match result with
    | Ret ps =>
        window ps = w
        /\ member "fields" ps = Some Report.INSIGHT_FIELDS
        /\ NoDup (fst <$> ps)
    | Throw _ => False
    end in
  match time_range args with
  | Some (Explicit r) => checked (Some (Json.of_range r), None)
  | Some (Preset (String c s)) =>
      let name := String c s in
      if existsb (String.eqb name) datePresetEnum
      then checked (None, Some name)
      else match resolveDateRange zone now (Preset name) with
           | Ret r => checked (Some (Json.of_range r), None)
           | Throw e => result = Throw e
           end
  | _ =>
      match date_preset args with
      | Some (String c s) => checked (None, Some (String c s))
      | _ => checked (None, Some "last_7d")
      end
  end.
Proof.
  cbv zeta. pose proof (insight_params_window zone now args) as H.
  assert (forall k v, NoDup (fst <$> assign k v [("fields", Report.INSIGHT_FIELDS)]))
    as Hnd by (intros k v; apply NoDup_assign, NoDup_singleton).
  unfold set_time in H. unfold mret, Exc_ret in H.
  destruct (time_range args) as [[[|c s]|r]|].
  3: { (* a range object *)
    destruct (insight_params zone now args) as [ps|e]; [|discriminate H].
    destruct H as (ws & [= <-] & H1 & H2).
    rewrite !H2 by (cbn; tauto). split; [reflexivity|]. split; [reflexivity|].
    apply H1. exact (Hnd "time_range" _). }
  2: { (* a name *)
    destruct (existsb _ datePresetEnum) eqn:Hin.
    - destruct (insight_params zone now args) as [ps|e]; [|discriminate H].
      destruct H as (ws & [= <-] & H1 & H2).
      rewrite !H2 by (cbn; tauto). split; [reflexivity|]. split; [reflexivity|].
      apply H1. exact (Hnd "date_preset" _).
    - destruct (resolveDateRange zone now _) as [r|e].
      + rewrite Exc_bind_Ret in H.
        destruct (insight_params zone now args) as [ps|e]; [|discriminate H].
        destruct H as (ws & [= <-] & H1 & H2).
        rewrite !H2 by (cbn; tauto). split; [reflexivity|].
        split; [reflexivity|]. apply H1. exact (Hnd "time_range" _).
      + rewrite Exc_bind_Throw in H.
        by destruct (insight_params zone now args) as [ps|e'];
          [destruct H as (ws & [=] & _) | rewrite H]. }
  all: destruct (date_preset args) as [[|c s]|];
    (destruct (insight_params zone now args) as [ps|e]; [|discriminate H]);
    destruct H as (ws & [= <-] & H1 & H2);
    rewrite !H2 by (cbn; tauto); (split; [reflexivity|]);
    (split; [reflexivity|]); apply H1; exact (Hnd "date_preset" _).
Qed.
End InsightsProps.

Section InsightsBlank.
Import Resolver Metrics Insights.
Variable zone : Zone.
Variable now : Z.
Variable z_number : number -> bool.
Hypothesis z_number_NaN : z_number NaN = false.
Hypothesis z_number_Fin : forall q, z_number (Fin q) = true.

Lemma assign_if_nonblank (k : string) (v : option string) (ps : Params) :
  assign_if k (nonblank v) ps = assign_if k v ps.
Proof. by destruct v as [[|c s]|]. Qed.

Lemma set_time_blank (tr : option TimeRange) (dp : option string) (ps : Params) :
  set_time zone now (nonblank_range tr) (nonblank dp) ps =
    set_time zone now tr dp ps.
Proof. by destruct tr as [[[|c s]|r]|], dp as [[|c' s']|]. Qed.

Lemma insight_params_blank (args : Args) :
  insight_params zone now (blank_as_absent args) =
    insight_params zone now args.
Proof.
  unfold insight_params, blank_as_absent. cbv zeta.
  cbn [time_range date_preset time_breakdown time_increment breakdowns level
       limit after action_attribution_windows].
  rewrite set_time_blank.
  destruct (set_time zone now _ _ _) as [ws|e]; [|done].
  rewrite !Exc_bind_Ret, !assign_if_nonblank.
  destruct (limit args) as [n|]; [|done]. cbn [truthy_number].
  destruct (truthy n) eqn:E; [by rewrite E | done].
Qed.

Lemma get_insights_parsed_blank getAccountId graphGet (args : Args) :
  get_insights_parsed zone now getAccountId graphGet (blank_as_absent args) =
    get_insights_parsed zone now getAccountId graphGet args.
Proof.
  unfold get_insights_parsed. rewrite insight_params_blank.
  assert (default false (compact (blank_as_absent args)) =
          default false (compact args)) as ->
    by (unfold blank_as_absent; cbn; by destruct (compact args) as [[]|]).
  unfold blank_as_absent. cbn [object_id].
  by destruct (object_id args) as [[|c s]|].
Qed.

Lemma schema_ok_blank (args : Args) :
  schema_ok z_number args = true ->
  schema_ok z_number (blank_as_absent args) = true.
Proof.
  unfold schema_ok, blank_as_absent.
  cbn [time_increment level limit truthy_number].
  intros H. apply andb_true_iff in H as [-> H]. cbn [andb].
  destruct (limit args) as [n|]; [|done]. cbn [truthy_number].
  by destruct (truthy n).
Qed.

(** X19. What [get_insights] does with empty arguments.  The schema refuses
    a [time_increment] of zero (or outside 1 to 90), an empty [level] (or
    one that is none of the four levels) and a [limit] of [NaN]: the tool
    throws before it asks for anything.  It accepts arguments whose
    [time_increment] and [level] are in range and whose [limit] is finite.
    For arguments it accepts, an empty string for [object_id],
    [time_range], [date_preset], [breakdowns], [after] or the attribution
    windows, a [limit] of zero and a [compact] of [false] give the call the
    tool makes without them: with an empty [object_id] the tool reports on
    the whole account.  With an [object_id] the account is never looked
    up. *)
Theorem blank_arguments_absent (graphGet : string -> Params -> Exc Payload)
  (args : Args) :
  ((time_increment args = Some 0 \/ level args = Some "" \/ limit args = Some NaN
    \/ (exists n, time_increment args = Some n /\ ~ 1 <= n <= 90)
    \/ (exists l, level args = Some l
                  /\ ~ In l ["account"; "campaign"; "adset"; "ad"])) ->
   forall getAccountId,
     get_insights zone now getAccountId graphGet z_number args = Refused)
  /\ ((forall n, time_increment args = Some n -> 1 <= n <= 90) ->
      (forall l, level args = Some l ->
                 In l ["account"; "campaign"; "adset"; "ad"]) ->
      (forall n, limit args = Some n -> exists q, n = Fin q) ->
      forall getAccountId,
        get_insights zone now getAccountId graphGet z_number args =
          Accepted
            (get_insights_parsed zone now getAccountId graphGet args))
  /\ (forall getAccountId r,
        get_insights zone now getAccountId graphGet z_number args = Accepted r ->
        get_insights zone now getAccountId graphGet z_number
          (blank_as_absent args) = Accepted r)
  /\ (forall c s, object_id args = Some (String c s) ->
      forall lookup1 lookup2,
        get_insights zone now lookup1 graphGet z_number args =
          get_insights zone now lookup2 graphGet z_number args)
  /\ (object_id args = Some "" ->
      forall getAccountId r,
        get_insights zone now getAccountId graphGet z_number args = Accepted r ->
        r = (target ← getAccountId;
             params ← insight_params zone now args;
             result ← graphGet ("/" +:+ target +:+ "/insights") params;
             mret (if default false (compact args)
                   then stripRedundantActions result else result))).
Proof.
  split; [|split; [|split; [|split]]].
  - intros H getAccountId. unfold get_insights.
    assert (schema_ok z_number args = false) as ->; [|done].
    unfold schema_ok.
    destruct H as [H | [H | [H | [(n & H & Hn) | (l & H & Hl)]]]]; rewrite H.
    + reflexivity.
    + cbn. by rewrite andb_false_r.
    + rewrite z_number_NaN. by rewrite andb_false_r.
    + cbn [increment_ok]. by assert ((1 <=? n) && (n <=? 90) = false) as -> by lia.
    + assert (enum_ok ["account"; "campaign"; "adset"; "ad"] (Some l) = false)
        as ->; [|by rewrite andb_false_r].
      apply not_true_is_false. intros E. apply Hl. cbn in E.
      rewrite !orb_true_iff in E. cbn.
      destruct E as [E|[E|[E|[E|E]]]]; try discriminate E;
        apply String.eqb_eq in E; auto.
  - intros Hn Hl Hq getAccountId. unfold get_insights.
    assert (schema_ok z_number args = true) as ->; [|done].
    unfold schema_ok. repeat (apply andb_true_iff; split).
    + destruct (time_increment args) as [n|]; [|done]. cbn.
      specialize (Hn n eq_refl). lia.
    + destruct (level args) as [l|]; [|done]. cbn.
      destruct (Hl l eq_refl) as [<-|[<-|[<-|[<-|[]]]]]; reflexivity.
    + destruct (limit args) as [n|]; [|done].
      destruct (Hq n eq_refl) as [q ->]. apply z_number_Fin.
  - intros getAccountId r. unfold get_insights.
    destruct (schema_ok z_number args) eqn:E; [|discriminate].
    rewrite (schema_ok_blank _ E), get_insights_parsed_blank. done.
  - intros c s H l1 l2. unfold get_insights, get_insights_parsed. by rewrite H.
  - intros H getAccountId r. unfold get_insights, get_insights_parsed.
    destruct (schema_ok z_number args); [|discriminate].
    intros [= <-]. by rewrite H.
Qed.
End InsightsBlank.

Section BulkProps.
Import Resolver Metrics Insights.
Variable zone : Zone.
Variable now : Z.
Variable getAccountId : Exc string.
Variable listCampaigns : string -> Params -> Exc CampaignList.
Variable graphGet : string -> Params -> Exc Payload.

Abbreviation bulk :=
  (bulk_get_insights zone now getAccountId listCampaigns graphGet).
Abbreviation ids_of :=
  (auto_ids getAccountId listCampaigns).

Lemma bulk_schema_ok_spec (args : BulkArgs) :
  bulk_schema_ok args = true <->
  (forall ids, object_ids args = Some ids ->
               (1 <= List.length ids <= 50)%nat /\ ~ In "" ids)
  /\ (forall n, b_time_increment args = Some n -> 1 <= n <= 90)
  /\ (forall l, b_level args = Some l -> In l ["campaign"; "adset"; "ad"]).
Proof.
  unfold bulk_schema_ok. rewrite !andb_true_iff. split.
  - intros [[Hids Hn] Hl]. split; [|split].
    + intros ids E. rewrite E in Hids.
      apply andb_true_iff in Hids as [Hlen Hne].
      apply andb_true_iff in Hlen as [H1%Nat.leb_le H2%Nat.leb_le].
      split; [lia|]. intros Hin. rewrite forallb_forall in Hne.
      specialize (Hne "" Hin). discriminate Hne.
    + intros n E. rewrite E in Hn. cbn in Hn. lia.
    + intros l E. rewrite E in Hl. cbn in Hl. rewrite !orb_true_iff in Hl.
      cbn. destruct Hl as [Hl|[Hl|[Hl|Hl]]]; try discriminate Hl;
        apply String.eqb_eq in Hl; auto.
  - intros (Hids & Hn & Hl). split; [split|].
    + destruct (object_ids args) as [ids|]; [|done].
      destruct (Hids ids eq_refl) as [Hlen Hne].
      rewrite !andb_true_iff. split; [split; apply Nat.leb_le; lia|].
      apply forallb_forall. intros id Hin.
      destruct (String.eqb_spec id "") as [->|]; [done | reflexivity].
    + destruct (b_time_increment args) as [n|]; [|done]. cbn.
      specialize (Hn n eq_refl). lia.
    + destruct (b_level args) as [l|]; [|done]. cbn.
      destruct (Hl l eq_refl) as [<-|[<-|[<-|[]]]]; reflexivity.
Qed.

(** X20. When the batch tool fails, and what it lists.  The schema refuses
    an [object_ids] that is empty, has more than fifty ids or holds an empty
    id, a [time_increment] outside 1 to 90 and a [level] that is none of
    campaign, adset and ad: the tool throws before it asks for anything.
    Every other call is accepted, and then no failure of a fetch for one of
    the ids makes the tool fail: it fails exactly when the time window
    cannot be resolved or, the caller having given no ids, when the account
    or its campaigns cannot be listed.  Given ids, it lists outcomes in the
    order of the ids and [total] counts them.  Without ids it fetches the
    campaigns whose name passes the filter and lists the outcome of every
    one of them: the name filter is applied to the campaign listing and not
    again to the rows. *)
Theorem bulk_failure_modes (args : BulkArgs) :
  let compact := default false (b_compact args) in
  let names := campaign_name_contains args in
  let items := fun ps ids =>
    Batch.item compact (fun id => graphGet ("/" +:+ id +:+ "/insights") ps)
      <$> ids in
  let valid :=
    (forall ids, object_ids args = Some ids ->
                 (1 <= List.length ids <= 50)%nat /\ ~ In "" ids)
    /\ (forall n, b_time_increment args = Some n -> 1 <= n <= 90)
    /\ (forall l, b_level args = Some l -> In l ["campaign"; "adset"; "ad"]) in
  (~ valid -> bulk args = Refused)
  /\ (valid ->
      exists r,
        bulk args = Accepted r
        /\ (forall ids,
              object_ids args = Some ids ->
              match bulk_params zone now args with
              | Ret ps =>
                  exists out,
                    r = Ret (out, List.length out)
                    /\ sublist out (items ps ids)
              | Throw e => r = Throw e
              end)
        /\ (object_ids args = None ->
            match ids_of names with
            | Ret ids =>
                match bulk_params zone now args with
                | Ret ps => r = Ret (items ps ids, List.length ids)
                | Throw e => r = Throw e
                end
            | Throw e => r = Throw e
            end))
  /\ (forall acct listing,
        getAccountId = Ret acct ->
        listCampaigns ("/" +:+ acct +:+ "/campaigns")
          [("fields", "id,name"); ("limit", "50");
           ("filtering", ACTIVE_OR_PAUSED)] = Ret listing ->
        ids_of names =
          Ret (id <$>
               List.filter
                 (fun c => negb (Batch.nonempty names)
                           || Batch.name_matches
                                (toLowerCase <$> default [] names)
                                (Some (name c)))
                 (default [] (campaigns listing)))).
Proof.
  cbv zeta. split; [|split].
  - intros Hv. unfold bulk_get_insights.
    destruct (bulk_schema_ok args) eqn:E; [|done].
    exfalso. apply Hv. by apply bulk_schema_ok_spec.
  - intros Hv. apply bulk_schema_ok_spec in Hv. unfold bulk_get_insights.
    rewrite Hv. eexists. split; [reflexivity|]. split.
    + intros ids Hids. unfold bulk_get_insights_parsed. rewrite Hids.
      cbn [mret Exc_ret]. rewrite Exc_bind_Ret.
      destruct (bulk_params zone now args) as [ps|e]; [|reflexivity].
      rewrite Exc_bind_Ret.
      rewrite (bulk_known_ids _ _ (Some ids) (Ret ids) _ ids eq_refl).
      eexists. split; [reflexivity|].
      destruct (Batch.nonempty _ && _); [apply filter_sublist | done].
    + intros Hids. unfold bulk_get_insights_parsed. rewrite Hids.
      destruct (ids_of (campaign_name_contains args)) as [ids|e]; [|reflexivity].
      rewrite Exc_bind_Ret.
      destruct (bulk_params zone now args) as [ps|e]; [|reflexivity].
      rewrite Exc_bind_Ret.
      rewrite (bulk_known_ids _ _ None (mret ids) _ ids eq_refl).
      assert (bool_decide (is_Some (@None (list string))) = false) as -> by done.
      rewrite andb_false_r. by rewrite length_fmap.
  - intros acct listing Ha Hl. unfold auto_ids. rewrite Ha, Exc_bind_Ret, Hl.
    rewrite Exc_bind_Ret. cbn [mret Exc_ret]. do 2 f_equal.
    destruct (campaign_name_contains args) as [[|f fs]|]; cbn [Batch.nonempty negb orb].
    + induction (default [] (campaigns listing)) as [|c l IH]; [done|].
      cbn. by rewrite <- IH.
    + reflexivity.
    + induction (default [] (campaigns listing)) as [|c l IH]; [done|].
      cbn. by rewrite <- IH.
Qed.
End BulkProps.

Lemma blank_arguments_absent_witness :
  Insights.get_insights (fixed_zone 0) Samples.noon_2025_03_15 (Ret "act_1")
    (fun _ _ => Ret {| Metrics.data := None |})
    (fun n => match n with NaN => false | _ => true end)
    {| Insights.object_id := Some "";
       Insights.time_range := None;
       Insights.date_preset := None;
       Insights.time_breakdown := None;
       Insights.time_increment := Some 0;
       Insights.breakdowns := None;
       Insights.level := None;
       Insights.limit := None;
       Insights.after := None;
       Insights.action_attribution_windows := None;
       Insights.compact := None |} = Insights.Refused.
Proof.
  apply (proj1 (blank_arguments_absent (fixed_zone 0) Samples.noon_2025_03_15
                  (fun n => match n with NaN => false | _ => true end)
                  eq_refl (fun q => eq_refl)
                  (fun _ _ => Ret {| Metrics.data := None |}) _)).
  left. reflexivity.
Defined.

(** ** Campaign creation *)

Section CampaignProps.
Import Query Campaigns.

Lemma keys_put (k : string) (v : BodyValue) (body : Body) :
  NoDup (fst <$> body) -> NoDup (fst <$> put k v body).
Proof.
  induction body as [|[n w] body IH]; intros Hnd.
  - apply NoDup_singleton.
  - rewrite fmap_cons in Hnd. apply NoDup_cons in Hnd as [Hn Hnd].
    cbn [put]. destruct (String.eqb_spec n k) as [->|Hne].
    + rewrite fmap_cons. by apply NoDup_cons.
    + rewrite fmap_cons. apply NoDup_cons. split; [|by apply IH].
      cbn [fst]. intros Hin. apply Hn. clear -Hin Hne.
      induction body as [|[n' w'] body IH]; cbn [put] in Hin.
      * apply list_elem_of_In in Hin. cbn in Hin. intuition congruence.
      * destruct (String.eqb_spec n' k) as [->|Hne'];
          rewrite fmap_cons in *; cbn [fst] in *;
          apply elem_of_cons in Hin as [->|Hin]; try (by left).
        -- by right.
        -- right. by apply IH.
Qed.

Lemma keys_rest_of (args : CreateArgs) : NoDup (fst <$> rest_of args).
Proof.
  unfold rest_of.
  destruct (status args), (daily_budget args), (lifetime_budget args),
    (bid_strategy args), (special_ad_categories args), (spend_cap args);
    cbn; apply NoDup_ListNoDup;
    repeat (constructor; [cbn; intuition discriminate|]); constructor.
Qed.

Lemma keys_create_body (args : CreateArgs) : NoDup (fst <$> create_body args).
Proof.
  unfold create_body. cbv zeta.
  repeat match goal with
         | |- context [if ?b then _ else _] => destruct b
         end;
    repeat apply keys_put; apply keys_rest_of.
Qed.
End CampaignProps.

Section CampaignDefaults.
Import Query Campaigns.

Lemma form_create_body (args : CreateArgs) :
  form (create_body args) = sent_members (create_body args).
Proof.
  unfold form. rewrite form_fresh; [done | apply keys_create_body |].
  intros k _ [].
Qed.

(** X21. What [create_campaign] posts.  The status is never empty: it is
    [PAUSED] unless the caller gives one.  [special_ad_categories] is
    always sent.  When neither budget is given, the campaign is set up for
    ad set budgets: the sharing flag is sent, [false] only if the caller
    said so, and the bid strategy defaults to the lowest cost one; when a
    budget is given, the flag is not sent and no bid strategy is made up.
    [use_adset_level_budgets] itself is never sent, and no name is sent
    twice. *)
Theorem create_campaign_defaults (args : CreateArgs) :
  let f := form (create_body args) in
  let no_budget :=
    negb (given (daily_budget args)) && negb (given (lifetime_budget args)) in
  NoDup (fst <$> f)
  /\ get "name" f = Some (name args)
  /\ get "objective" f = Some (objective args)
  /\ get "status" f =
     (if given (status args) then status args else Some "PAUSED")
  /\ get "special_ad_categories" f =
     Some match special_ad_categories args with
          | Some l => json_strings l
          | None => "[]"
          end
  /\ get "is_adset_budget_sharing_enabled" f =
     (if no_budget
      then Some (if bool_decide (use_adset_level_budgets args = Some false)
                 then "false" else "true")
      else None)
  /\ get "bid_strategy" f =
     (if given (bid_strategy args) then bid_strategy args
      else if no_budget then Some "LOWEST_COST_WITHOUT_CAP"
      else bid_strategy args)
  /\ get "use_adset_level_budgets" f = None
  /\ get "daily_budget" f = daily_budget args
  /\ get "lifetime_budget" f = lifetime_budget args
  /\ get "spend_cap" f = spend_cap args.
Proof.
  cbv zeta. split.
  - rewrite form_create_body.
    pose proof (keys_create_body args) as H.
    induction (create_body args) as [|[k v] body IH]; [constructor|].
    rewrite fmap_cons in H. apply NoDup_cons in H as [Hk H].
    rewrite sent_members_cons.
    assert (NoDup (fst <$> (k, form_text v) :: sent_members body)) as Hc.
    { rewrite fmap_cons. apply NoDup_cons. split; [|by apply IH].
      intros Hin%list_elem_of_In%keys_sent_members. by apply Hk, list_elem_of_In. }
    destruct v; try exact Hc; by apply IH.
  - rewrite form_create_body.
    destruct args as [n o st db lb bs sac use sc].
    destruct st as [[|? ?]|], db as [[|? ?]|], lb as [[|? ?]|],
      bs as [[|? ?]|], sac as [?|], use as [[]|], sc as [?|];
      repeat split; reflexivity.
Qed.
End CampaignDefaults.

(** ** Tool dispatch *)

Section ServerProps.
Import Executor Server.
Context {Args : Type}.

Lemma toolMap_get_unique (tools : list (ToolDef Args)) (t : ToolDef Args) :
  NoDup (name <$> tools) -> In t tools -> toolMap_get tools (name t) = Some t.
Proof.
  unfold toolMap_get. induction tools as [|t' tools IH]; intros Hnd Hin; [done|].
  rewrite fmap_cons in Hnd. apply NoDup_cons in Hnd as [Hn Hnd].
  cbn [List.filter].
  assert (forall u, In u tools -> String.eqb (name u) (name t') = false) as Hfresh.
  { intros u Hu. apply String.eqb_neq. intros E. apply Hn. rewrite <- E.
    apply list_elem_of_In. by apply in_map. }
  destruct Hin as [->|Hin].
  - rewrite String.eqb_refl.
    assert (List.filter (fun u => String.eqb (name u) (name t)) tools = []) as ->;
      [|done].
    clear -Hfresh. induction tools as [|u tools IH]; [done|]. cbn [List.filter].
    rewrite (Hfresh u) by by left. apply IH. intros v Hv. apply Hfresh. by right.
  - rewrite String.eqb_sym, (Hfresh t Hin). by apply IH.
Qed.

Lemma toolMap_get_name (tools : list (ToolDef Args)) (n : string)
  (t : ToolDef Args) :
  toolMap_get tools n = Some t -> In t tools /\ name t = n.
Proof.
  unfold toolMap_get. intros H. apply last_Some in H as [l H].
  assert (In t (List.filter (fun u => String.eqb (name u) n) tools)) as Hin
    by (rewrite H; apply in_app_iff; right; by left).
  apply filter_In in Hin as [Hin E]. by apply String.eqb_eq in E.
Qed.

(** X22. The registry.  The names the server lists are pairwise distinct, so no
    tool shadows another; with distinct names the dispatcher runs, for the
    name of a listed tool, that tool, and it answers a name that is not
    listed with the error that names every tool. *)
Theorem registry_complete (tools : list (ToolDef Args)) :
  NoDup tool_names
  /\ List.length tool_names = 43%nat
  /\ (NoDup (name <$> tools) ->
      forall t, In t tools -> toolMap_get tools (name t) = Some t)
  /\ (forall n args,
        ~ In n (name <$> tools) ->
        call_tool tools n args =
          errorResult ("Unknown tool " +:+ Json.quote +:+ n +:+ Json.quote +:+
                       ". Available: " +:+ String.concat ", " (name <$> tools))).
Proof.
  split; [|split; [|split]].
  - apply (bool_decide_unpack _). vm_compute. reflexivity.
  - reflexivity.
  - intros Hnd t Hin. by apply toolMap_get_unique.
  - intros n args Hn. unfold call_tool.
    destruct (toolMap_get tools n) as [t|] eqn:E; [|done].
    apply toolMap_get_name in E as [Hin <-]. exfalso. apply Hn. by apply in_map.
Qed.

Context {json : Type}.
Variable error_of : json -> option ErrorObj.
Variable stringify : json -> string.
Variable method path : string.
Variable op : nat -> attempt_result json.
Variable retries : nat.

Abbreviation request :=
  (graphRequest json error_of stringify method path op retries).

(** X23. From the remote end to the answer of the tool.  For a tool whose
    handler passes on what one Graph request returns or throws, the answer
    is read off the attempt that decides the request: its rendered body for
    a 2xx response; [Error: API error (<status>): <detail>] for any other
    response; [Error: API error (408): Request timed out after 30000ms]
    for a deadline; [Error: API error (0): Network error: <message>] for
    any other exception. *)
Theorem graph_errors_surface (tools : list (ToolDef Args)) (toolName : string)
  (args : Args) (tool : ToolDef Args) (render : json -> ToolResult) :
  toolMap_get tools toolName = Some tool ->
  handler tool args =
    match request.2 with
    | Ret body => inl (render body)
    | Throw e => inr (Thrown e)
    end ->
  call_tool tools toolName args =
    match op (deciding op retries 0) with
    | Responded status body =>
        if ok status then render body
        else errorResult ("API error (" +:+ Z_to_string status +:+ "): " +:+
                          errDetail json error_of stringify status body)
    | Aborted =>
        errorResult "API error (408): Request timed out after 30000ms"
    | Failed msg => errorResult ("API error (0): Network error: " +:+ msg)
    end.
Proof.
  intros Htool Hh. unfold call_tool. rewrite Htool, Hh.
  destruct (request_decided error_of stringify method path op retries)
    as (tr & -> & _).
  cbn [snd]. unfold outcome.
  destruct (op (deciding op retries 0)) as [status body| |msg];
    [by destruct (ok status) | reflexivity | reflexivity].
Qed.
End ServerProps.

(** ** Catalog discovery *)

Section CatalogProps.
Import Promise Catalogs.
Context {catalog : Type}.
Variable account_catalogs : string -> Exc (Listing catalog).
Variable businesses : Exc (Listing string).
Variable owned_catalogs : nat -> string -> Exc (Listing catalog).
Variable me_catalogs : Exc (Listing catalog).

Abbreviation gathered := (gather catalog owned_catalogs).

Lemma gather_spec (ids : list string) (i : nat) :
  List.length (gathered i ids).1 = List.length ids
  /\ (forall c,
        In c (gathered i ids).2 <->
        exists j b cats,
          ids !! j = Some b
          /\ owned_catalogs (i + j) b = Ret cats
          /\ In c (default [] (data cats))).
Proof.
  revert i. induction ids as [|b ids IH]; intros i; cbn [gather fst snd].
  - split; [done|]. intros c. split; [done|]. by intros (j & b & cats & H & _).
  - destruct (IH (S i)) as [IH1 IH2]. split; [cbn; by rewrite IH1|].
    intros c. rewrite in_app_iff, IH2. split.
    + intros [Hc | (j & b' & cats & Hj & Ho & Hc)].
      * destruct (owned_catalogs i b) as [cats|e] eqn:E; [|done].
        exists 0%nat, b, cats. by rewrite Nat.add_0_r.
      * exists (S j), b', cats. split; [done|]. split; [|done].
        by replace (i + S j)%nat with (S i + j)%nat by lia.
    + intros ([|j] & b' & cats & Hj & Ho & Hc).
      * left. cbn in Hj. injection Hj as <-. rewrite Nat.add_0_r in Ho.
        by rewrite Ho.
      * right. exists j, b', cats. split; [done|]. split; [|done].
        by replace (S i + j)%nat with (i + S j)%nat by lia.
Qed.

(** X24. The fallbacks of the catalog tool, once the account id is known.  The
    tool sends at least one and at most three requests besides one per
    business.  A request on the account that succeeds is
    the only request sent, and its result is passed on even when it lists
    nothing.  When that request fails, a catalog listed for any of the
    businesses is reported; the failure of a request for one business is
    passed over.  The note comes only when the account endpoint and the
    user endpoint both failed and no business gave a catalog. *)
Theorem catalog_fallbacks (id : string) :
  let p1 := "/" +:+ id +:+ "/product_catalogs" in
  let ids := match businesses with
             | Ret bs => default [] (data bs)
             | Throw _ => []
             end in
  let answer :=
    get_product_catalogs catalog account_catalogs businesses owned_catalogs
      me_catalogs id in
  (1 <= List.length answer.1 <= 3 + List.length ids)%nat
  /\ (forall result,
        account_catalogs p1 = Ret result -> answer = ([p1], Passed result))
  /\ (forall e j b cats c,
        account_catalogs p1 = Throw e ->
        ids !! j = Some b -> owned_catalogs j b = Ret cats ->
        In c (default [] (data cats)) ->
        exists found, answer.2 = Collected found /\ In c found)
  /\ (forall found,
        answer.2 = Collected found ->
        found <> []
        /\ forall c, In c found ->
             exists j b cats,
               ids !! j = Some b /\ owned_catalogs j b = Ret cats
               /\ In c (default [] (data cats)))
  /\ (forall text,
        answer.2 = Note text ->
        (exists e, account_catalogs p1 = Throw e)
        /\ (exists e, me_catalogs = Throw e)
        /\ forall j b cats,
             ids !! j = Some b -> owned_catalogs j b = Ret cats ->
             default [] (data cats) = []).
Proof.
  cbv zeta. unfold get_product_catalogs. cbv zeta.
  destruct (account_catalogs _) as [r1|e1] eqn:E1.
  { split; [cbn; lia|]. split; [by intros ? [= <-]|].
    split; [by intros|]. split; by intros. }
  destruct businesses as [bs|e2].
  - destruct (gather_spec (default [] (data bs)) 0) as [Hlen Hin].
    destruct (gathered 0 (default [] (data bs))) as [paths found] eqn:G.
    cbn [fst snd] in *.
    destruct found as [|c0 found].
    + destruct me_catalogs as [r3|e3] eqn:E3; cbn [fst snd].
      all: split; [cbn; rewrite length_app, Hlen; cbn; lia|].
      all: split; [done|].
      all: split;
        [intros e j b cats c _ Hj Ho Hc; exfalso;
         apply (proj2 (Hin c)); by exists j, b, cats|].
      all: split; [done|].
      * done.
      * intros text _. split; [by eexists|]. split; [by eexists|].
        intros j b cats Hj Ho. destruct (default [] (data cats)) as [|c l] eqn:Ec;
          [done|].
        exfalso. apply (proj2 (Hin c)). exists j, b, cats. rewrite Ec.
        split; [done|]. split; [done|]. by left.
    + cbn [fst snd]. split; [cbn; rewrite Hlen; lia|]. split; [done|].
      split.
      { intros e j b cats c _ Hj Ho Hc. eexists. split; [reflexivity|].
        apply Hin. by exists j, b, cats. }
      split; [|done].
      intros found' [= <-]. split; [done|]. intros c Hc. by apply Hin.
  - destruct me_catalogs as [r3|e3] eqn:E3; cbn [fst snd].
    all: split; [cbn; lia|]. all: split; [done|].
    all: split; [by intros e j b cats c _ Hj|]. all: split; [done|].
    + done.
    + intros text _. split; [by eexists|]. split; [by eexists|]. by intros.
Qed.
End CatalogProps.

(** ** Creative duplication *)

Section CreativeProps.
Import Creative.

Lemma feed_member_assign (k k' : string) (v : value) (o : Members) :
  member k (assign k' v o) = if String.eqb k k' then Some v else member k o.
Proof.
  unfold member. induction o as [|[n w] o IH]; cbn [assign].
  - cbn. rewrite (String.eqb_sym k' k). by destruct (String.eqb k k').
  - destruct (String.eqb_spec n k') as [->|Hne]; cbn [List.find fst].
    + rewrite (String.eqb_sym k' k). by destruct (String.eqb k k').
    + destruct (String.eqb_spec n k) as [->|Hnk].
      * by rewrite (proj2 (String.eqb_neq k k')).
      * exact IH.
Qed.

Lemma feed_member_remove (k k' : string) (o : Members) :
  member k (remove k' o) = if String.eqb k k' then None else member k o.
Proof.
  unfold member, remove. induction o as [|[n w] o IH]; cbn [List.filter].
  - by destruct (String.eqb k k').
  - cbn [fst]. destruct (String.eqb_spec n k') as [->|Hne]; cbn [negb List.find fst].
    + rewrite IH. rewrite (String.eqb_sym k' k). by destruct (String.eqb k k').
    + destruct (String.eqb_spec n k) as [->|Hnk]; [|exact IH].
      by rewrite (proj2 (String.eqb_neq k k')).
Qed.

Lemma feed_member_map_array (f : list value -> list value) (k k' : string)
  (o : Members) :
  member k (map_array f k' o) =
    if String.eqb k k'
    then match member k' o with
         | Some (Arr items) => Some (Arr (f items))
         | v => v
         end
    else member k o.
Proof.
  unfold map_array. destruct (String.eqb_spec k k') as [->|Hne].
  - destruct (member k' o) as [[]|] eqn:E; rewrite ?feed_member_assign, ?String.eqb_refl;
      by rewrite ?E.
  - destruct (member k' o) as [[]|]; try done.
    by rewrite feed_member_assign, (proj2 (String.eqb_neq k k')).
Qed.

Lemma feed_member_override (k k' : string) (make : string -> value)
  (v : option string) (o : Members) :
  member k (override k' make v o) =
    if String.eqb k k' && given v then make <$> v else member k o.
Proof.
  unfold override, given. destruct v as [[|c s]|]; rewrite ?andb_false_r; try done.
  rewrite feed_member_assign. by destruct (String.eqb k k').
Qed.
End CreativeProps.

Section DedupeProps.
Import Creative.
Variable key : string.

Abbreviation keys := (fmap (key_of key)).

Lemma read_key_of (item : value) :
  item <> Null -> read key item = Ret (key_of key item).
Proof. by destruct item. Qed.

Lemma existsb_app_l {A : Type} (f : A -> bool) (l1 l2 : list A) :
  existsb f l1 = true -> existsb f (l1 ++ l2) = true.
Proof. intros H. by rewrite existsb_app, H. Qed.

Lemma dedupe_null (seen : list (option value)) (items : list value) :
  In Null items ->
  dedupe key seen items = Throw (OtherError "Cannot read properties of null").
Proof.
  revert seen. induction items as [|a items IH]; intros seen Hin; [done|].
  cbn [dedupe]. destruct Hin as [->|Hin]; [reflexivity|].
  destruct a; try reflexivity; cbn [read mret Exc_ret]; rewrite Exc_bind_Ret;
    (destruct (existsb _ seen); [by apply IH|]; by rewrite IH).
Qed.

Lemma dedupe_spec (seen : list (option value)) (items : list value) :
  ~ In Null items ->
  exists out,
    dedupe key seen items = Ret out
    /\ sublist out items
    /\ (forall i b, out !! i = Some b ->
          existsb (same_value_zero (key_of key b)) (seen ++ keys (take i out))
          = false)
    /\ (forall a, In a items ->
          In a out
          \/ existsb (same_value_zero (key_of key a)) (seen ++ keys out) = true)
    /\ (existsb (same_value_zero (default None (key_of key <$> head items))) seen
        = false -> head out = head items).
Proof.
  revert seen. induction items as [|a items IH]; intros seen Hnull.
  - exists []. split; [done|]. split; [constructor|]. done.
  - assert (a <> Null) as Ha by (intros ->; apply Hnull; by left).
    assert (~ In Null items) as Hrest by (intros H; apply Hnull; by right).
    cbn [dedupe]. rewrite (read_key_of a Ha), Exc_bind_Ret.
    destruct (existsb (same_value_zero (key_of key a)) seen) eqn:E.
    + destruct (IH seen Hrest) as (out & Hrun & Hsub & Hp & Hc & _).
      exists out. split; [done|]. split; [by constructor|].
      split; [done|]. split.
      * intros b [<-|Hb]; [right; by apply existsb_app_l | by apply Hc].
      * cbn. by rewrite E.
    + destruct (IH (seen ++ [key_of key a]) Hrest)
        as (out & Hrun & Hsub & Hp & Hc & _).
      rewrite Hrun, Exc_bind_Ret. exists (a :: out). split; [done|].
      split; [by constructor|]. split; [|split].
      * intros [|i] b Hi.
        -- cbn in Hi. injection Hi as <-. cbn [take fmap list_fmap].
           by rewrite app_nil_r.
        -- cbn in Hi. cbn [take]. rewrite fmap_cons.
           specialize (Hp i b Hi). by rewrite <- app_assoc in Hp.
      * intros b [<-|Hb]; [left; by left|].
        destruct (Hc b Hb) as [H|H]; [left; by right|]. right.
        rewrite fmap_cons. by rewrite <- app_assoc in H.
      * done.
Qed.

Lemma dedupe_kept (seen : list (option value)) (out : list value) :
  ~ In Null out ->
  (forall i b, out !! i = Some b ->
     existsb (same_value_zero (key_of key b)) (seen ++ keys (take i out))
     = false) ->
  dedupe key seen out = Ret out.
Proof.
  revert seen. induction out as [|a out IH]; intros seen Hnull Hp; [done|].
  assert (a <> Null) as Ha by (intros ->; apply Hnull; by left).
  cbn [dedupe]. rewrite (read_key_of a Ha), Exc_bind_Ret.
  pose proof (Hp 0%nat a eq_refl) as H0. cbn [take fmap list_fmap] in H0.
  rewrite app_nil_r in H0. rewrite H0.
  rewrite IH; [done | intros H; apply Hnull; by right |].
  intros i b Hi. specialize (Hp (S i) b Hi). cbn [take] in Hp.
  rewrite fmap_cons in Hp. by rewrite <- app_assoc.
Qed.

(** X25. [deduplicateByKey].  On a list without [null] it returns a sublist of
    the items, in their order, that starts with the first item; no two
    items kept have equal values under the key; every item dropped has the
    value of an item kept; and removing duplicates again changes nothing.
    Items without the key all count as equal, so at most one of them is
    kept.  A [null] among the items makes the call throw. *)
Theorem dedupe_by_key (items : list value) :
  (In Null items ->
   deduplicateByKey items key =
     Throw (OtherError "Cannot read properties of null"))
  /\ (~ In Null items ->
      exists out,
        deduplicateByKey items key = Ret out
        /\ sublist out items
        /\ head out = head items
        /\ (forall i j a b,
              (i < j)%nat -> out !! i = Some a -> out !! j = Some b ->
              same_value_zero (key_of key b) (key_of key a) = false)
        /\ (forall a, In a items ->
              In a out
              \/ exists b, In b out
                   /\ same_value_zero (key_of key a) (key_of key b) = true)
        /\ deduplicateByKey out key = Ret out).
Proof.
  split; [apply dedupe_null|]. intros Hnull.
  destruct (dedupe_spec [] items Hnull) as (out & Hrun & Hsub & Hp & Hc & Hh).
  exists out. split; [done|]. split; [done|]. split; [by apply Hh|].
  assert (~ In Null out) as Hnull'.
  { intros H. apply Hnull. apply list_elem_of_In.
    eapply elem_of_sublist; [|exact Hsub]. by apply list_elem_of_In. }
  split; [|split].
  - intros i j a b Hij Hi Hj. specialize (Hp j b Hj). cbn [app] in Hp.
    destruct (same_value_zero (key_of key b) (key_of key a)) eqn:E; [|done].
    rewrite <- Hp. symmetry. apply existsb_exists. exists (key_of key a).
    split; [|done]. apply in_map. apply list_elem_of_In.
    apply elem_of_take. by exists i.
  - intros a Ha. destruct (Hc a Ha) as [H|H]; [by left|]. right.
    cbn [app] in H. apply existsb_exists in H as (v & Hv & E).
    apply in_map_iff in Hv as (b & <- & Hb). by exists b.
  - apply dedupe_kept; [done|]. exact Hp.
Qed.
End DedupeProps.

Section FeedProps.
Import Creative.

Abbreviation clean := (fun v : option value =>
  forall items item m,
    v = Some (Arr items) -> In item items -> item = Obj m ->
    member "adlabels" m = None).

Abbreviation all_clean := (fun o : Members =>
  forall field, In field ASSET_FIELDS -> clean (member field o)).

Lemma digit_not_a (d : ascii) : is_digit d = true -> Ascii.eqb d "a" = false.
Proof.
  unfold is_digit. intros H. apply andb_true_iff in H as [_ H%Nat.leb_le].
  apply Ascii.eqb_neq. intros ->.
  change (nat_of_ascii "a") with 97%nat in H. lia.
Qed.

Lemma index_not_adlabels (i : Z) :
  0 <= i -> String.eqb (Z_to_string i) "adlabels" = false.
Proof.
  intros Hi. destruct (Z.eq_dec i 0) as [->|Hne]; [reflexivity|].
  destruct (Z_to_string_digits i ltac:(lia)) as (ds & -> & Hok & Hds & _).
  destruct ds as [|d ds]; [done|]. cbn in Hok.
  apply andb_true_iff in Hok as [Hd _]. cbn. by rewrite (digit_not_a d Hd).
Qed.

Lemma member_indexed_adlabels (l : list value) (i : Z) :
  0 <= i -> member "adlabels" (indexed i l) = None.
Proof.
  revert i. induction l as [|x l IH]; intros i Hi; [done|].
  unfold member in *. cbn [indexed List.find fst].
  rewrite (index_not_adlabels i Hi). apply IH. lia.
Qed.

Lemma strip_item_clean (item : value) (m : Members) :
  strip_item item = Obj m -> member "adlabels" m = None.
Proof.
  destruct item; cbn [strip_item]; try discriminate; intros [= <-];
    by rewrite feed_member_remove.
Qed.

Lemma spread_strip_item (item : value) :
  member "adlabels" (spread (strip_item item)) = None.
Proof.
  destruct item as [| | |s|l|m]; cbn [strip_item spread]; try done.
  - by apply member_indexed_adlabels.
  - by rewrite feed_member_remove.
  - by rewrite feed_member_remove.
Qed.

Lemma clean_stripLabels (items : list value) :
  clean (Some (Arr (stripLabels items))).
Proof.
  intros items' item m [= <-] Hin ->. unfold stripLabels in Hin.
  apply in_map_iff in Hin as (x & Hx & _). by eapply strip_item_clean.
Qed.

Lemma clean_link_urls (items : list value) :
  clean (Some (Arr items)) -> clean (Some (Arr (clean_link_url <$> items))).
Proof.
  intros Hc items' item m [= <-] Hin ->.
  apply in_map_iff in Hin as (x & Hx & Hin). unfold clean_link_url in Hx.
  assert (member "adlabels" (spread x) = None) as Hs.
  { destruct x as [| | |s|l|mx]; cbn [spread]; try done.
    - by apply member_indexed_adlabels.
    - by apply member_indexed_adlabels.
    - by apply (Hc items (Obj mx) mx). }
  destruct (member "display_url" (spread x)) as [[| | |[|? ?]| |]|];
    injection Hx as <-; try done.
  by rewrite feed_member_remove.
Qed.

Lemma clean_sublist (out items : list value) :
  sublist out items -> clean (Some (Arr items)) -> clean (Some (Arr out)).
Proof.
  intros Hsub Hc items' item m [= <-] Hin ->.
  apply (Hc items (Obj m) m eq_refl); [|done].
  apply list_elem_of_In. eapply elem_of_sublist; [|exact Hsub].
  by apply list_elem_of_In.
Qed.

Lemma all_clean_remove (k : string) (o : Members) :
  all_clean o -> all_clean (remove k o).
Proof.
  intros H field Hf items item m Hm. rewrite feed_member_remove in Hm.
  destruct (String.eqb field k); [done|]. by eapply H.
Qed.

Lemma all_clean_assign (k : string) (v : value) (o : Members) :
  clean (Some v) -> all_clean o -> all_clean (assign k v o).
Proof.
  intros Hv H field Hf items item m Hm. rewrite feed_member_assign in Hm.
  destruct (String.eqb field k); [by eapply Hv | by eapply H].
Qed.

Lemma all_clean_override (k : string) (make : string -> value)
  (v : option string) (o : Members) :
  (forall s, clean (Some (make s))) -> all_clean o ->
  all_clean (override k make v o).
Proof.
  intros Hv H. unfold override. destruct v as [[|c s]|]; try done.
  apply all_clean_assign; [apply Hv | exact H].
Qed.

Lemma all_clean_map_links (k : string) (o : Members) :
  all_clean o -> all_clean (map_array (fmap clean_link_url) k o).
Proof.
  intros H field Hf items item m Hm. rewrite feed_member_map_array in Hm.
  destruct (String.eqb_spec field k) as [->|Hne]; [|by eapply H].
  destruct (member k o) as [[| | | |l|]|] eqn:E; try done.
  injection Hm as <-. apply (clean_link_urls l); [|reflexivity].
  intros items' item' m' [= <-]. by apply (H k Hf).
Qed.
End FeedProps.

Section FeedRewrite.
Import Creative.

Lemma member_stripped (fields : list string) (o : Members) (k : string) :
  NoDup fields ->
  member k (foldl (fun o field => map_array stripLabels field o) o fields) =
    if existsb (String.eqb k) fields
    then match member k o with
         | Some (Arr items) => Some (Arr (stripLabels items))
         | v => v
         end
    else member k o.
Proof.
  revert o. induction fields as [|f fields IH]; intros o Hnd; [done|].
  apply NoDup_cons in Hnd as [Hf Hnd]. cbn [foldl existsb].
  rewrite (IH _ Hnd), feed_member_map_array.
  destruct (String.eqb_spec k f) as [->|Hne]; cbn [orb]; [|done].
  assert (existsb (String.eqb f) fields = false) as ->; [|done].
  apply not_true_iff_false. intros (x & Hx & E%String.eqb_eq)%existsb_exists.
  subst x. by apply Hf, list_elem_of_In.
Qed.

Lemma dedupe_throws (key : string) (seen : list (option value))
  (items : list value) (e : exn) :
  dedupe key seen items = Throw e -> In Null items.
Proof.
  revert seen e. induction items as [|a items IH]; intros seen e H; [done|].
  cbn [dedupe] in H.
  destruct a; try (by left); cbn [read mret Exc_ret] in H;
    rewrite Exc_bind_Ret in H; right;
    (destruct (existsb _ seen); [by eapply IH|]);
    (destruct (dedupe key _ items) as [kept|e'] eqn:E;
     [rewrite Exc_bind_Ret in H; discriminate H | by eapply IH]).
Qed.

Lemma strip_item_null (x : value) : strip_item x = Null -> x = Null.
Proof. by destruct x. Qed.

(** The keys outside a list of literals. *)
Lemma not_in_eqb (k : string) (l : list string) :
  ~ In k l -> Forall (fun x => String.eqb k x = false) l.
Proof.
  intros H. apply Forall_forall. intros x Hx%list_elem_of_In.
  apply String.eqb_neq. by intros ->.
Qed.
End FeedRewrite.

Section FeedTheorem.
Import Creative.

Abbreviation clean := (fun v : option value =>
  forall items item m,
    v = Some (Arr items) -> In item items -> item = Obj m ->
    member "adlabels" m = None).
Abbreviation all_clean := (fun o : Members =>
  forall field, In field ASSET_FIELDS -> clean (member field o)).
Abbreviation distinct_hashes := (fun v : option value =>
  forall items i j a b,
    v = Some (Arr items) ->
    (i < j)%nat -> items !! i = Some a -> items !! j = Some b ->
    same_value_zero (key_of "hash" b) (key_of "hash" a) = false).

Ltac members :=
  repeat (rewrite ?feed_member_assign, ?feed_member_remove,
            ?feed_member_override, ?feed_member_map_array;
          cbn [String.eqb Ascii.eqb Bool.eqb andb]).

(** The stages after the images are handled, on any object [o]. *)
Lemma rewrite_tail (ov : Overrides) (feed o : Members) :
  all_clean o ->
  (forall k, ~ In k ASSET_FIELDS -> member k o = member k feed) ->
  distinct_hashes (member "images" o) ->
  exists out,
    finish_feed ov o = Ret out
  /\ member "asset_customization_rules" out = None
  /\ all_clean out
  /\ distinct_hashes (member "images" out)
  /\ (any_override ov = true ->
      member "onsite_destinations" out = None
      /\ member "shops_bundle" out = None
      /\ member "reasons_to_shop" out = None
      /\ member "optimization_type" out <> Some (Str "PLACEMENT"))
  /\ (forall k, ~ In k REWRITTEN_FIELDS -> member k out = member k feed)
  /\ (any_override ov = false ->
      forall k, ~ In k ASSET_FIELDS ->
                k <> "asset_customization_rules" ->
                member k out = member k feed).
Proof.
  intros Hclean Hframe Hhash. unfold finish_feed. cbv zeta.
  set (o1 := override "link_urls" _ _ _).
  assert (all_clean o1) as Hc1.
  { subst o1. repeat (apply all_clean_override;
                      [intros s items item m [= <-] [<-|[]] [= <-]; reflexivity|]).
    by apply all_clean_map_links, all_clean_remove. }
  assert (member "asset_customization_rules" o1 = None) as Ha1.
  { subst o1. members. reflexivity. }
  assert (member "images" o1 = member "images" o) as Hi1.
  { subst o1. members. reflexivity. }
  assert (forall k, ~ In k REWRITTEN_FIELDS -> member k o1 = member k feed)
    as Hf1.
  { intros k Hk. rewrite <- Hframe.
    2: { intros H. apply Hk. unfold REWRITTEN_FIELDS. apply in_app_iff. by left. }
    apply not_in_eqb in Hk. unfold REWRITTEN_FIELDS, ASSET_FIELDS in Hk.
    cbn [app STRIPPED_FIELDS] in Hk.
    repeat match type of Hk with
           | Forall _ (_ :: _) => apply Forall_cons in Hk as [? Hk]
           end.
    subst o1. members.
    repeat match goal with H : String.eqb k _ = false |- _ => rewrite H; clear H end.
    reflexivity. }
  assert (any_override ov = false ->
          forall k, ~ In k ASSET_FIELDS -> k <> "asset_customization_rules" ->
                    member k o1 = member k feed) as Hn1.
  { intros Hov k Hk Hacr. rewrite <- (Hframe k Hk).
    unfold any_override in Hov.
    repeat (apply orb_false_iff in Hov as [Hov ?]).
    apply not_in_eqb in Hk. unfold ASSET_FIELDS in Hk.
    cbn [app STRIPPED_FIELDS] in Hk.
    repeat match type of Hk with
           | Forall _ (_ :: _) => apply Forall_cons in Hk as [? Hk]
           end.
    apply String.eqb_neq in Hacr.
    subst o1. members.
    repeat match goal with H : given _ = false |- _ => rewrite H; clear H end.
    rewrite ?andb_false_r.
    repeat match goal with H : String.eqb k _ = false |- _ => rewrite H; clear H end.
    reflexivity. }
  clearbody o1.
  destruct (any_override ov) eqn:Hov.
  2: { eexists. split; [reflexivity|]. rewrite Hi1.
       repeat split; try done; by apply Hn1. }
  set (o2 := remove "reasons_to_shop" _).
  set (o3 := match member "optimization_type" o2 with
             | Some (Str t) =>
                 if String.eqb t "PLACEMENT" then remove "optimization_type" o2
                 else o2
             | _ => o2
             end).
  assert (forall k, String.eqb k "optimization_type" = false ->
                    member k o3 = member k o2) as H32.
  { intros k Hk. subst o3.
    destruct (member "optimization_type" o2) as [[| | |t| |]|]; try done.
    destruct (String.eqb t "PLACEMENT"); [|done].
    by rewrite feed_member_remove, Hk. }
  assert (member "optimization_type" o3 <> Some (Str "PLACEMENT")) as Hopt.
  { subst o3.
    destruct (member "optimization_type" o2) as [[| | |t| |]|] eqn:E;
      rewrite ?E; try done.
    destruct (String.eqb_spec t "PLACEMENT") as [->|Hne].
    - by rewrite feed_member_remove.
    - rewrite E. by intros [= ->]. }
  assert (all_clean o3) as Hc3.
  { subst o3.
    destruct (member "optimization_type" o2) as [[| | |t| |]|]; subst o2;
      try (by do 3 apply all_clean_remove).
    destruct (String.eqb t "PLACEMENT"); by repeat apply all_clean_remove. }
  assert (forall k, String.eqb k "optimization_type" = false ->
                    member k o3 =
                      if String.eqb k "reasons_to_shop" then None
                      else if String.eqb k "shops_bundle" then None
                      else if String.eqb k "onsite_destinations" then None
                      else member k o1) as H31.
  { intros k Hk. rewrite (H32 k Hk). subst o2. by members. }
  clearbody o3. clear o2 H32.
  match goal with
  | |- exists _, match ?l with _ => _ end = _ /\ _ => set (linkUrl := l)
  end.
  match goal with
  | |- context [("type", ?c)] => set (ctaType := c)
  end.
  assert (forall o4,
            o4 = o3 \/
            (exists link,
               o4 = assign "call_to_actions"
                      (Arr [Obj [("type", ctaType);
                                 ("value", Obj [("link", link)])]]) o3) ->
            member "asset_customization_rules" o4 = None
            /\ all_clean o4
            /\ distinct_hashes (member "images" o4)
            /\ (true = true ->
                member "onsite_destinations" o4 = None
                /\ member "shops_bundle" o4 = None
                /\ member "reasons_to_shop" o4 = None
                /\ member "optimization_type" o4 <> Some (Str "PLACEMENT"))
            /\ (forall k, ~ In k REWRITTEN_FIELDS ->
                          member k o4 = member k feed)
            /\ (true = false ->
                forall k, ~ In k ASSET_FIELDS ->
                          k <> "asset_customization_rules" ->
                          member k o4 = member k feed)) as Hfinal.
  { intros o4 Ho4.
    assert (forall k, String.eqb k "call_to_actions" = false ->
                      member k o4 = member k o3) as H43.
    { intros k Hk. destruct Ho4 as [->|[link ->]]; [done|].
      by rewrite feed_member_assign, Hk. }
    split; [by rewrite H43, H31, Ha1|]. split.
    { destruct Ho4 as [->|[link ->]]; [done|].
      apply all_clean_assign; [|done].
      intros items item m [= <-] [<-|[]] [= <-]. reflexivity. }
    split; [by rewrite H43, H31, Hi1|]. split.
    { intros _. rewrite !H43, !H31 by done. repeat split; done. }
    split; [|done].
    intros k Hk. rewrite <- (Hf1 k Hk).
    apply not_in_eqb in Hk. unfold REWRITTEN_FIELDS, ASSET_FIELDS in Hk.
    cbn [app STRIPPED_FIELDS] in Hk.
    repeat match type of Hk with
           | Forall _ (_ :: _) => apply Forall_cons in Hk as [? Hk]
           end.
    rewrite H43, H31 by done.
    repeat match goal with H : String.eqb k _ = false |- _ => rewrite H; clear H end.
    reflexivity. }
  destruct linkUrl as [link|]; [destruct (truthy_value (Some link))|];
    (eexists; split; [reflexivity|]); apply Hfinal; eauto.
Qed.

(** X26. The rewriting of an asset feed before it is posted again.  It fails
    only on an image list that holds [null].  Otherwise the feed it gives
    has no customization rules; no asset in it carries [adlabels]; its
    images have pairwise different hashes; when an override is given it has
    no shop destination, bundle or reasons and is not optimised by
    placement; every member the rewriting does not name is as it was; and
    without an override the members outside the asset lists are as they
    were but for the customization rules. *)
Theorem feed_rewrite (ov : Overrides) (feed : Members) :
  match rewrite_feed ov feed with
  | Throw _ =>
      exists items, member "images" feed = Some (Arr items) /\ In Null items
  | Ret out =>
      member "asset_customization_rules" out = None
      /\ (forall field,
            In field ASSET_FIELDS ->
            forall items item m,
              member field out = Some (Arr items) ->
              In item items -> item = Obj m -> member "adlabels" m = None)
      /\ (forall items i j a b,
            member "images" out = Some (Arr items) ->
            (i < j)%nat -> items !! i = Some a -> items !! j = Some b ->
            same_value_zero (key_of "hash" b) (key_of "hash" a) = false)
      /\ (any_override ov = true ->
          member "onsite_destinations" out = None
          /\ member "shops_bundle" out = None
          /\ member "reasons_to_shop" out = None
          /\ member "optimization_type" out <> Some (Str "PLACEMENT"))
      /\ (forall k, ~ In k REWRITTEN_FIELDS -> member k out = member k feed)
      /\ (any_override ov = false ->
          forall k, ~ In k ASSET_FIELDS ->
                    k <> "asset_customization_rules" ->
                    member k out = member k feed)
  end.
Proof.
  unfold rewrite_feed. cbv zeta.
  set (s1 := foldl _ feed STRIPPED_FIELDS).
  assert (forall k, member k s1 =
                    if existsb (String.eqb k) STRIPPED_FIELDS
                    then match member k feed with
                         | Some (Arr items) => Some (Arr (stripLabels items))
                         | v => v
                         end
                    else member k feed) as Hs1.
  { intros k. subst s1. apply member_stripped.
    apply (bool_decide_unpack _). vm_compute. reflexivity. }
  assert (forall field, In field STRIPPED_FIELDS -> clean (member field s1))
    as Hc1.
  { intros field Hf items item m Hm. rewrite Hs1 in Hm.
    assert (existsb (String.eqb field) STRIPPED_FIELDS = true) as E.
    { apply existsb_exists. exists field. split; [done|]. apply String.eqb_refl. }
    rewrite E in Hm. destruct (member field feed) as [[| | | |l|]|]; try done.
    by apply (clean_stripLabels l). }
  assert (forall k, ~ In k ASSET_FIELDS -> member k s1 = member k feed) as Hf1.
  { intros k Hk. rewrite Hs1.
    assert (existsb (String.eqb k) STRIPPED_FIELDS = false) as ->; [|done].
    apply not_true_iff_false. intros (x & Hx & E%String.eqb_eq)%existsb_exists.
    subst x. apply Hk. unfold ASSET_FIELDS. apply in_app_iff. by left. }
  assert (member "images" s1 = member "images" feed) as Hi1 by by rewrite Hs1.
  assert (forall s2,
            (forall k, String.eqb k "images" = false ->
                       member k s2 = member k s1) ->
            clean (member "images" s2) ->
            distinct_hashes (member "images" s2) ->
            match finish_feed ov s2 with
            | Throw _ =>
                exists items,
                  member "images" feed = Some (Arr items) /\ In Null items
            | Ret out =>
                member "asset_customization_rules" out = None
                /\ all_clean out
                /\ distinct_hashes (member "images" out)
                /\ (any_override ov = true ->
                    member "onsite_destinations" out = None
                    /\ member "shops_bundle" out = None
                    /\ member "reasons_to_shop" out = None
                    /\ member "optimization_type" out <> Some (Str "PLACEMENT"))
                /\ (forall k, ~ In k REWRITTEN_FIELDS ->
                              member k out = member k feed)
                /\ (any_override ov = false ->
                    forall k, ~ In k ASSET_FIELDS ->
                              k <> "asset_customization_rules" ->
                              member k out = member k feed)
            end) as Htail.
  { intros s2 H21 Hci Hh.
    destruct (rewrite_tail ov feed s2) as (out & -> & Hout); [| |done|done].
    - intros field Hf. unfold ASSET_FIELDS in Hf.
      apply in_app_iff in Hf as [Hf|[<-|[]]]; [|done].
      rewrite H21; [by apply Hc1|].
      cbn in Hf. by repeat destruct Hf as [<-|Hf].
    - intros k Hk. rewrite H21; [by apply Hf1|].
      apply String.eqb_neq. intros ->. apply Hk. unfold ASSET_FIELDS.
      apply in_app_iff. right. by left. }
  destruct (member "images" s1) as [[| | | |items|]|] eqn:Eimg.
  5: { destruct (deduplicateByKey (stripLabels items) "hash") as [images|e] eqn:Ed.
       - rewrite Exc_bind_Ret. cbn [mret Exc_ret]. rewrite Exc_bind_Ret.
         assert (~ In Null (stripLabels items)) as Hnull.
         { intros H. unfold deduplicateByKey in Ed.
           by rewrite (dedupe_null "hash" [] _ H) in Ed. }
         destruct (dedupe_spec "hash" [] _ Hnull) as (out' & Hrun & Hsub & Hp & _).
         unfold deduplicateByKey in Ed. rewrite Hrun in Ed. injection Ed as ->.
         apply Htail.
         + intros k Hk. by rewrite feed_member_assign, Hk.
         + rewrite feed_member_assign. cbn [String.eqb Ascii.eqb Bool.eqb].
           apply (clean_sublist images (stripLabels items) Hsub).
           apply clean_stripLabels.
         + rewrite feed_member_assign. cbn [String.eqb Ascii.eqb Bool.eqb].
           intros items' i j a b [= <-] Hij Hi Hj.
           specialize (Hp j b Hj). cbn [app] in Hp.
           destruct (same_value_zero (key_of "hash" b) (key_of "hash" a)) eqn:E;
             [|done].
           rewrite <- Hp. symmetry. apply existsb_exists.
           exists (key_of "hash" a). split; [|done]. apply in_map.
           apply list_elem_of_In. apply elem_of_take. by exists i.
       - rewrite Exc_bind_Throw. exists items. rewrite <- Hi1. split; [done|].
         unfold deduplicateByKey in Ed. apply dedupe_throws in Ed.
         unfold stripLabels in Ed. apply in_map_iff in Ed as (x & Hx & Hin).
         apply strip_item_null in Hx. by subst x. }
  all: cbn [mret Exc_ret]; rewrite Exc_bind_Ret; apply Htail;
    [done | by rewrite Eimg | by rewrite Eimg].
Qed.
End FeedTheorem.

(** ** Worked reports *)

Lemma by_campaign_sorted_witness :
  exists r,
    Report.generate_report (fixed_zone 0) Samples.noon_2025_03_15
      Samples.noon_2025_03_15 (Ret "act_1") Samples.previous_down
      Samples.default_args = Ret r
    /\ let shown :=
         List.filter
           (fun c => Report.passes_name
                       (Report.arg_campaign_name_contains Samples.default_args) c
                     && gt (Metrics.spend (Report.c_metrics c)) zero)
           (Report.campaign_of <$>
              Report.rows_of
                (Promise.settle
                   (Report.insights Samples.previous_down "act_1"
                      {| Resolver.since := "2025-03-08";
                         Resolver.until := "2025-03-14" |}
                      "campaign" (Some "50") None))) in
       Report.core <$> Report.by_campaign r ≡ₚ Report.core <$> shown
       /\ StronglySorted
            (fun a b =>
               ge (Metrics.spend (Report.c_metrics a))
                  (Metrics.spend (Report.c_metrics b)) = true)
            (Report.by_campaign r)
       /\ (StronglySorted
             (fun a b =>
                ge (Metrics.spend (Report.c_metrics a))
                   (Metrics.spend (Report.c_metrics b)) = true) shown ->
           Report.core <$> Report.by_campaign r = Report.core <$> shown).
Proof.
  apply (by_campaign_sorted (fixed_zone 0) Samples.noon_2025_03_15
           Samples.noon_2025_03_15 (Ret "act_1") Samples.previous_down
           Samples.default_args "act_1"
           {| Resolver.since := "2025-03-08"; Resolver.until := "2025-03-14" |}).
  - reflexivity.
  - vm_compute. reflexivity.
  - intros _. eexists. vm_compute. reflexivity.
Defined.

Lemma campaign_comparison_join_witness :
  exists r,
    Report.generate_report (fixed_zone 0) Samples.noon_2025_03_15
      Samples.noon_2025_03_15 (Ret "act_1") Samples.aggregate_down
      Samples.default_args = Ret r
    /\ let prevRows :=
         Report.rows_of
           (Promise.settle
              (Report.insights Samples.aggregate_down "act_1"
                 {| Resolver.since := "2025-03-01";
                    Resolver.until := "2025-03-07" |}
                 "campaign" (Some "50") None)) in
       Forall
         (fun c =>
            Report.vs_previous c =
              match default true
                      (Report.arg_compare_previous Samples.default_args),
                    prevRows with
              | true, _ :: _ =>
                  match last (List.filter
                                (fun p => String.eqb
                                            (Report.String_of (Metrics.campaign_id p))
                                            (Report.String_of (Report.c_campaign_id c)))
                                prevRows) with
                  | Some p =>
                      Report.Changes
                        (Report.changes_of Report.campaignMetrics
                           (Report.c_metrics c) (Metrics.calcDerivedMetrics p))
                  | None => Report.Null
                  end
              | _, _ => Report.NoKey
              end)
         (Report.by_campaign r).
Proof.
  apply (campaign_comparison_join (fixed_zone 0) Samples.noon_2025_03_15
           Samples.noon_2025_03_15 (Ret "act_1") Samples.aggregate_down
           Samples.default_args "act_1"
           {| Resolver.since := "2025-03-08"; Resolver.until := "2025-03-14" |}
           {| Resolver.since := "2025-03-01"; Resolver.until := "2025-03-07" |}).
  - reflexivity.
  - vm_compute. reflexivity.
  - intros _. vm_compute. reflexivity.
Defined.

Lemma graph_errors_surface_witness :
  Server.call_tool [Samples.details_tool] "get_campaign_details" tt =
    Server.errorResult "API error (404): HTTP 404: Not Found".
Proof.
  apply (graph_errors_surface (fun _ => None) id "GET" "/123"
           Samples.not_found 2 [Samples.details_tool] "get_campaign_details"
           tt Samples.details_tool
           (fun body => {| Server.text := body; Server.isError := false |})).
  - reflexivity.
  - reflexivity.
Defined.
